(** * lab6.py: an XML file handler with a logging decorator

    A shallow embedding of [src/lab6.py]: the two exception classes, the
    [logged] decorator and the three operations of [XMLFileHandler].  The
    program is written in a state-and-exception monad over a small model of
    the Python process: the file system, the console stream and the logging
    registry.

    What is outside the program is modelled as follows.
    - The file system maps a path to a regular file (contents, read and
      write permission) or a directory.  [open] fails for a missing file
      opened for reading, for a missing permission and for a directory;
      creating a missing file and writing to an open file always succeed.
    - The [logging] module is its registry of loggers, the handler objects
      the decorator has made so far, and the handlers that the application
      has attached to the root logger (for instance with
      [logging.basicConfig]): stream and file handlers with an open stream,
      each with a level and a format of its own.  The logger of a function
      is a child of the root logger (no decorated function is named
      [root]), so a record goes to the handlers of its logger and then to
      those of the root logger.
    - The XML library ([xml.etree.ElementTree]) is an interface
      ([ElementTree]): parser, serializer and [indent] are parameters, and
      every statement holds for any implementation, under the library facts
      it names.  A small implementation ([MiniET]) runs the program on
      concrete documents.
    - The time stamps of the log records are a parameter ([Clock]). *)

From Stdlib Require Import String Ascii List.
From stdpp Require Import base option list gmap strings.

(** ** Strings *)

Definition dquote : string := String (ascii_of_nat 34) EmptyString.
Definition newline : string := String (ascii_of_nat 10) EmptyString.

(** Truth value of a Python [str]: the empty string is false. *)
Definition truthy (s : string) : bool :=
  match s with EmptyString => false | String _ _ => true end.

(** ** Exceptions *)

(** The exception classes the program can meet.  [builtins_FileNotFoundError]
    is Python's own class, which the module shadows with its
    [FileNotFoundError] (lab6.py line 8). *)
Inductive exc_class :=
  | cBaseException
  | cKeyboardInterrupt
  | cException
  | cOSError
  | cPermissionError
  | cIsADirectoryError
  | builtins_FileNotFoundError
  | cSyntaxError
  | cParseError
  | cTypeError
  | cFileNotFoundError
  | cFileCorruptedError.

#[global] Instance exc_class_eq_dec : EqDecision exc_class.
Proof. solve_decision. Defined.

(** Direct base class. *)
Definition base_class (c : exc_class) : option exc_class :=
  match c with
  | cBaseException => None
  | cKeyboardInterrupt => Some cBaseException
  | cException => Some cBaseException
  | cOSError => Some cException
  | cPermissionError => Some cOSError
  | cIsADirectoryError => Some cOSError
  | builtins_FileNotFoundError => Some cOSError
  | cSyntaxError => Some cException
  | cParseError => Some cSyntaxError
  | cTypeError => Some cException
  | cFileNotFoundError => Some cException
  | cFileCorruptedError => Some cException
  end.

Fixpoint issubclass_upto (depth : nat) (c d : exc_class) : bool :=
  bool_decide (c = d) ||
  match depth, base_class c with
  | S depth', Some b => issubclass_upto depth' b d
  | _, _ => false
  end.

(** The class hierarchy above has depth four. *)
Definition issubclass : exc_class → exc_class → bool := issubclass_upto 4.

(** [cls.__name__] *)
Definition class_name (c : exc_class) : string :=
  match c with
  | cBaseException => "BaseException"
  | cKeyboardInterrupt => "KeyboardInterrupt"
  | cException => "Exception"
  | cOSError => "OSError"
  | cPermissionError => "PermissionError"
  | cIsADirectoryError => "IsADirectoryError"
  | builtins_FileNotFoundError => "FileNotFoundError"
  | cSyntaxError => "SyntaxError"
  | cParseError => "ParseError"
  | cTypeError => "TypeError"
  | cFileNotFoundError => "FileNotFoundError"
  | cFileCorruptedError => "FileCorruptedError"
  end.

(** An exception object: its class and [str(e)].  Both classes of the
    program pass one formatted message to [Exception.__init__] and keep
    nothing else. *)
Record exn := mkExn { exc_type : exc_class; exc_str : string }.

Definition isinstance (e : exn) (c : exc_class) : bool :=
  issubclass (exc_type e) c.

(** lab6.py lines 8-11 *)
Definition FileNotFoundError (filepath : string) : exn :=
  mkExn cFileNotFoundError ("Файл не знайдено: " +:+ filepath).

(** lab6.py lines 14-20 *)
Definition FileCorruptedError (filepath : string) (reason : string) : exn :=
  let msg := "Файл пошкоджено: " +:+ filepath in
  let msg := if truthy reason then msg +:+ " (" +:+ reason +:+ ")" else msg in
  mkExn cFileCorruptedError msg.

(** What the operating system raises from [open]. *)
Definition os_error (c : exc_class) (errno : string) (what : string) (path : string) : exn :=
  mkExn c ("[Errno " +:+ errno +:+ "] " +:+ what +:+ ": '" +:+ path +:+ "'").

Definition ENOENT (path : string) : exn :=
  os_error builtins_FileNotFoundError "2" "No such file or directory" path.
Definition EACCES (path : string) : exn :=
  os_error cPermissionError "13" "Permission denied" path.
Definition EISDIR (path : string) : exn :=
  os_error cIsADirectoryError "21" "Is a directory" path.

(** ** Documents *)

(** [xml.etree.ElementTree.Element]: a tag, attributes in insertion order,
    optional text before the first child, optional tail text after the end
    tag, and the children in order. *)
#[warning="-register-all"]
Inductive Element := mkElement {
  tag : string;
  attrib : list (string * string);
  text : option string;
  tail : option string;
  children : list Element
}.

(** [root.append(new_element)] *)
Definition append_child (root new_element : Element) : Element :=
  mkElement (tag root) (attrib root) (text root) (tail root)
            (children root ++ [new_element]).

Definition isspace (c : ascii) : bool :=
  let n := nat_of_ascii c in
  (n =? 32)%nat || ((9 <=? n)%nat && (n <=? 13)%nat).

Fixpoint all_space (s : string) : bool :=
  match s with
  | EmptyString => true
  | String c s' => isspace c && all_space s'
  end.

(** [not t or not t.strip()]: the text is absent, empty or only white space.
    [ET.indent] overwrites exactly the texts and tails for which this holds. *)
Definition blank (t : option string) : bool :=
  match t with None => true | Some s => all_space s end.

(** An element with every blank text and tail dropped. *)
Fixpoint unindented (e : Element) : Element :=
  match e with
  | mkElement tg at_ tx tl cs =>
      mkElement tg at_ (if blank tx then None else tx)
                (if blank tl then None else tl) (List.map unindented cs)
  end.

(** Two elements match when they differ only in blank texts and tails, that
    is in the indentation that [write] and [append] put into a document. *)
Definition matches (a b : Element) : Prop := unindented a = unindented b.

(** ** The process state *)

(** A path of the file system names a regular file, with its contents and
    the read and write permission of the process, or a directory.  A path
    stands for the file it resolves to: two different paths are two
    different files. *)
Inductive entry :=
  | Regular (data : string) (r w : bool)
  | Directory.

(** Where a logging handler writes: [logging.StreamHandler()] writes to
    [sys.stderr], [logging.FileHandler(path)] to a file opened for
    appending. *)
Inductive destination :=
  | Console
  | LogFile (path : string).

#[global] Instance destination_eq_dec : EqDecision destination.
Proof. solve_decision. Defined.

(** A handler object: its destination and whether [close()] was called. *)
Record handler_obj := mkHandler { h_dest : destination; h_closed : bool }.

(** A logger object: its level and the handlers attached to it (indices
    into the table of handler objects). *)
Record logger_obj := mkLogger { lg_level : nat; lg_handlers : list nat }.

(** A handler of the root logger: where it writes, its level, and the text
    it writes for a record, terminator included, given the time the record
    was made, the name of the logger, the name of the level and the
    message.  Its stream is open. *)
Record root_handler := mkRootHandler {
  rh_dest : destination;
  rh_level : nat;
  rh_line : nat → string → string → string → string
}.

Record state := mkState {
  files : gmap string entry;
  stderr : string;
  handlers : list handler_obj;
  loggers : gmap string logger_obj;
  root_handlers : list root_handler;
  ticks : nat
}.

Definition set_files (f : gmap string entry → gmap string entry) (s : state) : state :=
  mkState (f (files s)) (stderr s) (handlers s) (loggers s) (root_handlers s) (ticks s).
Definition set_stderr (f : string → string) (s : state) : state :=
  mkState (files s) (f (stderr s)) (handlers s) (loggers s) (root_handlers s) (ticks s).
Definition set_handlers (f : list handler_obj → list handler_obj) (s : state) : state :=
  mkState (files s) (stderr s) (f (handlers s)) (loggers s) (root_handlers s) (ticks s).
Definition set_loggers (f : gmap string logger_obj → gmap string logger_obj) (s : state) : state :=
  mkState (files s) (stderr s) (handlers s) (f (loggers s)) (root_handlers s) (ticks s).
Definition set_ticks (f : nat → nat) (s : state) : state :=
  mkState (files s) (stderr s) (handlers s) (loggers s) (root_handlers s) (f (ticks s)).

(** ** Computations that change the state and may raise *)

Inductive result (A : Type) :=
  | Return (a : A)
  | Raise (e : exn).
Arguments Return {A} a.
Arguments Raise {A} e.

Definition M (A : Type) : Type := state → result A * state.

#[global] Instance M_ret : MRet M := λ A a s, (Return a, s).
#[global] Instance M_bind : MBind M := λ A B f m s,
  match m s with
  | (Return a, s') => f a s'
  | (Raise e, s') => (Raise e, s')
  end.

Definition raise {A} (e : exn) : M A := λ s, (Raise e, s).
Definition modify (f : state → state) : M unit := λ s, (Return tt, f s).

(** [try: body  except c1 as e: h1 e  except c2 as e: h2 e ...]: the first
    clause whose class the exception is an instance of handles it; with no
    such clause the exception propagates. *)
Fixpoint handle_with {A} (clauses : list (exc_class * (exn → M A))) (e : exn) : M A :=
  match clauses with
  | [] => raise e
  | (c, h) :: rest => if isinstance e c then h e else handle_with rest e
  end.

Definition try_except {A} (body : M A) (clauses : list (exc_class * (exn → M A))) : M A :=
  λ s, match body s with
       | (Return a, s') => (Return a, s')
       | (Raise e, s') => handle_with clauses e s'
       end.

(** [try: body  finally: cleanup]: the cleanup runs on every exit of the
    body; an exception of the cleanup replaces the outcome of the body. *)
Definition try_finally {A} (body : M A) (cleanup : M unit) : M A :=
  λ s, match body s with
       | (r, s') =>
           match cleanup s' with
           | (Return _, s'') => (r, s'')
           | (Raise e, s'') => (Raise e, s'')
           end
       end.

(** ** The operating system *)

(** [os.path.exists(path)] *)
Definition os_path_exists (path : string) : M bool :=
  λ s, (Return (bool_decide (is_Some (files s !! path))), s).

(** [open(path, 'a')]: a missing file is created empty (with both
    permissions; the directory is taken to be writable), an existing one
    needs the write permission, a directory cannot be opened. *)
Definition open_append (path : string) : M unit :=
  λ s, match files s !! path with
       | None => (Return tt, set_files (insert path (Regular "" true true)) s)
       | Some (Regular _ _ w) => if w then (Return tt, s) else (Raise (EACCES path), s)
       | Some Directory => (Raise (EISDIR path), s)
       end.

(** [open(path, 'rb').read()] *)
Definition read_bytes (path : string) : M string :=
  λ s, match files s !! path with
       | None => (Raise (ENOENT path), s)
       | Some (Regular data r _) => if r then (Return data, s) else (Raise (EACCES path), s)
       | Some Directory => (Raise (EISDIR path), s)
       end.

(** [open(path, 'w')]: as [open_append], and the file is emptied. *)
Definition open_truncate (path : string) : M unit :=
  λ s, match files s !! path with
       | None => (Return tt, set_files (insert path (Regular "" true true)) s)
       | Some (Regular _ r w) =>
           if w then (Return tt, set_files (insert path (Regular "" r w)) s)
           else (Raise (EACCES path), s)
       | Some Directory => (Raise (EISDIR path), s)
       end.

(** Writing on an open stream adds the text at the end of the file the
    stream was opened on; the permissions were checked by [open]. *)
Definition append_data (path : string) (out : string) (fs : gmap string entry) : gmap string entry :=
  match fs !! path with
  | Some (Regular data r w) => <[path := Regular (data +:+ out) r w]> fs
  | _ => fs
  end.

(** ** The [logging] module *)

Definition NOTSET : nat := 0.
Definition INFO : nat := 20.
Definition WARNING : nat := 30.
Definition ERROR : nat := 40.

Definition getLevelName (level : nat) : string :=
  if (level =? INFO)%nat then "INFO"
  else if (level =? WARNING)%nat then "WARNING"
  else if (level =? ERROR)%nat then "ERROR"
  else "Level".

(** The time stamps of the log records come from the clock of the machine:
    [asctime k] is the stamp of the [k]-th record made in the process. *)
Class Clock := { asctime : nat → string }.

(** [logging.getLogger(name)]: the logger of that name, made on first use.
    A logger is referred to by its name. *)
Definition getLogger (name : string) : M string :=
  λ s, (Return name,
        set_loggers (λ registry,
          match registry !! name with
          | Some _ => registry
          | None => <[name := mkLogger NOTSET []]> registry
          end) s).

Definition setLevel (logger : string) (level : nat) : M unit :=
  modify (set_loggers (alter (λ l, mkLogger level (lg_handlers l)) logger)).

(** [logger.handlers.clear()] *)
Definition handlers_clear (logger : string) : M unit :=
  modify (set_loggers (alter (λ l, mkLogger (lg_level l) []) logger)).

Definition new_handler (dest : destination) : M nat :=
  λ s, (Return (length (handlers s)),
        set_handlers (λ hs, hs ++ [mkHandler dest false]) s).

(** [logging.StreamHandler()] *)
Definition StreamHandler : M nat := new_handler Console.

(** [logging.FileHandler(filename, encoding='utf-8')]: the file is opened
    for appending when the handler is made. *)
Definition FileHandler (filename : string) : M nat :=
  open_append filename;; new_handler (LogFile filename).

Definition addHandler (logger : string) (hdlr : nat) : M unit :=
  modify (set_loggers (alter (λ l,
    if bool_decide (hdlr ∈ lg_handlers l) then l
    else mkLogger (lg_level l) (lg_handlers l ++ [hdlr])) logger)).

(** [list.remove]: the first occurrence goes. *)
Fixpoint remove_first (x : nat) (l : list nat) : list nat :=
  match l with
  | [] => []
  | y :: l' => if bool_decide (x = y) then l' else y :: remove_first x l'
  end.

Definition removeHandler (logger : string) (hdlr : nat) : M unit :=
  modify (set_loggers (alter (λ l,
    mkLogger (lg_level l) (remove_first hdlr (lg_handlers l))) logger)).

(** [handler.close()]: a file handler closes its stream, a stream handler
    leaves [sys.stderr] open; both are marked closed. *)
Definition Handler_close (hdlr : nat) : M unit :=
  modify (set_handlers (alter (λ o, mkHandler (h_dest o) true) hdlr)).

(** The format the decorator sets (lab6.py line 33), and the terminator
    every handler adds. *)
Definition format_record (stamp name levelname message : string) : string :=
  stamp +:+ " - " +:+ name +:+ " - " +:+ levelname +:+ " - " +:+ message +:+ newline.

Definition write_to (dest : destination) (line : string) (s : state) : state :=
  match dest with
  | Console => set_stderr (λ out, out +:+ line) s
  | LogFile path => set_files (append_data path line) s
  end.

Definition Handler_emit (line : string) (s : state) (hdlr : nat) : state :=
  match handlers s !! hdlr with
  | Some o => write_to (h_dest o) line s
  | None => s
  end.

(** A logger without a level of its own takes the level of the root
    logger, [WARNING]. *)
Definition effective_level (l : logger_obj) : nat :=
  if (lg_level l =? NOTSET)%nat then WARNING else lg_level l.

(** A handler of the root logger handles a record at or above its level:
    it writes the text of its own format on its stream. *)
Definition root_emit (created : nat) (name : string) (level : nat) (msg : string)
    (s : state) (h : root_handler) : state :=
  if (rh_level h <=? level)%nat
  then write_to (rh_dest h) (rh_line h created name (getLevelName level) msg) s
  else s.

(** The record goes up to the root logger ([logger.propagate] is true):
    each of its handlers in turn. *)
Definition propagate (created : nat) (name : string) (level : nat) (msg : string)
    (s : state) : state :=
  foldl (root_emit created name level msg) s (root_handlers s).

(** [logger.log(level, msg)]: when the level is enabled a record is made and
    passed to every handler of the logger, which writes it out and flushes,
    and then to the handlers of the root logger ([Logger.callHandlers]). *)
Definition Logger_log `{Clock} (logger : string) (level : nat) (msg : string) : M unit :=
  λ s, match loggers s !! logger with
       | Some l =>
           if (effective_level l <=? level)%nat then
             let line := format_record (asctime (ticks s)) logger (getLevelName level) msg in
             let s' := foldl (Handler_emit line) s (lg_handlers l) in
             (Return tt, set_ticks S (propagate (ticks s) logger level msg s'))
           else (Return tt, s)
       | None => (Return tt, s)
       end.

Definition Logger_info `{Clock} (logger msg : string) : M unit := Logger_log logger INFO msg.
Definition Logger_error `{Clock} (logger msg : string) : M unit := Logger_log logger ERROR msg.

(** ** The [xml.etree.ElementTree] module *)

(** The three library functions the program calls.
    - [XMLParser data] parses a whole document: the root element, or the
      message of the [ParseError].
    - [serialize tree] is the text [ElementTree.write] produces for
      [encoding='utf-8', xml_declaration=True], declaration included.  The
      library writes as it goes and may stop with a [TypeError], whose
      message is then the second component, after part of the text.
    - [indent tree] is the tree after [ET.indent(tree, space="  ")], which
      changes the tree in place. *)
Class ElementTree := {
  XMLParser : string → string + Element;
  serialize : Element → string * option string;
  indent : Element → Element
}.

(** [ET.parse(source).getroot()] *)
Definition ET_parse `{ElementTree} (source : string) : M Element :=
  data ← read_bytes source;
  match XMLParser data with
  | inl msg => raise (mkExn cParseError msg)
  | inr root => mret root
  end.

(** [ET.ElementTree(root).write(file, encoding='utf-8', xml_declaration=True)] *)
Definition ElementTree_write `{ElementTree} (root : Element) (file : string) : M unit :=
  open_truncate file;;
  let '(out, err) := serialize root in
  modify (set_files (append_data file out));;
  match err with
  | Some msg => raise (mkExn cTypeError msg)
  | None => mret tt
  end.

(** ** lab6.py: the decorator *)

Definition LOG_FILE : string := "file_operations.log".

(** lab6.py lines 28-34: the logger of the function, its level, and a fresh
    handler as its only handler. *)
Definition logged_setup (mode name : string) : M (string * nat) :=
  logger ← getLogger name;
  setLevel logger INFO;;
  handlers_clear logger;;
  handler ← (if String.eqb mode "console" then StreamHandler else FileHandler LOG_FILE);
  addHandler logger handler;;
  mret (logger, handler).

(** lab6.py lines 36-46 *)
Definition logged_call `{Clock} {A} (exception_type : exc_class) (name : string)
    (func : M A) (logger : string) (handler : nat) : M A :=
  try_finally
    (try_except
       (Logger_info logger ("Виклик " +:+ name);;
        result ← func;
        Logger_info logger (name +:+ " виконано успішно");;
        mret result)
       [(exception_type,
         λ e, Logger_error logger (class_name exception_type +:+ ": " +:+ exc_str e);;
              raise e)])
    (Handler_close handler;;
     removeHandler logger handler).

(** [logged(exception_type, mode)(func)], for a [func] whose [__name__] is
    [name] (lab6.py lines 24-48). *)
Definition logged `{Clock} {A} (exception_type : exc_class) (mode : string)
    (name : string) (func : M A) : M A :=
  '(logger, handler) ← logged_setup mode name;
  logged_call exception_type name func logger handler.

(** ** lab6.py: the handler *)

Record XMLFileHandler := mkXMLFileHandler { filepath : string }.

(** lab6.py lines 54-57 *)
Definition XMLFileHandler_init (filepath : string) : M XMLFileHandler :=
  let self := mkXMLFileHandler filepath in
  found ← os_path_exists filepath;
  if negb found then raise (FileNotFoundError filepath) else mret self.

(** lab6.py lines 61-68 *)
Definition read_func `{ElementTree} (self : XMLFileHandler) : M Element :=
  try_except
    (ET_parse (filepath self))
    [(cParseError,
      λ e, raise (FileCorruptedError (filepath self) ("XML помилка: " +:+ exc_str e)));
     (cPermissionError,
      λ _, raise (FileCorruptedError (filepath self) "Немає прав для читання"));
     (cException,
      λ e, raise (FileCorruptedError (filepath self) (exc_str e)))].

(** lab6.py lines 72-79 *)
Definition write_func `{ElementTree} (self : XMLFileHandler) (root : Element) : M unit :=
  try_except
    (let tree := indent root in
     ElementTree_write tree (filepath self))
    [(cPermissionError,
      λ _, raise (FileCorruptedError (filepath self) "Немає прав для запису"));
     (cException,
      λ e, raise (FileCorruptedError (filepath self) (exc_str e)))].

(** lab6.py lines 83-93 *)
Definition append_func `{ElementTree} (self : XMLFileHandler) (new_element : Element) : M unit :=
  try_except
    (root ← ET_parse (filepath self);
     let tree := indent (append_child root new_element) in
     ElementTree_write tree (filepath self))
    [(cParseError,
      λ e, raise (FileCorruptedError (filepath self) ("XML помилка: " +:+ exc_str e)));
     (cPermissionError,
      λ _, raise (FileCorruptedError (filepath self) "Немає прав"));
     (cException,
      λ e, raise (FileCorruptedError (filepath self) (exc_str e)))].

(** lab6.py line 59 *)
Definition read `{ElementTree} `{Clock} (self : XMLFileHandler) : M Element :=
  logged cFileCorruptedError "console" "read" (read_func self).

(** lab6.py line 70 *)
Definition write `{ElementTree} `{Clock} (self : XMLFileHandler) (root : Element) : M unit :=
  logged cFileCorruptedError "file" "write" (write_func self root).

(** lab6.py line 81 *)
Definition append `{ElementTree} `{Clock} (self : XMLFileHandler) (new_element : Element) : M unit :=
  logged cFileCorruptedError "file" "append" (append_func self new_element).

(** Calls of [append] one after the other, each with an element of its own;
    an exception ends the sequence. *)
Fixpoint append_each `{ElementTree} `{Clock} (self : XMLFileHandler) (nodes : list Element) : M unit :=
  match nodes with
  | [] => mret tt
  | n :: rest => append self n;; append_each self rest
  end.

(** ** A small ElementTree *)

(** An implementation of the library interface for documents of elements,
    attributes and text: no comments, processing instructions, namespaces
    or DTD.  [indent] and [serialize] follow [ElementTree.py]; the parser
    normalizes the line ends, reads the text a character at a time, as a
    push parser does, and builds the tree as [TreeBuilder] does. *)
Module MiniET.

Fixpoint repeat_string (n : nat) (s : string) : string :=
  match n with
  | O => ""
  | S n' => s +:+ repeat_string n' s
  end.

(** [indentations[level]], for [space="  "] *)
Definition indentation (level : nat) : string :=
  newline +:+ repeat_string level "  ".

Definition set_tail (e : Element) (t : option string) : Element :=
  mkElement (tag e) (attrib e) (text e) t (children e).

Definition has_children (e : Element) : bool :=
  match children e with [] => false | _ :: _ => true end.

(** The tail of the last child goes back one level. *)
Fixpoint dedent_last (ind : string) (cs : list Element) : list Element :=
  match cs with
  | [] => []
  | [c] => [if blank (tail c) then set_tail c (Some ind) else c]
  | c :: cs' => c :: dedent_last ind cs'
  end.

(** [_indent_children(elem, level)] *)
Fixpoint indent_children (level : nat) (elem : Element) : Element :=
  match elem with
  | mkElement tg at_ tx tl cs =>
      let child_indentation := indentation (S level) in
      let cs' :=
        List.map (λ child,
          let child := if has_children child then indent_children (S level) child else child in
          if blank (tail child) then set_tail child (Some child_indentation) else child) cs in
      mkElement tg at_ (if blank tx then Some child_indentation else tx) tl
                (dedent_last (indentation level) cs')
  end.

Definition indent (tree : Element) : Element :=
  if has_children tree then indent_children 0 tree else tree.

Fixpoint replace_char (c : ascii) (by_ : string) (s : string) : string :=
  match s with
  | EmptyString => EmptyString
  | String d s' =>
      if Ascii.eqb c d then by_ +:+ replace_char c by_ s'
      else String d (replace_char c by_ s')
  end.

Definition escape_cdata (t : string) : string :=
  replace_char ">" "&gt;" (replace_char "<" "&lt;" (replace_char "&" "&amp;" t)).

Definition escape_attrib (t : string) : string :=
  replace_char (ascii_of_nat 9) "&#09;"
    (replace_char (ascii_of_nat 10) "&#10;"
      (replace_char (ascii_of_nat 13) "&#13;"
        (replace_char (ascii_of_nat 34) "&quot;" (escape_cdata t)))).

Fixpoint concat_strings (l : list string) : string :=
  match l with
  | [] => ""
  | s :: l' => s +:+ concat_strings l'
  end.

Definition serialize_attrib (kv : string * string) : string :=
  " " +:+ fst kv +:+ "=" +:+ dquote +:+ escape_attrib (snd kv) +:+ dquote.

(** [_serialize_xml], with [short_empty_elements=True] *)
Fixpoint serialize_xml (elem : Element) : string :=
  match elem with
  | mkElement tg at_ tx tl cs =>
      let tx := default "" tx in
      "<" +:+ tg +:+ concat_strings (List.map serialize_attrib at_) +:+
      (if truthy tx || negb (bool_decide (cs = []))
       then ">" +:+ escape_cdata tx +:+ concat_strings (List.map serialize_xml cs)
            +:+ "</" +:+ tg +:+ ">"
       else " />") +:+
      escape_cdata (default "" tl)
  end.

Definition xml_declaration : string :=
  "<?xml version='1.0' encoding='utf-8'?>" +:+ newline.

Definition serialize (root : Element) : string * option string :=
  (xml_declaration +:+ serialize_xml root, None).

(** *** The parser *)

(** An element that is still open: what was read of it so far, the children
    latest first. *)
Record frame := mkFrame {
  f_tag : string;
  f_attrib : list (string * string);
  f_text : option string;
  f_kids : list Element
}.

(** What the parser is in the middle of.  Characters are collected latest
    first. *)
Inductive mode :=
  | Text (buf : list ascii)
  | Ref (buf : list ascii) (name : list ascii)
  | Lt
  | Decl
  | STag (name : list ascii)
  | InTag (name : string) (attrs : list (string * string))
  | AName (name : string) (attrs : list (string * string)) (aname : list ascii)
  | AQuote (name : string) (attrs : list (string * string)) (aname : string)
  | AVal (name : string) (attrs : list (string * string)) (aname : string) (val : list ascii)
  | ARef (name : string) (attrs : list (string * string)) (aname : string)
         (val : list ascii) (ref : list ascii)
  | Slash (name : string) (attrs : list (string * string))
  | ETag (name : list ascii)
  | ETagEnd (name : string)
  | Failed (msg : string).

Record pstate := mkP {
  p_mode : mode;
  p_stack : list frame;
  p_root : option Element
}.

Definition collected (buf : list ascii) : string :=
  string_of_list_ascii (rev buf).

Definition is_name_start (c : ascii) : bool :=
  let n := nat_of_ascii c in
  ((65 <=? n)%nat && (n <=? 90)%nat) || ((97 <=? n)%nat && (n <=? 122)%nat)
  || (n =? 95)%nat || (n =? 58)%nat || (128 <=? n)%nat.

Definition is_name_char (c : ascii) : bool :=
  let n := nat_of_ascii c in
  is_name_start c || ((48 <=? n)%nat && (n <=? 57)%nat) || (n =? 45)%nat || (n =? 46)%nat.

Definition fail (msg : string) (s : pstate) : pstate :=
  mkP (Failed msg) (p_stack s) (p_root s).

Definition goto (m : mode) (s : pstate) : pstate :=
  mkP m (p_stack s) (p_root s).

(** [TreeBuilder._flush]: the collected text becomes the text of the open
    element when no child of it was closed yet, and the tail of its last
    child otherwise. *)
Definition flush (buf : list ascii) (stack : list frame) : list frame :=
  match buf, stack with
  | [], _ => stack
  | _, [] => stack
  | _, f :: rest =>
      match f_kids f with
      | [] => mkFrame (f_tag f) (f_attrib f) (Some (collected buf)) [] :: rest
      | k :: ks =>
          mkFrame (f_tag f) (f_attrib f) (f_text f)
                  (set_tail k (Some (collected buf)) :: ks) :: rest
      end
  end.

(** [TreeBuilder.start] *)
Definition open_element (name : string) (attrs : list (string * string)) (s : pstate) : pstate :=
  mkP (Text []) (mkFrame name (rev attrs) None [] :: p_stack s) (p_root s).

(** [TreeBuilder.end]: the element is complete and joins its parent, or is
    the root. *)
Definition close_element (name : string) (s : pstate) : pstate :=
  match p_stack s with
  | [] => fail "not well-formed (invalid token)" s
  | f :: rest =>
      if negb (String.eqb (f_tag f) name) then fail "mismatched tag" s
      else
        let e := mkElement (f_tag f) (f_attrib f) (f_text f) None (rev (f_kids f)) in
        match rest with
        | [] => mkP (Text []) [] (Some e)
        | p :: rest' =>
            mkP (Text [])
                (mkFrame (f_tag p) (f_attrib p) (f_text p) (e :: f_kids p) :: rest')
                (p_root s)
        end
  end.

Fixpoint decimal (acc : nat) (digits : string) : option nat :=
  match digits with
  | EmptyString => Some acc
  | String c r =>
      let n := nat_of_ascii c in
      if (48 <=? n)%nat && (n <=? 57)%nat then decimal (10 * acc + (n - 48)) r else None
  end.

(** The predefined entities and decimal character references below 128. *)
Definition reference (name : string) : option ascii :=
  if String.eqb name "amp" then Some "&"%char
  else if String.eqb name "lt" then Some "<"%char
  else if String.eqb name "gt" then Some ">"%char
  else if String.eqb name "quot" then Some (ascii_of_nat 34)
  else if String.eqb name "apos" then Some "'"%char
  else match name with
       | String "#" (String d ds) =>
           match decimal 0 (String d ds) with
           | Some n => if (n <? 128)%nat && (0 <? n)%nat then Some (ascii_of_nat n) else None
           | None => None
           end
       | _ => None
       end.

Definition has_key (k : string) (attrs : list (string * string)) : bool :=
  existsb (λ kv, String.eqb (fst kv) k) attrs.

Definition step (s : pstate) (c : ascii) : pstate :=
  match p_mode s with
  | Failed _ => s
  | Text buf =>
      match p_stack s with
      | [] =>
          if isspace c then s
          else match p_root s with
               | Some _ => fail "junk after document element" s
               | None =>
                   if Ascii.eqb c "<" then goto Lt s
                   else fail "not well-formed (invalid token)" s
               end
      | _ :: _ =>
          if Ascii.eqb c "<" then mkP Lt (flush buf (p_stack s)) (p_root s)
          else if Ascii.eqb c "&" then goto (Ref buf []) s
          else goto (Text (c :: buf)) s
      end
  | Ref buf name =>
      if Ascii.eqb c ";" then
        match reference (collected name) with
        | Some d => goto (Text (d :: buf)) s
        | None => fail "undefined entity" s
        end
      else if is_name_char c || Ascii.eqb c "#" then goto (Ref buf (c :: name)) s
      else fail "not well-formed (invalid token)" s
  | Lt =>
      if Ascii.eqb c "?" then
        match p_stack s, p_root s with
        | [], None => goto Decl s
        | _, _ => fail "not well-formed (invalid token)" s
        end
      else if Ascii.eqb c "/" then goto (ETag []) s
      else if is_name_start c then goto (STag [c]) s
      else fail "not well-formed (invalid token)" s
  | Decl => if Ascii.eqb c ">" then goto (Text []) s else s
  | STag name =>
      if is_name_char c then goto (STag (c :: name)) s
      else if isspace c then goto (InTag (collected name) []) s
      else if Ascii.eqb c ">" then open_element (collected name) [] s
      else if Ascii.eqb c "/" then goto (Slash (collected name) []) s
      else fail "not well-formed (invalid token)" s
  | InTag name attrs =>
      if isspace c then s
      else if Ascii.eqb c ">" then open_element name attrs s
      else if Ascii.eqb c "/" then goto (Slash name attrs) s
      else if is_name_start c then goto (AName name attrs [c]) s
      else fail "not well-formed (invalid token)" s
  | AName name attrs aname =>
      if is_name_char c then goto (AName name attrs (c :: aname)) s
      else if Ascii.eqb c "=" then
        if has_key (collected aname) attrs then fail "duplicate attribute" s
        else goto (AQuote name attrs (collected aname)) s
      else fail "not well-formed (invalid token)" s
  | AQuote name attrs aname =>
      if Ascii.eqb c (ascii_of_nat 34) then goto (AVal name attrs aname []) s
      else fail "not well-formed (invalid token)" s
  | AVal name attrs aname val =>
      if Ascii.eqb c (ascii_of_nat 34) then goto (InTag name ((aname, collected val) :: attrs)) s
      else if Ascii.eqb c "&" then goto (ARef name attrs aname val []) s
      else if Ascii.eqb c "<" then fail "not well-formed (invalid token)" s
      else goto (AVal name attrs aname (c :: val)) s
  | ARef name attrs aname val ref =>
      if Ascii.eqb c ";" then
        match reference (collected ref) with
        | Some d => goto (AVal name attrs aname (d :: val)) s
        | None => fail "undefined entity" s
        end
      else if is_name_char c || Ascii.eqb c "#" then goto (ARef name attrs aname val (c :: ref)) s
      else fail "not well-formed (invalid token)" s
  | Slash name attrs =>
      if Ascii.eqb c ">" then close_element name (open_element name attrs s)
      else fail "not well-formed (invalid token)" s
  | ETag name =>
      if is_name_char c then goto (ETag (c :: name)) s
      else if isspace c then goto (ETagEnd (collected name)) s
      else if Ascii.eqb c ">" then close_element (collected name) s
      else fail "not well-formed (invalid token)" s
  | ETagEnd name =>
      if isspace c then s
      else if Ascii.eqb c ">" then close_element name s
      else fail "not well-formed (invalid token)" s
  end.

(** [XMLParser.feed] *)
Fixpoint feed (s : pstate) (data : string) : pstate :=
  match data with
  | EmptyString => s
  | String c rest => feed (step s c) rest
  end.

(** [XMLParser.close] *)
Definition close (s : pstate) : string + Element :=
  match p_mode s, p_stack s, p_root s with
  | Failed msg, _, _ => inl msg
  | Text _, [], Some root => inr root
  | Text _, _, _ => inl "no element found"
  | _, _, _ => inl "unclosed token"
  end.

(** The line ends of the input are normalized before it is parsed: a
    carriage return followed by a line feed, and a carriage return alone,
    are read as one line feed. *)
Fixpoint normalize_newlines (data : string) : string :=
  match data with
  | EmptyString => EmptyString
  | String c rest =>
      if Ascii.eqb c (ascii_of_nat 13) then
        String (ascii_of_nat 10)
          (match rest with
           | String d rest' =>
               if Ascii.eqb d (ascii_of_nat 10) then normalize_newlines rest'
               else normalize_newlines rest
           | EmptyString => EmptyString
           end)
      else String c (normalize_newlines rest)
  end.

Definition XMLParser (data : string) : string + Element :=
  close (feed (mkP (Text []) [] None) (normalize_newlines data)).

(** The library, as this module implements it. *)
Definition lib : ElementTree :=
  Build_ElementTree XMLParser serialize indent.

End MiniET.

(** A clock for the examples: the [k]-th record is stamped with second [k]. *)
Definition digit (n : nat) : string :=
  String (ascii_of_nat (48 + n mod 10)) EmptyString.

Definition example_clock : Clock :=
  {| asctime := λ k, "2025-05-20 12:00:" +:+ digit (k / 10) +:+ digit k +:+ ",000" |}.

Definition empty_state : state := mkState ∅ "" [] ∅ [] 0.

Definition with_file (path : string) (e : entry) (s : state) : state :=
  set_files (insert path e) s.

(** The document of the demonstration (lab6.py lines 125-129) and the
    element it appends (lines 142-143). *)
Definition item (id txt : string) : Element :=
  mkElement "item" [("id", id)] (Some txt) None [].

Definition demo_root : Element :=
  mkElement "data" [] None None [item "1" "first"].

Definition second_item : Element := item "2" "second".
Definition third_item : Element := item "3" "third".

Definition demo_handler : XMLFileHandler := mkXMLFileHandler "demo.xml".

(** The text of [demo.xml] as the demonstration writes it, and the root
    that parsing it gives. *)
Definition demo_document : string := (MiniET.serialize (MiniET.indent demo_root)).1.
Definition demo_parsed : Element := MiniET.indent demo_root.

(** [demo.xml] holds the document; there is no log file yet. *)
Definition demo_state : state :=
  with_file "demo.xml" (Regular demo_document true true) empty_state.

(** [demo.xml] holds the damaged text of lab6.py line 166. *)
Definition broken_state : state :=
  with_file "demo.xml"
    (Regular "<?xml version='1.0'?><data><item>Незакритий тег" true true) empty_state.

(** A function that is interrupted: it raises an exception that is not an
    [Exception]. *)
Definition interrupted : M unit := raise (mkExn cKeyboardInterrupt "").

(** A handler on the audit log file itself. *)
Definition log_handler : XMLFileHandler := mkXMLFileHandler LOG_FILE.

(** ** Vocabulary of the statements *)

(** The text of the audit log file; a file that is not there has no text. *)
Definition log_text (s : state) : string :=
  match files s !! LOG_FILE with
  | Some (Regular data _ _) => data
  | _ => ""
  end.

(** [open(LOG_FILE, 'a')] would succeed. *)
Definition log_can_open (s : state) : bool :=
  match files s !! LOG_FILE with
  | None => true
  | Some (Regular _ _ w) => w
  | Some Directory => false
  end.

(** The process may read the file at [path], if there is one. *)
Definition may_read (s : state) (path : string) : bool :=
  match files s !! path with
  | Some (Regular _ r _) => r
  | _ => true
  end.

(** The outcome is a normal return or a [FileCorruptedError] for [path]. *)
Definition returns_or_corrupted {A} (path : string) (r : result A) : Prop :=
  match r with
  | Return _ => True
  | Raise e => ∃ reason, e = FileCorruptedError path reason
  end.

(** The function leaves the logging registry alone. *)
Definition keeps_logging {A} (func : M A) : Prop :=
  ∀ s, handlers (func s).2 = handlers s ∧ loggers (func s).2 = loggers s.

(** The function changes nothing but files. *)
Definition only_files {A} (func : M A) : Prop :=
  ∀ s, ∃ fs, (func s).2 = set_files (λ _, fs) s.

(** The destination the decorator logs to in a mode (lab6.py line 32). *)
Definition destination_of (mode : string) : destination :=
  if String.eqb mode "console" then Console else LogFile LOG_FILE.

(** The files once the destination of a mode is open: a missing log file
    is created. *)
Definition files_opened (mode : string) (fs : gmap string entry) : gmap string entry :=
  match destination_of mode with
  | Console => fs
  | LogFile path =>
      match fs !! path with
      | None => <[path := Regular "" true true]> fs
      | Some _ => fs
      end
  end.

(** The record the decorator logs when the function is left: success, the
    watched error, or nothing for another exception. *)
Definition outcome_record `{Clock} {A} (exception_type : exc_class) (name : string)
    (k : nat) (r : result A) : string :=
  match r with
  | Return _ => format_record (asctime k) name "INFO" (name +:+ " виконано успішно")
  | Raise e =>
      if isinstance e exception_type
      then format_record (asctime k) name "ERROR"
             (class_name exception_type +:+ ": " +:+ exc_str e)
      else ""
  end.

Definition invoked_record `{Clock} (name : string) (k : nat) : string :=
  format_record (asctime k) name "INFO" ("Виклик " +:+ name).

(** The state once the decorator has its logger and handler ready. *)
Definition prepared (mode name : string) (s : state) : state :=
  mkState (files_opened mode (files s)) (stderr s)
          (handlers s ++ [mkHandler (destination_of mode) false])
          (<[name := mkLogger INFO [length (handlers s)]]> (loggers s))
          (root_handlers s) (ticks s).

(** The state in which the decorated function starts: the destination has
    the record of the call, and the handlers of the root logger have
    handled it. *)
Definition entered `{Clock} (mode name : string) (s : state) : state :=
  set_ticks S
    (propagate (ticks s) name INFO ("Виклик " +:+ name)
       (write_to (destination_of mode) (invoked_record name (ticks s)) s)).

(** Whether the decorator logs a record when the function is left. *)
Definition logs_outcome {A} (exception_type : exc_class) (r : result A) : bool :=
  match r with
  | Return _ => true
  | Raise e => isinstance e exception_type
  end.

(** The level and the message of the record of the outcome. *)
Definition outcome_level {A} (r : result A) : nat :=
  match r with Return _ => INFO | Raise _ => ERROR end.

Definition outcome_message {A} (exception_type : exc_class) (name : string)
    (r : result A) : string :=
  match r with
  | Return _ => name +:+ " виконано успішно"
  | Raise e => class_name exception_type +:+ ": " +:+ exc_str e
  end.

(** The state after the record of the outcome. *)
Definition left `{Clock} {A} (exception_type : exc_class) (mode name : string)
    (r : result A) (s : state) : state :=
  if logs_outcome exception_type r
  then set_ticks S
         (propagate (ticks s) name (outcome_level r) (outcome_message exception_type name r)
            (write_to (destination_of mode)
               (outcome_record exception_type name (ticks s) r) s))
  else s.

(** The state after the [finally] clause: the handler is closed and the
    logger has no handler. *)
Definition released (name : string) (hd : nat) (s : state) : state :=
  set_loggers (insert name (mkLogger INFO []))
    (set_handlers (alter (λ o, mkHandler (h_dest o) true) hd) s).

(** The record that closes the trail of a call of an operation: success, or
    the error with the name of the watched class and the message. *)
Definition closing_record `{Clock} {A} (name : string) (k : nat) (r : result A) : string :=
  match r with
  | Return _ => format_record (asctime k) name "INFO" (name +:+ " виконано успішно")
  | Raise e => format_record (asctime k) name "ERROR" ("FileCorruptedError: " +:+ exc_str e)
  end.

(** No handler of the root logger writes to the destination. *)
Definition root_spares (s : state) (dest : destination) : bool :=
  forallb (λ h, negb (bool_decide (rh_dest h = dest))) (root_handlers s).

(** The text a destination holds: what was written to the console stream,
    or the contents of the file. *)
Definition text_at (dest : destination) (s : state) : option string :=
  match dest with
  | Console => Some (stderr s)
  | LogFile path =>
      match files s !! path with
      | Some (Regular data _ _) => Some data
      | _ => None
      end
  end.

(** What is at a path after text was written on streams: a regular file
    has its text with more at the end and its permissions, anything else is
    as it was. *)
Definition grown (before after : option entry) : Prop :=
  match before with
  | Some (Regular data r w) => ∃ more, after = Some (Regular (data +:+ more) r w)
  | _ => after = before
  end.

(** *** Valid documents *)

Definition is_letter (c : ascii) : bool :=
  let n := nat_of_ascii c in
  ((65 <=? n)%nat && (n <=? 90)%nat) || ((97 <=? n)%nat && (n <=? 122)%nat).

Definition is_digit (c : ascii) : bool :=
  let n := nat_of_ascii c in (48 <=? n)%nat && (n <=? 57)%nat.

Fixpoint string_forall (p : ascii → bool) (s : string) : bool :=
  match s with
  | EmptyString => true
  | String c s' => p c && string_forall p s'
  end.

(** A name of XML without a namespace prefix, in ASCII: a letter or an
    underscore, then letters, digits, underscores, hyphens and full stops. *)
Definition name_rest (d : ascii) : bool :=
  is_letter d || is_digit d || Ascii.eqb d "_" || Ascii.eqb d "-" || Ascii.eqb d ".".

Definition xml_name (s : string) : bool :=
  match s with
  | EmptyString => false
  | String c s' => (is_letter c || Ascii.eqb c "_") && string_forall name_rest s'
  end.

(** A character that a document may hold and that the parser gives back
    as it is: no control character but the tab and the line feed. *)
Definition xml_char (c : ascii) : bool :=
  let n := nat_of_ascii c in
  (n =? 9)%nat || (n =? 10)%nat || (32 <=? n)%nat.

Definition xml_text (t : option string) : bool :=
  string_forall xml_char (default "" t).

Fixpoint distinct (keys : list string) : bool :=
  match keys with
  | [] => true
  | k :: rest => negb (existsb (String.eqb k) rest) && distinct rest
  end.

(** The attributes of an element: the keys are names, none declares a
    namespace, and no key comes twice (they are the keys of a [dict]). *)
Definition plain_attrib (attrib : list (string * string)) : bool :=
  forallb (λ kv, xml_name kv.1 && negb (String.eqb kv.1 "xmlns") && xml_text (Some kv.2)) attrib
  && distinct (List.map fst attrib).

(** An element that is valid as a part of a document: its tag and those
    below it are names, its attributes are as above, its texts and tails
    are text of a document. *)
Fixpoint plain (e : Element) : bool :=
  match e with
  | mkElement tg at_ tx tl cs =>
      xml_name tg && plain_attrib at_ && xml_text tx && xml_text tl
      && forallb plain cs
  end.

(** A valid document: a valid root element with nothing but white space
    after it. *)
Definition valid_document (root : Element) : bool :=
  plain root && blank (tail root).

(** The library reads back what it writes: a valid document, indented and
    serialized, parses to a valid document that differs from it in blank
    texts and tails only. *)
Definition reads_back `{ElementTree} : Prop :=
  ∀ doc, valid_document doc = true →
    ∃ root, XMLParser (serialize (indent doc)).1 = inr root
            ∧ matches root doc ∧ valid_document root = true.

(** A document followed by the record that [append] logs when it is called
    is not a document: the library reports text after the root element. *)
Definition rejects_trailing_record `{ElementTree} : Prop :=
  ∀ data root stamp,
    XMLParser data = inr root →
    ∃ msg, XMLParser (data +:+ format_record stamp "append" "INFO" "Виклик append") = inl msg.

(** ** More vocabulary *)

(** A serializer that cannot serialize: it stops with a [TypeError] after
    the declaration, as [ElementTree.write] does for a tree that holds a
    value that is not a string. *)
Definition stopping_lib : ElementTree :=
  Build_ElementTree MiniET.XMLParser
    (λ _, (MiniET.xml_declaration, Some "cannot serialize 1 (type int)"))
    MiniET.indent.

(** ** lab6.py: the demonstration *)

(** The demonstration prints on the standard output, which the handler and
    the decorator never use: the process is the state they see and the text
    printed so far. *)
Record process := mkProcess { world : state; stdout : string }.

Definition P (A : Type) : Type := process → result A * process.

#[global] Instance P_ret : MRet P := λ A a p, (Return a, p).
#[global] Instance P_bind : MBind P := λ A B f m p,
  match m p with
  | (Return a, p') => f a p'
  | (Raise e, p') => (Raise e, p')
  end.

(** A computation of the program, run in the process. *)
Definition lift {A} (m : M A) : P A :=
  λ p, ((m (world p)).1, mkProcess (m (world p)).2 (stdout p)).

(** [print(line)] *)
Definition print (line : string) : P unit :=
  λ p, (Return tt, mkProcess (world p) (stdout p +:+ line +:+ newline)).

(** [try: body  except c as e: h e], in the process. *)
Definition try_except_P {A} (body : P A) (c : exc_class) (h : exn → P A) : P A :=
  λ p, match body p with
       | (Return a, p') => (Return a, p')
       | (Raise e, p') => if isinstance e c then h e p' else (Raise e, p')
       end.

(** [os.remove(path)]: a regular file is unlinked, whatever its own
    permissions; a directory is not removed. *)
Definition os_remove (path : string) : M unit :=
  λ s, match files s !! path with
       | None => (Raise (ENOENT path), s)
       | Some (Regular _ _ _) => (Return tt, set_files (delete path) s)
       | Some Directory => (Raise (EISDIR path), s)
       end.

(** [ET.Element(tag, **attrib)] *)
Definition ET_Element (tag : string) (attrib : list (string * string)) : Element :=
  mkElement tag attrib None None [].

(** [element.text = value] *)
Definition set_text (element : Element) (value : string) : Element :=
  mkElement (tag element) (attrib element) (Some value) (tail element) (children element).

(** [element.get(key)]; the keys of the attributes are distinct. *)
Definition Element_get (element : Element) (key : string) : option string :=
  snd <$> List.find (λ kv, String.eqb (fst kv) key) (attrib element).

(** How an f-string shows a value that may be [None]. *)
Definition shown (value : option string) : string := default "None" value.

(** lab6.py lines 139, 150 and 161 *)
Definition child_line (child : Element) : string :=
  "   - <" +:+ tag child +:+ " id='" +:+ shown (Element_get child "id") +:+ "'>"
  +:+ shown (text child) +:+ "</" +:+ tag child +:+ ">".

(** [for child in root: print(...)] *)
Fixpoint print_children (cs : list Element) : P unit :=
  match cs with
  | [] => mret tt
  | child :: rest => print (child_line child);; print_children rest
  end.

(** lab6.py lines 111 and 125-126, 153-154, 142-143 *)
Definition temp_root : Element := ET_Element "temp" [].
Definition first_root : Element :=
  append_child (ET_Element "data" [])
    (set_text (ET_Element "item" [("id", "1")]) "Перший елемент").
Definition new_item : Element := set_text (ET_Element "item" [("id", "2")]) "Другий елемент".
Definition new_root : Element :=
  append_child (ET_Element "data" [])
    (set_text (ET_Element "item" [("id", "100")]) "Новий вміст").

(** lab6.py lines 103-119: the first run *)
Definition first_run `{ElementTree} `{Clock} : P unit :=
  print " Спроба відкрити неіснуючий 'demo.xml':";;
  try_except_P (lift (XMLFileHandler_init "demo.xml");; mret tt)
    cFileNotFoundError (λ e, print (" ! " +:+ exc_str e));;
  print (newline +:+ " Створюємо лог файл через декоратор...");;
  lift (ElementTree_write temp_root "temp.xml");;
  temp_handler ← lift (XMLFileHandler_init "temp.xml");
  lift (write temp_handler temp_root);;
  lift (os_remove "temp.xml");;
  print "Файл 'file_operations.log' створено".

(** lab6.py lines 124-161: the second run *)
Definition second_run `{ElementTree} `{Clock} : P unit :=
  print "1. Створюємо 'demo.xml':";;
  lift (ElementTree_write (indent first_root) "demo.xml");;
  print "Файл 'demo.xml' створено";;
  print (newline +:+ " Відкриваємо 'demo.xml':");;
  handler ← lift (XMLFileHandler_init "demo.xml");
  print "Файл відкрито";;
  print (newline +:+ " Читаємо файл:");;
  root ← lift (read handler);
  print_children (children root);;
  print (newline +:+ " Додаємо елемент:");;
  lift (append handler new_item);;
  print "Елемент додано";;
  print (newline +:+ "5. Читаємо оновлений файл:");;
  root ← lift (read handler);
  print_children (children root);;
  print (newline +:+ " Перезаписуємо файл:");;
  lift (write handler new_root);;
  print "Файл перезаписано";;
  print (newline +:+ "7. Читаємо перезаписаний файл:");;
  root ← lift (read handler);
  print_children (children root).

(** lab6.py lines 97-122 *)
Definition main `{ElementTree} `{Clock} : P unit :=
  print ("Запуск " +:+ newline);;
  found ← lift (os_path_exists LOG_FILE);
  if negb found then first_run else second_run.

(** The lines of a listing of children, as printed. *)
Fixpoint listing (cs : list Element) : string :=
  match cs with
  | [] => ""
  | child :: rest => child_line child +:+ newline +:+ listing rest
  end.

(** [open(path, 'w')] would succeed. *)
Definition may_write (s : state) (path : string) : bool :=
  match files s !! path with
  | None => true
  | Some (Regular _ _ w) => w
  | Some Directory => false
  end.

(** What the first run prints, when [demo.xml] is missing and when it is
    there. *)
Definition first_run_output (missing : bool) : string :=
  "Запуск " +:+ newline +:+ newline
  +:+ " Спроба відкрити неіснуючий 'demo.xml':" +:+ newline
  +:+ (if missing then " ! " +:+ exc_str (FileNotFoundError "demo.xml") +:+ newline else "")
  +:+ newline +:+ " Створюємо лог файл через декоратор..." +:+ newline
  +:+ "Файл 'file_operations.log' створено" +:+ newline.

(** What the second run prints, for the roots that its three calls of
    [read] return. *)
Definition second_run_output (r1 r2 r3 : Element) : string :=
  "Запуск " +:+ newline +:+ newline
  +:+ "1. Створюємо 'demo.xml':" +:+ newline
  +:+ "Файл 'demo.xml' створено" +:+ newline
  +:+ newline +:+ " Відкриваємо 'demo.xml':" +:+ newline
  +:+ "Файл відкрито" +:+ newline
  +:+ newline +:+ " Читаємо файл:" +:+ newline
  +:+ listing (children r1)
  +:+ newline +:+ " Додаємо елемент:" +:+ newline
  +:+ "Елемент додано" +:+ newline
  +:+ newline +:+ "5. Читаємо оновлений файл:" +:+ newline
  +:+ listing (children r2)
  +:+ newline +:+ " Перезаписуємо файл:" +:+ newline
  +:+ "Файл перезаписано" +:+ newline
  +:+ newline +:+ "7. Читаємо перезаписаний файл:" +:+ newline
  +:+ listing (children r3).

(** States for the examples: [demo.xml] without the read permission,
    without the write permission, and as a directory; a file of the user
    next to the document; a registry in which the logger of [write] has a
    handler of the application and another logger is in use. *)
Definition unreadable_state : state :=
  with_file "demo.xml" (Regular demo_document false true) empty_state.
Definition readonly_state : state :=
  with_file "demo.xml" (Regular demo_document true false) empty_state.
Definition directory_state : state :=
  with_file "demo.xml" Directory empty_state.
Definition notes_state : state :=
  with_file "notes.txt" (Regular "keep" true true) demo_state.
Definition busy_state : state :=
  mkState (files demo_state) "" [mkHandler Console false]
          (<["write" := mkLogger ERROR [0]]> (<["app" := mkLogger WARNING [0]]> ∅)) [] 0.

(** The application has configured the root logger: a handler at the level
    [INFO] that writes [LEVEL:name:message], the format of
    [logging.basicConfig]. *)
Definition basic_line (created : nat) (name levelname msg : string) : string :=
  levelname +:+ ":" +:+ name +:+ ":" +:+ msg +:+ newline.

Definition basic_handler (dest : destination) : root_handler :=
  mkRootHandler dest INFO basic_line.

Definition with_root_handler (h : root_handler) (s : state) : state :=
  mkState (files s) (stderr s) (handlers s) (loggers s) (root_handlers s ++ [h]) (ticks s).

(** [logging.basicConfig(filename="app.log", level=logging.INFO)] next to
    the document of the demonstration, and next to the damaged one. *)
Definition app_state : state :=
  with_root_handler (basic_handler (LogFile "app.log"))
    (with_file "app.log" (Regular "" true true) demo_state).
Definition broken_app_state : state :=
  with_root_handler (basic_handler (LogFile "app.log"))
    (with_file "app.log" (Regular "" true true) broken_state).

(** A handler of the root logger whose format keeps nothing of the record,
    [Formatter("%(message).0s</item></data>")]. *)
Definition closing_handler (dest : destination) : root_handler :=
  mkRootHandler dest INFO (λ _ _ _ _, "</item></data>" +:+ newline).

(** A text that ends with the log record of that name, level and message
    is no document, whatever comes before and whatever the time stamp: the
    library reports it. *)
Definition rejects_record `{ElementTree} (name levelname message : string) : Prop :=
  ∀ data stamp,
    ∃ msg, XMLParser (data +:+ format_record stamp name levelname message) = inl msg.

(** The parser of the small ElementTree has read a whole document. *)
Definition accepting (st : MiniET.pstate) : Prop :=
  ∃ buf root, MiniET.p_mode st = MiniET.Text buf
              ∧ MiniET.p_stack st = [] ∧ MiniET.p_root st = Some root.


(** ** What the parser of the small ElementTree reads *)

(** Induction on an element, with the property for every child. *)
Fixpoint Element_forall_ind (P : Element → Prop)
    (step : ∀ tg at_ tx tl cs, Forall P cs → P (mkElement tg at_ tx tl cs))
    (e : Element) : P e :=
  match e with
  | mkElement tg at_ tx tl cs =>
      step tg at_ tx tl cs
        ((fix go (l : list Element) : Forall P l :=
            match l with
            | [] => @List.Forall_nil _ P
            | c :: l' => @List.Forall_cons _ P c l' (Element_forall_ind P step c) (go l')
            end) cs)
  end.

(** The characters of a text, collected after those of a buffer. *)
Fixpoint push (t : string) (buf : list ascii) : list ascii :=
  match t with
  | EmptyString => buf
  | String c t' => push t' (c :: buf)
  end.

(** The parser gives no text for the empty text. *)
Definition read_text (t : option string) : option string :=
  match t with
  | Some EmptyString => None
  | _ => t
  end.

(** The element the parser builds for an element that was written. *)
Fixpoint as_read (e : Element) : Element :=
  match e with
  | mkElement tg at_ tx tl cs =>
      mkElement tg at_ (read_text tx) (read_text tl) (List.map as_read cs)
  end.

(** [serialize_xml] without the tail. *)
Definition element_string (e : Element) : string :=
  MiniET.serialize_xml (MiniET.set_tail e None).

Definition attrib_string (attrib : list (string * string)) : string :=
  MiniET.concat_strings (List.map MiniET.serialize_attrib attrib).

(** [TreeBuilder._flush] on the open element. *)
Definition flush1 (buf : list ascii) (f : MiniET.frame) : MiniET.frame :=
  match buf with
  | [] => f
  | _ =>
      match MiniET.f_kids f with
      | [] => MiniET.mkFrame (MiniET.f_tag f) (MiniET.f_attrib f)
                (Some (MiniET.collected buf)) []
      | k :: ks =>
          MiniET.mkFrame (MiniET.f_tag f) (MiniET.f_attrib f) (MiniET.f_text f)
            (MiniET.set_tail k (Some (MiniET.collected buf)) :: ks)
      end
  end.

Definition add_kid (e : Element) (f : MiniET.frame) : MiniET.frame :=
  MiniET.mkFrame (MiniET.f_tag f) (MiniET.f_attrib f) (MiniET.f_text f)
    (e :: MiniET.f_kids f).

(** The element that closing an open element gives. *)
Definition frame_element (f : MiniET.frame) : Element :=
  mkElement (MiniET.f_tag f) (MiniET.f_attrib f) (MiniET.f_text f) None
            (rev (MiniET.f_kids f)).

(** The state of the parser once an element is complete: it is the last
    child of the element that is open, or the root. *)
Definition attach (e : Element) (stack : list MiniET.frame) (root : option Element)
    : MiniET.pstate :=
  match stack with
  | [] => MiniET.mkP (MiniET.Text []) [] (Some e)
  | p :: rest => MiniET.mkP (MiniET.Text []) (add_kid e p :: rest) root
  end.

(** The open element and the pending text after its children [cs] were
    read: each child is attached once the text before it is flushed, and
    its tail is pending. *)
Fixpoint absorb (cs : list Element) (f : MiniET.frame) (pending : list ascii)
    : MiniET.frame * list ascii :=
  match cs with
  | [] => (f, pending)
  | c :: cs' =>
      absorb cs' (add_kid (MiniET.set_tail (as_read c) None) (flush1 pending f))
             (push (default "" (tail c)) [])
  end.

Definition with_children (e : Element) (cs : list Element) : Element :=
  mkElement (tag e) (attrib e) (text e) (tail e) (children e ++ cs).

(** The character as [escape_cdata] and [escape_attrib] write it. *)
Definition escaped_cdata (c : ascii) : string :=
  MiniET.escape_cdata (String c EmptyString).

(** A character that is no carriage return. *)
Definition no_return (c : ascii) : bool := negb (Ascii.eqb c (ascii_of_nat 13)).

(** An element, written without its tail, is read as the next child of
    the open element, or as the root. *)
Definition parses (e : Element) : Prop :=
  ∀ buf stack root,
    (stack = [] → root = None) →
    MiniET.feed (MiniET.mkP (MiniET.Text buf) stack root) (element_string e)
    = attach (MiniET.set_tail (as_read e) None)
        (match stack with [] => [] | f :: rest => flush1 buf f :: rest end) root.

Definition escaped_attrib (c : ascii) : string :=
  MiniET.escape_attrib (String c EmptyString).
(** * Proofs *)

(** ** Strings *)

Lemma string_app_cons (x : ascii) (a b : string) : String x a +:+ b = String x (a +:+ b).
Proof. reflexivity. Qed.

Lemma string_app_nil_r (a : string) : a +:+ "" = a.
Proof. induction a as [|c a IH]; [done |]. rewrite string_app_cons. by f_equal. Qed.

Lemma string_app_assoc (a b c : string) : (a +:+ b) +:+ c = a +:+ (b +:+ c).
Proof. induction a as [|x a IH]; [done |]. rewrite !string_app_cons. by f_equal. Qed.

Lemma all_space_app (a b : string) : all_space (a +:+ b) = all_space a && all_space b.
Proof.
  induction a as [|x a IH]; [done |].
  rewrite string_app_cons. cbn [all_space]. rewrite IH. by rewrite andb_assoc.
Qed.

(** ** Running the monad *)

Ltac unfold_monad :=
  unfold mbind, M_bind, mret, M_ret, raise, modify, try_except, try_finally in *.

Ltac unfold_state :=
  unfold set_files, set_stderr, set_handlers, set_loggers, set_ticks in *;
  cbn [files stderr handlers loggers root_handlers ticks] in *.

(** ** The decorator: acquiring the destination *)

Section decorator.
Context `{Clock}.

Lemma registry_after_setup (name : string) (hd : nat) (lg : gmap string logger_obj) :
  alter (λ l, if bool_decide (hd ∈ lg_handlers l) then l
              else mkLogger (lg_level l) (lg_handlers l ++ [hd])) name
    (alter (λ l, mkLogger (lg_level l) []) name
      (alter (λ l, mkLogger INFO (lg_handlers l)) name
        (match lg !! name with
         | Some _ => lg
         | None => <[name := mkLogger NOTSET []]> lg
         end)))
  = <[name := mkLogger INFO [hd]]> lg.
Proof.
  apply map_eq. intros k.
  destruct (decide (name = k)) as [<-|Hne].
  - rewrite lookup_insert_eq. rewrite !lookup_alter_eq.
    destruct (lg !! name) as [l|] eqn:E.
    + by rewrite E.
    + by rewrite lookup_insert_eq.
  - rewrite lookup_insert_ne by done. rewrite !lookup_alter_ne by done.
    destruct (lg !! name); [done |]. by rewrite lookup_insert_ne.
Qed.


Lemma logged_setup_inv (mode name : string) (s s0 : state) (lg : string) (hd : nat) :
  logged_setup mode name s = (Return (lg, hd), s0) →
  lg = name ∧ hd = length (handlers s)
  ∧ s0 = prepared mode name s
  ∧ (destination_of mode = Console ∨ log_can_open s = true).
Proof.
  unfold logged_setup, prepared, files_opened, destination_of, log_can_open.
  unfold StreamHandler, FileHandler, new_handler, open_append.
  unfold getLogger, setLevel, handlers_clear, addHandler.
  unfold_monad.
  destruct (String.eqb mode "console"); cbn.
  - unfold_state. intros [= <- <- <-]. rewrite registry_after_setup. auto.
  - destruct (files s !! LOG_FILE) as [[data r [|]|]|] eqn:E; cbn; try discriminate.
    + unfold_state. intros [= <- <- <-]. rewrite registry_after_setup. auto.
    + unfold_state. intros [= <- <- <-]. rewrite registry_after_setup. auto.
Qed.

(** ** The decorator: logging and release *)

Lemma write_to_handlers (dest : destination) (line : string) (s : state) :
  handlers (write_to dest line s) = handlers s.
Proof. by destruct dest. Qed.

Lemma write_to_loggers (dest : destination) (line : string) (s : state) :
  loggers (write_to dest line s) = loggers s.
Proof. by destruct dest. Qed.

Lemma write_to_ticks (dest : destination) (line : string) (s : state) :
  ticks (write_to dest line s) = ticks s.
Proof. by destruct dest. Qed.

Lemma write_to_root (dest : destination) (line : string) (s : state) :
  root_handlers (write_to dest line s) = root_handlers s.
Proof. by destruct dest. Qed.

Lemma lookup_append_data_ne (path other line : string) (fs : gmap string entry) :
  path ≠ other → append_data path line fs !! other = fs !! other.
Proof.
  intros Hne. unfold append_data.
  destruct (fs !! path) as [[data r w|]|]; try done.
  by rewrite lookup_insert_ne.
Qed.

Lemma lookup_append_data_eq (path line data : string) (r w : bool) (fs : gmap string entry) :
  fs !! path = Some (Regular data r w) →
  append_data path line fs !! path = Some (Regular (data +:+ line) r w).
Proof. intros E. unfold append_data. rewrite E. by rewrite lookup_insert_eq. Qed.

Lemma write_to_files_ne (dest : destination) (line path : string) (s : state) :
  dest ≠ LogFile path → files (write_to dest line s) !! path = files s !! path.
Proof.
  destruct dest as [|other]; [done |]. intros Hne. cbn.
  apply lookup_append_data_ne. congruence.
Qed.

Lemma write_to_stderr_ne (dest : destination) (line : string) (s : state) :
  dest ≠ Console → stderr (write_to dest line s) = stderr s.
Proof. by destruct dest. Qed.

(** ** The decorator: the handlers of the root logger *)

Lemma grown_refl (e : option entry) : grown e e.
Proof.
  destruct e as [[data r w|]|]; cbn; try done.
  exists "". by rewrite string_app_nil_r.
Qed.

Lemma grown_trans (e1 e2 e3 : option entry) : grown e1 e2 → grown e2 e3 → grown e1 e3.
Proof.
  destruct e1 as [[data r w|]|]; cbn.
  - intros [more ->] [more' ->]. exists (more +:+ more'). by rewrite string_app_assoc.
  - by intros ->.
  - by intros ->.
Qed.

Lemma write_to_grown (dest : destination) (line path : string) (s : state) :
  grown (files s !! path) (files (write_to dest line s) !! path).
Proof.
  destruct dest as [|other]; [apply grown_refl |]. cbn.
  destruct (decide (other = path)) as [->|Hne].
  - unfold append_data. destruct (files s !! path) as [[data r w|]|] eqn:E; cbn.
    + rewrite lookup_insert_eq. by exists line.
    + done.
    + done.
  - rewrite lookup_append_data_ne by done. apply grown_refl.
Qed.

Section root.
Variables (created : nat) (name : string) (level : nat) (msg : string).

Lemma root_emit_keeps (s : state) (h : root_handler) :
  handlers (root_emit created name level msg s h) = handlers s
  ∧ loggers (root_emit created name level msg s h) = loggers s
  ∧ root_handlers (root_emit created name level msg s h) = root_handlers s
  ∧ ticks (root_emit created name level msg s h) = ticks s.
Proof.
  unfold root_emit. destruct (rh_level h <=? level)%nat; [| done].
  by rewrite write_to_handlers, write_to_loggers, write_to_root, write_to_ticks.
Qed.

Lemma foldl_root_emit_keeps (hs : list root_handler) (s : state) :
  handlers (foldl (root_emit created name level msg) s hs) = handlers s
  ∧ loggers (foldl (root_emit created name level msg) s hs) = loggers s
  ∧ root_handlers (foldl (root_emit created name level msg) s hs) = root_handlers s
  ∧ ticks (foldl (root_emit created name level msg) s hs) = ticks s.
Proof.
  revert s. induction hs as [|h hs IH]; intros s; [done |]. cbn [foldl].
  destruct (IH (root_emit created name level msg s h)) as (-> & -> & -> & ->).
  apply root_emit_keeps.
Qed.

Lemma propagate_handlers (s : state) :
  handlers (propagate created name level msg s) = handlers s.
Proof. apply foldl_root_emit_keeps. Qed.

Lemma propagate_loggers (s : state) :
  loggers (propagate created name level msg s) = loggers s.
Proof. apply foldl_root_emit_keeps. Qed.

Lemma propagate_root (s : state) :
  root_handlers (propagate created name level msg s) = root_handlers s.
Proof. apply foldl_root_emit_keeps. Qed.

Lemma propagate_ticks (s : state) :
  ticks (propagate created name level msg s) = ticks s.
Proof. apply foldl_root_emit_keeps. Qed.

Lemma foldl_root_emit_files (hs : list root_handler) (s : state) (path : string) :
  forallb (λ h, negb (bool_decide (rh_dest h = LogFile path))) hs = true →
  files (foldl (root_emit created name level msg) s hs) !! path = files s !! path.
Proof.
  revert s. induction hs as [|h hs IH]; intros s; [done |]. cbn [foldl forallb].
  intros [Hh Hhs]%andb_prop. rewrite IH by done.
  unfold root_emit. destruct (rh_level h <=? level)%nat; [| done].
  apply write_to_files_ne. apply negb_true_iff, bool_decide_eq_false in Hh. done.
Qed.

Lemma foldl_root_emit_stderr (hs : list root_handler) (s : state) :
  forallb (λ h, negb (bool_decide (rh_dest h = Console))) hs = true →
  stderr (foldl (root_emit created name level msg) s hs) = stderr s.
Proof.
  revert s. induction hs as [|h hs IH]; intros s; [done |]. cbn [foldl forallb].
  intros [Hh Hhs]%andb_prop. rewrite IH by done.
  unfold root_emit. destruct (rh_level h <=? level)%nat; [| done].
  apply write_to_stderr_ne. apply negb_true_iff, bool_decide_eq_false in Hh. done.
Qed.

Lemma foldl_root_emit_grown (hs : list root_handler) (s : state) (path : string) :
  grown (files s !! path) (files (foldl (root_emit created name level msg) s hs) !! path).
Proof.
  revert s. induction hs as [|h hs IH]; intros s; [apply grown_refl |]. cbn [foldl].
  eapply grown_trans; [| apply IH].
  unfold root_emit. destruct (rh_level h <=? level)%nat; [| apply grown_refl].
  apply write_to_grown.
Qed.

Lemma foldl_root_emit_stderr_grown (hs : list root_handler) (s : state) :
  ∃ more, stderr (foldl (root_emit created name level msg) s hs) = stderr s +:+ more.
Proof.
  revert s. induction hs as [|h hs IH]; intros s.
  - exists "". by rewrite string_app_nil_r.
  - cbn [foldl]. destruct (IH (root_emit created name level msg s h)) as [more ->].
    unfold root_emit. destruct (rh_level h <=? level)%nat; [| by exists more].
    destruct (rh_dest h); cbn; [| by exists more].
    eexists. by rewrite string_app_assoc.
Qed.

(** A file that no handler of the root logger is on is not written to, nor
    is the console when none is on it. *)
Lemma propagate_files (s : state) (path : string) :
  root_spares s (LogFile path) = true →
  files (propagate created name level msg s) !! path = files s !! path.
Proof. apply foldl_root_emit_files. Qed.

Lemma propagate_stderr (s : state) :
  root_spares s Console = true →
  stderr (propagate created name level msg s) = stderr s.
Proof. apply foldl_root_emit_stderr. Qed.

Lemma propagate_grown (s : state) (path : string) :
  grown (files s !! path) (files (propagate created name level msg s) !! path).
Proof. apply foldl_root_emit_grown. Qed.

Lemma propagate_stderr_grown (s : state) :
  ∃ more, stderr (propagate created name level msg s) = stderr s +:+ more.
Proof. apply foldl_root_emit_stderr_grown. Qed.

Lemma propagate_quiet (s : state) :
  root_handlers s = [] → propagate created name level msg s = s.
Proof. unfold propagate. by intros ->. Qed.

End root.

Lemma root_spares_quiet (s : state) (dest : destination) :
  root_handlers s = [] → root_spares s dest = true.
Proof. unfold root_spares. by intros ->. Qed.

Lemma root_spares_same (s s' : state) (dest : destination) :
  root_handlers s' = root_handlers s → root_spares s' dest = root_spares s dest.
Proof. unfold root_spares. by intros ->. Qed.

Lemma Logger_log_emit (lg : string) (level : nat) (msg : string) (s : state)
    (hd : nat) (dest : destination) (closed : bool) :
  loggers s !! lg = Some (mkLogger INFO [hd]) →
  handlers s !! hd = Some (mkHandler dest closed) →
  (INFO <=? level)%nat = true →
  Logger_log lg level msg s =
    (Return tt,
     set_ticks S
       (propagate (ticks s) lg level msg
          (write_to dest (format_record (asctime (ticks s)) lg (getLevelName level) msg) s))).
Proof.
  intros Hlg Hhd Hlevel. unfold Logger_log. rewrite Hlg.
  unfold effective_level. cbn [lg_level lg_handlers].
  change (INFO =? NOTSET)%nat with false. cbn iota. rewrite Hlevel.
  cbn [foldl]. unfold Handler_emit. rewrite Hhd. done.
Qed.

Lemma released_entry (logger : string) (hd : nat) (s : state) :
  loggers s !! logger = Some (mkLogger INFO [hd]) →
  (Handler_close hd;; removeHandler logger hd) s = (Return tt, released logger hd s).
Proof.
  intros Hlg. unfold Handler_close, removeHandler, released. unfold_monad. unfold_state.
  do 2 f_equal. apply map_eq. intros k.
  destruct (decide (logger = k)) as [<-|Hne].
  - rewrite lookup_alter_eq, lookup_insert_eq, Hlg. cbn.
    by rewrite bool_decide_eq_true_2.
  - by rewrite lookup_alter_ne, lookup_insert_ne.
Qed.

Lemma logged_call_run {A} (exception_type : exc_class) (mode name : string)
    (func : M A) (hd : nat) (s0 s1 : state) (r : result A) :
  loggers s0 !! name = Some (mkLogger INFO [hd]) →
  handlers s0 !! hd = Some (mkHandler (destination_of mode) false) →
  func (entered mode name s0) = (r, s1) →
  handlers s1 = handlers s0 →
  loggers s1 = loggers s0 →
  logged_call exception_type name func name hd s0
  = (r, released name hd (left exception_type mode name r s1)).
Proof.
  intros Hlg Hhd Hrun Hh Hl.
  unfold logged_call, Logger_info, Logger_error.
  set (cleanup := Handler_close hd ≫= _).
  unfold try_finally, try_except.
  unfold mbind at 1 2 3. unfold M_bind at 1 2 3.
  rewrite (Logger_log_emit _ _ _ _ _ _ _ Hlg Hhd) by done.
  change (getLevelName INFO) with "INFO".
  unfold entered, invoked_record in Hrun. rewrite Hrun.
  assert (Hlg1 : loggers s1 !! name = Some (mkLogger INFO [hd])) by (by rewrite Hl).
  assert (Hhd1 : handlers s1 !! hd = Some (mkHandler (destination_of mode) false)) by (by rewrite Hh).
  destruct r as [v|e].
  - unfold mbind, M_bind. rewrite (Logger_log_emit _ _ _ _ _ _ _ Hlg1 Hhd1) by done.
    unfold mret, M_ret.
    unfold cleanup. rewrite released_entry.
    + done.
    + unfold_state. by rewrite propagate_loggers, write_to_loggers.
  - cbn [handle_with]. unfold left, logs_outcome.
    destruct (isinstance e exception_type) eqn:Hinst.
    + unfold mbind, M_bind. rewrite (Logger_log_emit _ _ _ _ _ _ _ Hlg1 Hhd1) by done.
      unfold raise. unfold cleanup. rewrite released_entry.
      * unfold outcome_record. by rewrite Hinst.
      * unfold_state. by rewrite propagate_loggers, write_to_loggers.
    + unfold raise. unfold cleanup. rewrite released_entry by done. done.
Qed.

(** Logging and the release never raise. *)
Lemma Logger_log_returns (lg : string) (level : nat) (msg : string) (s : state) :
  (Logger_log lg level msg s).1 = Return tt.
Proof.
  unfold Logger_log. destruct (loggers s !! lg) as [l|]; [| done].
  by destruct (effective_level l <=? level)%nat.
Qed.

Lemma release_returns (logger : string) (hd : nat) (s : state) :
  ((Handler_close hd;; removeHandler logger hd) s).1 = Return tt.
Proof. done. Qed.

(** The outcome of the function is the outcome of the call, whatever the
    function does to the state. *)
Lemma logged_call_result {A} (exception_type : exc_class) (mode name : string)
    (func : M A) (hd : nat) (s0 s1 : state) (r : result A) :
  loggers s0 !! name = Some (mkLogger INFO [hd]) →
  handlers s0 !! hd = Some (mkHandler (destination_of mode) false) →
  func (entered mode name s0) = (r, s1) →
  (logged_call exception_type name func name hd s0).1 = r.
Proof.
  intros Hlg Hhd Hrun.
  unfold logged_call, Logger_info, Logger_error.
  set (cleanup := Handler_close hd ≫= _).
  unfold try_finally, try_except.
  unfold mbind at 1 2 3. unfold M_bind at 1 2 3.
  rewrite (Logger_log_emit _ _ _ _ _ _ _ Hlg Hhd) by done.
  change (getLevelName INFO) with "INFO".
  unfold entered, invoked_record in Hrun. rewrite Hrun.
  destruct r as [v|e].
  - pose proof (Logger_log_returns name INFO (name +:+ " виконано успішно") s1) as Hlog.
    destruct (Logger_log name INFO (name +:+ " виконано успішно") s1) as [r' s'].
    cbn [fst] in Hlog. subst r'. unfold mret, M_ret.
    pose proof (release_returns name hd s') as Hrel. fold cleanup in Hrel.
    destruct (cleanup s') as [r'' s'']. cbn [fst] in Hrel. by subst r''.
  - cbn [handle_with].
    destruct (isinstance e exception_type).
    + unfold mbind, M_bind.
      pose proof (Logger_log_returns name ERROR
                    (class_name exception_type +:+ ": " +:+ exc_str e) s1) as Hlog.
      destruct (Logger_log name ERROR _ s1) as [r' s'].
      cbn [fst] in Hlog. subst r'. unfold raise.
      pose proof (release_returns name hd s') as Hrel. fold cleanup in Hrel.
      destruct (cleanup s') as [r'' s'']. cbn [fst] in Hrel. by subst r''.
    + unfold raise.
      pose proof (release_returns name hd s1) as Hrel. fold cleanup in Hrel.
      destruct (cleanup s1) as [r'' s'']. cbn [fst] in Hrel. by subst r''.
Qed.

Lemma logged_setup_ok (mode name : string) (s : state) :
  destination_of mode = Console ∨ log_can_open s = true →
  logged_setup mode name s = (Return (name, length (handlers s)), prepared mode name s).
Proof.
  unfold logged_setup, prepared, files_opened, destination_of, log_can_open.
  unfold StreamHandler, FileHandler, new_handler, open_append.
  unfold getLogger, setLevel, handlers_clear, addHandler.
  unfold_monad.
  destruct (String.eqb mode "console"); cbn.
  - intros _. unfold_state. by rewrite registry_after_setup.
  - intros [?|Hopen]; [done |].
    destruct (files s !! LOG_FILE) as [[data r [|]|]|] eqn:E; cbn; try done.
    + unfold_state. by rewrite registry_after_setup.
    + unfold_state. by rewrite registry_after_setup.
Qed.

(** When the log file cannot be opened the decorator is left with the
    error of [open]; the function is not called. *)
Lemma logged_setup_fails (mode name : string) (s : state) :
  destination_of mode = LogFile LOG_FILE →
  log_can_open s = false →
  ∃ e, logged_setup mode name s
       = (Raise e, set_loggers (insert name (mkLogger INFO [])) s)
       ∧ (e = EACCES LOG_FILE ∨ e = EISDIR LOG_FILE).
Proof.
  unfold logged_setup, destination_of, log_can_open.
  unfold StreamHandler, FileHandler, new_handler, open_append.
  unfold getLogger, setLevel, handlers_clear, addHandler.
  unfold_monad.
  destruct (String.eqb mode "console"); [done |]. intros _.
  assert (Hreg : ∀ lg : gmap string logger_obj,
    alter (λ l, mkLogger (lg_level l) []) name
      (alter (λ l, mkLogger INFO (lg_handlers l)) name
        (match lg !! name with
         | Some _ => lg
         | None => <[name := mkLogger NOTSET []]> lg
         end)) = <[name := mkLogger INFO []]> lg).
  { intros lg. apply map_eq. intros k.
    destruct (decide (name = k)) as [<-|Hne].
    - rewrite lookup_insert_eq, !lookup_alter_eq.
      destruct (lg !! name) eqn:E; [by rewrite E | by rewrite lookup_insert_eq].
    - rewrite lookup_insert_ne, !lookup_alter_ne by done.
      destruct (lg !! name); [done | by rewrite lookup_insert_ne]. }
  cbn. unfold_state.
  destruct (files s !! LOG_FILE) as [[data r [|]|]|] eqn:E; cbn; try done.
  - intros _. eexists. rewrite Hreg. eauto.
  - intros _. eexists. rewrite Hreg. eauto.
Qed.

Lemma prepared_logger (mode name : string) (s : state) :
  loggers (prepared mode name s) !! name = Some (mkLogger INFO [length (handlers s)]).
Proof. unfold prepared. cbn. by rewrite lookup_insert_eq. Qed.

Lemma prepared_handler (mode name : string) (s : state) :
  handlers (prepared mode name s) !! length (handlers s)
  = Some (mkHandler (destination_of mode) false).
Proof.
  unfold prepared. cbn. rewrite lookup_app_r by done.
  by rewrite Nat.sub_diag.
Qed.

(** The run of a decorated call whose destination opens, for a function
    that leaves the logging registry alone. *)
Lemma logged_run {A} (exception_type : exc_class) (mode name : string)
    (func : M A) (s s1 : state) (r : result A) :
  destination_of mode = Console ∨ log_can_open s = true →
  func (entered mode name (prepared mode name s)) = (r, s1) →
  handlers s1 = handlers (prepared mode name s) →
  loggers s1 = loggers (prepared mode name s) →
  logged exception_type mode name func s
  = (r, released name (length (handlers s)) (left exception_type mode name r s1)).
Proof.
  intros Hopen Hrun Hh Hl. unfold logged.
  unfold mbind at 1. unfold M_bind at 1.
  rewrite logged_setup_ok by done.
  apply logged_call_run; try done.
  - apply prepared_logger.
  - apply prepared_handler.
Qed.

Lemma logged_result {A} (exception_type : exc_class) (mode name : string)
    (func : M A) (s s1 : state) (r : result A) :
  destination_of mode = Console ∨ log_can_open s = true →
  func (entered mode name (prepared mode name s)) = (r, s1) →
  (logged exception_type mode name func s).1 = r.
Proof.
  intros Hopen Hrun. unfold logged.
  unfold mbind at 1. unfold M_bind at 1.
  rewrite logged_setup_ok by done.
  eapply logged_call_result; [apply prepared_logger | apply prepared_handler | done].
Qed.

End decorator.

(** ** The three functions, case by case *)

Section functions.
Context `{ElementTree}.

Lemma read_func_eq (self : XMLFileHandler) (s : state) :
  read_func self s =
  (match files s !! filepath self with
   | None => Raise (FileCorruptedError (filepath self) (exc_str (ENOENT (filepath self))))
   | Some Directory => Raise (FileCorruptedError (filepath self) (exc_str (EISDIR (filepath self))))
   | Some (Regular data r _) =>
       if r then
         match XMLParser data with
         | inl msg => Raise (FileCorruptedError (filepath self) ("XML помилка: " +:+ msg))
         | inr root => Return root
         end
       else Raise (FileCorruptedError (filepath self) "Немає прав для читання")
   end, s).
Proof.
  unfold read_func, ET_parse, read_bytes. unfold_monad.
  destruct (files s !! filepath self) as [[data [|] w|]|]; try done.
  by destruct (XMLParser data).
Qed.

Lemma write_func_eq (self : XMLFileHandler) (root : Element) (s : state) :
  write_func self root s =
  match files s !! filepath self with
  | Some Directory =>
      (Raise (FileCorruptedError (filepath self) (exc_str (EISDIR (filepath self)))), s)
  | Some (Regular _ _ false) =>
      (Raise (FileCorruptedError (filepath self) "Немає прав для запису"), s)
  | entry =>
      let r := match entry with Some (Regular _ r _) => r | _ => true end in
      (match (serialize (indent root)).2 with
       | Some msg => Raise (FileCorruptedError (filepath self) msg)
       | None => Return tt
       end,
       set_files (insert (filepath self) (Regular (serialize (indent root)).1 r true)) s)
  end.
Proof.
  unfold write_func, ElementTree_write, open_truncate, append_data. unfold_monad.
  destruct (files s !! filepath self) as [[data r [|]|]|]; try done.
  - destruct (serialize (indent root)) as [out [msg|]]; unfold_state;
      rewrite lookup_insert_eq, insert_insert_eq; done.
  - destruct (serialize (indent root)) as [out [msg|]]; unfold_state;
      rewrite lookup_insert_eq, insert_insert_eq; done.
Qed.

Lemma append_func_eq (self : XMLFileHandler) (new_element : Element) (s : state) :
  append_func self new_element s =
  match files s !! filepath self with
  | None => (Raise (FileCorruptedError (filepath self) (exc_str (ENOENT (filepath self)))), s)
  | Some Directory =>
      (Raise (FileCorruptedError (filepath self) (exc_str (EISDIR (filepath self)))), s)
  | Some (Regular data r w) =>
      if r then
        match XMLParser data with
        | inl msg => (Raise (FileCorruptedError (filepath self) ("XML помилка: " +:+ msg)), s)
        | inr root =>
            if w then
              let doc := serialize (indent (append_child root new_element)) in
              (match doc.2 with
               | Some msg => Raise (FileCorruptedError (filepath self) msg)
               | None => Return tt
               end,
               set_files (insert (filepath self) (Regular doc.1 r true)) s)
            else (Raise (FileCorruptedError (filepath self) "Немає прав"), s)
        end
      else (Raise (FileCorruptedError (filepath self) "Немає прав"), s)
  end.
Proof.
  unfold append_func, ET_parse, read_bytes, ElementTree_write, open_truncate, append_data.
  unfold_monad.
  destruct (files s !! filepath self) as [[data [|] w|]|] eqn:E; try done.
  destruct (XMLParser data) as [msg|root]; [done |].
  rewrite E. destruct w; [| done].
  destruct (serialize (indent (append_child root new_element))) as [out [msg|]]; unfold_state;
    rewrite lookup_insert_eq, insert_insert_eq; done.
Qed.

End functions.

Section frames.
Context `{ElementTree}.

Lemma only_files_keeps_logging {A} (func : M A) : only_files func → keeps_logging func.
Proof. intros Hf s. destruct (Hf s) as [fs ->]. done. Qed.

Lemma read_func_state (self : XMLFileHandler) (s : state) : (read_func self s).2 = s.
Proof. by rewrite read_func_eq. Qed.

Lemma read_func_only_files (self : XMLFileHandler) : only_files (read_func self).
Proof. intros s. exists (files s). rewrite read_func_state. by destruct s. Qed.

Lemma write_func_only_files (self : XMLFileHandler) (root : Element) :
  only_files (write_func self root).
Proof.
  intros s. rewrite write_func_eq.
  destruct (files s !! filepath self) as [[data r [|]|]|]; cbn;
    first [ by eexists | exists (files s); by destruct s ].
Qed.

Lemma append_func_only_files (self : XMLFileHandler) (new_element : Element) :
  only_files (append_func self new_element).
Proof.
  intros s. rewrite append_func_eq.
  destruct (files s !! filepath self) as [[data [|] w|]|];
    try (exists (files s); by destruct s).
  destruct (XMLParser data); [exists (files s); by destruct s |].
  destruct w; [by eexists | exists (files s); by destruct s].
Qed.

(** A function that fails only with [FileCorruptedError] for its path. *)
Lemma read_func_corrupted (self : XMLFileHandler) (s : state) :
  returns_or_corrupted (filepath self) (read_func self s).1.
Proof.
  rewrite read_func_eq. cbn.
  destruct (files s !! filepath self) as [[data [|] w|]|]; cbn; eauto.
  destruct (XMLParser data); cbn; eauto.
Qed.

Lemma write_func_corrupted (self : XMLFileHandler) (root : Element) (s : state) :
  returns_or_corrupted (filepath self) (write_func self root s).1.
Proof.
  rewrite write_func_eq.
  destruct (files s !! filepath self) as [[data r [|]|]|]; cbn; eauto;
    destruct (serialize (indent root)).2; cbn; eauto.
Qed.

Lemma append_func_corrupted (self : XMLFileHandler) (new_element : Element) (s : state) :
  returns_or_corrupted (filepath self) (append_func self new_element s).1.
Proof.
  rewrite append_func_eq.
  destruct (files s !! filepath self) as [[data [|] w|]|]; cbn; eauto.
  destruct (XMLParser data); cbn; eauto.
  destruct w; cbn; eauto.
  destruct (serialize _).2; cbn; eauto.
Qed.

Lemma corrupted_is_watched {A} (path : string) (r : result A) :
  returns_or_corrupted path r → logs_outcome cFileCorruptedError r = true.
Proof. destruct r as [v|e]; [done |]. by intros [reason ->]. Qed.

End frames.

(** ** The decorator around a function that leaves logging alone *)

Section decorated.
Context `{ElementTree} `{Clock}.

Lemma entered_handlers (mode name : string) (s : state) :
  handlers (entered mode name s) = handlers s.
Proof. unfold entered. unfold_state. by rewrite propagate_handlers, write_to_handlers. Qed.

Lemma entered_loggers (mode name : string) (s : state) :
  loggers (entered mode name s) = loggers s.
Proof. unfold entered. unfold_state. by rewrite propagate_loggers, write_to_loggers. Qed.

Lemma entered_root (mode name : string) (s : state) :
  root_handlers (entered mode name s) = root_handlers s.
Proof. unfold entered. unfold_state. by rewrite propagate_root, write_to_root. Qed.

Lemma logged_run_keeps {A} (exception_type : exc_class) (mode name : string)
    (func : M A) (s : state) :
  keeps_logging func →
  destination_of mode = Console ∨ log_can_open s = true →
  logged exception_type mode name func s =
  let rs := func (entered mode name (prepared mode name s)) in
  (rs.1, released name (length (handlers s)) (left exception_type mode name rs.1 rs.2)).
Proof.
  intros Hkeep Hopen.
  destruct (func (entered mode name (prepared mode name s))) as [r s1] eqn:Hrun.
  destruct (Hkeep (entered mode name (prepared mode name s))) as [Hh Hl].
  rewrite Hrun in Hh, Hl. cbn [snd] in Hh, Hl.
  rewrite entered_handlers in Hh. rewrite entered_loggers in Hl.
  by apply logged_run.
Qed.

Lemma logged_run_closed {A} (exception_type : exc_class) (mode name : string)
    (func : M A) (s : state) :
  destination_of mode = LogFile LOG_FILE →
  log_can_open s = false →
  ∃ e, logged exception_type mode name func s
       = (Raise e, set_loggers (insert name (mkLogger INFO [])) s)
       ∧ (e = EACCES LOG_FILE ∨ e = EISDIR LOG_FILE).
Proof.
  intros Hmode Hopen.
  destruct (logged_setup_fails mode name s Hmode Hopen) as (e & Hsetup & He).
  exists e. split; [| done].
  unfold logged. unfold mbind, M_bind. by rewrite Hsetup.
Qed.

Lemma destination_cases (mode : string) :
  destination_of mode = Console ∨ destination_of mode = LogFile LOG_FILE.
Proof. unfold destination_of. destruct (String.eqb mode "console"); auto. Qed.

(** Either the decorator gets its destination, or the log file does not
    open. *)
Lemma logged_cases (mode : string) (s : state) :
  (destination_of mode = Console ∨ log_can_open s = true)
  ∨ (destination_of mode = LogFile LOG_FILE ∧ log_can_open s = false).
Proof.
  destruct (destination_cases mode); [by left; left |].
  destruct (log_can_open s); [by left; right | by right].
Qed.

(** What the state after a decorated call holds. *)
Lemma released_files (name : string) (hd : nat) (s : state) :
  files (released name hd s) = files s.
Proof. done. Qed.

Lemma released_stderr (name : string) (hd : nat) (s : state) :
  stderr (released name hd s) = stderr s.
Proof. done. Qed.

Lemma released_root (name : string) (hd : nat) (s : state) :
  root_handlers (released name hd s) = root_handlers s.
Proof. done. Qed.

Lemma released_ticks (name : string) (hd : nat) (s : state) :
  ticks (released name hd s) = ticks s.
Proof. done. Qed.

Lemma prepared_root (mode name : string) (s : state) :
  root_handlers (prepared mode name s) = root_handlers s.
Proof. done. Qed.

Lemma left_handlers {A} (exception_type : exc_class) (mode name : string)
    (r : result A) (s : state) :
  handlers (left exception_type mode name r s) = handlers s.
Proof.
  unfold left. destruct (logs_outcome exception_type r); [| done].
  unfold_state. by rewrite propagate_handlers, write_to_handlers.
Qed.

Lemma left_loggers {A} (exception_type : exc_class) (mode name : string)
    (r : result A) (s : state) :
  loggers (left exception_type mode name r s) = loggers s.
Proof.
  unfold left. destruct (logs_outcome exception_type r); [| done].
  unfold_state. by rewrite propagate_loggers, write_to_loggers.
Qed.

Lemma left_root {A} (exception_type : exc_class) (mode name : string)
    (r : result A) (s : state) :
  root_handlers (left exception_type mode name r s) = root_handlers s.
Proof.
  unfold left. destruct (logs_outcome exception_type r); [| done].
  unfold_state. by rewrite propagate_root, write_to_root.
Qed.

Lemma left_ticks {A} (exception_type : exc_class) (mode name : string)
    (r : result A) (s : state) :
  logs_outcome exception_type r = true →
  ticks (left exception_type mode name r s) = S (ticks s).
Proof.
  intros Hlogs. unfold left. rewrite Hlogs.
  unfold_state. by rewrite propagate_ticks, write_to_ticks.
Qed.

Lemma ticks_entered (mode name : string) (s : state) :
  ticks (entered mode name (prepared mode name s)) = S (ticks s).
Proof. unfold entered. unfold_state. by rewrite propagate_ticks, write_to_ticks. Qed.

(** *** The files a call leaves alone *)

Lemma files_opened_ne (mode other : string) (fs : gmap string entry) :
  destination_of mode ≠ LogFile other → files_opened mode fs !! other = fs !! other.
Proof.
  intros Hne. unfold files_opened.
  destruct (destination_of mode) as [|path]; [done |].
  destruct (fs !! path) eqn:E; [done |]. rewrite lookup_insert_ne; [done | congruence].
Qed.

(** A file that neither the decorator nor a handler of the root logger
    writes to is, when the function starts, what it was. *)
Lemma files_entered_spared (mode name path : string) (s : state) :
  destination_of mode ≠ LogFile path →
  root_spares s (LogFile path) = true →
  files (entered mode name (prepared mode name s)) !! path = files s !! path.
Proof.
  intros Hne Hspares. unfold entered. unfold_state.
  rewrite propagate_files;
    [| rewrite (root_spares_same s); [done | by rewrite write_to_root]].
  rewrite write_to_files_ne by done. cbn. by apply files_opened_ne.
Qed.

Lemma files_left_spared {A} (exception_type : exc_class) (mode name path : string)
    (r : result A) (s : state) :
  destination_of mode ≠ LogFile path →
  root_spares s (LogFile path) = true →
  files (left exception_type mode name r s) !! path = files s !! path.
Proof.
  intros Hne Hspares. unfold left. destruct (logs_outcome exception_type r); [| done].
  unfold_state.
  rewrite propagate_files;
    [| rewrite (root_spares_same s); [done | by rewrite write_to_root]].
  by rewrite write_to_files_ne.
Qed.

(** What is at a path that the decorator does not log to, when the
    function starts: what was there, a regular file with what the handlers
    of the root logger wrote at its end. *)
Lemma files_entered_grown (mode name path : string) (s : state) :
  destination_of mode ≠ LogFile path →
  grown (files s !! path) (files (entered mode name (prepared mode name s)) !! path).
Proof.
  intros Hne. unfold entered. unfold_state.
  eapply grown_trans; [| apply propagate_grown].
  rewrite write_to_files_ne by done. cbn [prepared files].
  rewrite files_opened_ne by done. apply grown_refl.
Qed.

Lemma files_left_grown {A} (exception_type : exc_class) (mode name path : string)
    (r : result A) (s : state) :
  grown (files s !! path) (files (left exception_type mode name r s) !! path).
Proof.
  unfold left. destruct (logs_outcome exception_type r); [| apply grown_refl].
  unfold_state. eapply grown_trans; [apply write_to_grown | apply propagate_grown].
Qed.

(** A decorated function that changes nothing but files, and not the file
    at [path]: the call leaves the file as it was when neither the
    decorator nor the root logger writes to it. *)
Lemma logged_files_spared {A} (exception_type : exc_class) (mode name path : string)
    (func : M A) (s : state) :
  only_files func →
  (∀ s', files (func s').2 !! path = files s' !! path) →
  destination_of mode ≠ LogFile path →
  root_spares s (LogFile path) = true →
  files (logged exception_type mode name func s).2 !! path = files s !! path.
Proof.
  intros Honly Hfunc Hne Hspares.
  destruct (logged_cases mode s) as [Hopen|[Hmode Hshut]].
  - rewrite logged_run_keeps; [| by apply only_files_keeps_logging | done].
    cbn zeta. cbn [snd]. rewrite released_files.
    set (s_in := entered mode name (prepared mode name s)).
    rewrite files_left_spared; [| done |].
    + rewrite Hfunc. by apply files_entered_spared.
    + destruct (Honly s_in) as [fs ->]. unfold s_in.
      rewrite (root_spares_same s); [done |]. unfold_state. by rewrite entered_root.
  - by destruct (logged_run_closed exception_type mode name func s Hmode Hshut)
      as (e & -> & _).
Qed.

Lemma logged_root {A} (exception_type : exc_class) (mode name : string)
    (func : M A) (s : state) :
  only_files func →
  root_handlers (logged exception_type mode name func s).2 = root_handlers s.
Proof.
  intros Honly.
  destruct (logged_cases mode s) as [Hopen|[Hmode Hshut]].
  - rewrite logged_run_keeps; [| by apply only_files_keeps_logging | done].
    cbn zeta. cbn [snd]. rewrite released_root, left_root.
    destruct (Honly (entered mode name (prepared mode name s))) as [fs ->].
    unfold_state. by rewrite entered_root.
  - by destruct (logged_run_closed exception_type mode name func s Hmode Hshut)
      as (e & -> & _).
Qed.

(** [read], run. *)
Lemma read_run (self : XMLFileHandler) (s : state) :
  read self s =
  let s_in := entered "console" "read" (prepared "console" "read" s) in
  ((read_func self s_in).1,
   released "read" (length (handlers s))
     (left cFileCorruptedError "console" "read" (read_func self s_in).1 s_in)).
Proof.
  unfold read.
  rewrite logged_run_keeps;
    [| apply only_files_keeps_logging, read_func_only_files | by left].
  cbn zeta. by rewrite read_func_state.
Qed.

(** [read_func] looks at nothing but the file at its path. *)
Lemma read_func_local (self : XMLFileHandler) (s s' : state) :
  files s' !! filepath self = files s !! filepath self →
  (read_func self s').1 = (read_func self s).1.
Proof. intros E. by rewrite !read_func_eq, E. Qed.

(** When no handler of the root logger writes to the file of the handler,
    [read] returns what its function returns on the files as they are. *)
Lemma read_at_path (self : XMLFileHandler) (s : state) :
  root_spares s (LogFile (filepath self)) = true →
  (read self s).1 = (read_func self s).1.
Proof.
  intros Hspares. rewrite read_run. cbn zeta. cbn [fst].
  apply read_func_local. by apply files_entered_spared.
Qed.

Lemma read_root (self : XMLFileHandler) (s : state) :
  root_handlers (read self s).2 = root_handlers s.
Proof. apply logged_root, read_func_only_files. Qed.

End decorated.

(** ** Matching children *)

Lemma Forall2_matches (l1 l2 : list Element) :
  Forall2 matches l1 l2 ↔ List.map unindented l1 = List.map unindented l2.
Proof.
  split.
  - induction 1 as [|a b l1 l2 Hab _ IH]; [done |]. cbn. by rewrite Hab, IH.
  - revert l2. induction l1 as [|a l1 IH]; intros [|b l2]; cbn; try done.
    intros [= Hab Hl]. constructor; [done | by apply IH].
Qed.

Lemma Forall2_matches_refl (l : list Element) : Forall2 matches l l.
Proof. by apply Forall2_matches. Qed.

Lemma Forall2_matches_trans (l1 l2 l3 : list Element) :
  Forall2 matches l1 l2 → Forall2 matches l2 l3 → Forall2 matches l1 l3.
Proof. rewrite !Forall2_matches. congruence. Qed.

Lemma matches_children (a b : Element) :
  matches a b → Forall2 matches (children a) (children b).
Proof.
  unfold matches. destruct a, b. cbn. intros [= _ _ _ _ Hcs]. by apply Forall2_matches.
Qed.

Lemma matches_tail (a b : Element) :
  matches a b → blank (tail b) = true → blank (tail a) = true.
Proof.
  unfold matches. destruct a as [? ? ? tl ?], b as [? ? ? tl' ?]. cbn.
  intros [= _ _ _ Htl _] Hb. rewrite Hb in Htl.
  destruct (blank tl) eqn:E; [done |]. by subst tl.
Qed.

(** ** The decorator: what the caller sees *)

Section decorator_claims.
Context `{Clock}.

(** The text of a destination after a record was sent to it: the record is
    there, followed by what the handlers of the root logger have written to
    the same destination, if any is on it. *)
Lemma text_at_emitted (dest : destination) (line : string) (created : nat) (name : string)
    (level : nat) (msg : string) (s : state) (before : string) :
  text_at dest s = Some before →
  ∃ more, text_at dest (propagate created name level msg (write_to dest line s))
          = Some (before +:+ line +:+ more)
          ∧ (root_spares s dest = true → more = "").
Proof.
  intros Hbefore.
  destruct (root_spares s dest) eqn:Hspares.
  - exists "". split; [| done]. rewrite string_app_nil_r.
    destruct dest as [|path]; cbn [text_at write_to] in *.
    + rewrite propagate_stderr by done. by injection Hbefore as <-.
    + rewrite propagate_files by done. unfold_state.
      destruct (files s !! path) as [[data r w|]|] eqn:E; try done.
      injection Hbefore as <-. by erewrite lookup_append_data_eq.
  - destruct dest as [|path]; cbn [text_at write_to] in *.
    + injection Hbefore as <-.
      destruct (propagate_stderr_grown created name level msg
                  (set_stderr (λ out, out +:+ line) s)) as [more ->].
      exists more. split; [| done]. unfold_state. by rewrite string_app_assoc.
    + destruct (files s !! path) as [[data r w|]|] eqn:E; try done.
      injection Hbefore as <-.
      pose proof (propagate_grown created name level msg
                    (set_files (append_data path line) s) path) as Hgrown.
      unfold_state. erewrite lookup_append_data_eq in Hgrown by done.
      destruct Hgrown as [more ->]. exists more. split; [| done].
      by rewrite string_app_assoc.
Qed.


(** C7. On every way out of a decorated call (the function returned, raised
    the watched error or raised anything else, or the destination could not
    be opened and the function was not called) the handler made at the
    start of the call is closed and the logger has no handler; no handler
    that was not open before the call is open after it.  The function is
    one that leaves the logging registry alone. *)
Theorem logged_releases_the_destination {A} (exception_type : exc_class) (mode name : string)
    (func : M A) (s : state) :
  keeps_logging func →
  (∀ logger handler s0,
     logged_setup mode name s = (Return (logger, handler), s0) →
     handlers (logged exception_type mode name func s).2 !! handler
     = Some (mkHandler (destination_of mode) true))
  ∧ (∀ i o,
     handlers (logged exception_type mode name func s).2 !! i = Some o →
     h_closed o = false →
     handlers s !! i = Some o)
  ∧ loggers (logged exception_type mode name func s).2 !! name = Some (mkLogger INFO []).
Proof.
  intros Hkeep.
  destruct (logged_cases mode s) as [Hopen|[Hmode Hshut]].
  - rewrite logged_run_keeps by done. cbn zeta. cbn [snd].
    set (rs := func (entered mode name (prepared mode name s))).
    assert (Hhs : handlers (released name (length (handlers s))
                    (left exception_type mode name rs.1 rs.2))
                  = handlers s ++ [mkHandler (destination_of mode) true]).
    { unfold released. unfold_state. rewrite left_handlers.
      destruct (Hkeep (entered mode name (prepared mode name s))) as [Hk _].
      fold rs in Hk. rewrite Hk.
      rewrite entered_handlers. unfold prepared. cbn [handlers].
      rewrite alter_app_r_alt by done. by rewrite Nat.sub_diag. }
    rewrite Hhs. split; [| split].
    + intros logger handler s0 Hsetup.
      apply logged_setup_inv in Hsetup as (_ & -> & _).
      rewrite lookup_app_r by done. by rewrite Nat.sub_diag.
    + intros i o Hi Hclosed.
      destruct (decide (i < length (handlers s))) as [Hlt|Hge].
      * by rewrite lookup_app_l in Hi.
      * rewrite lookup_app_r in Hi by lia.
        destruct (i - length (handlers s)) as [|k]; cbn in Hi; [| done].
        injection Hi as <-. done.
    + unfold released. unfold_state. by rewrite lookup_insert_eq.
  - destruct (logged_run_closed exception_type mode name func s Hmode Hshut) as (e & -> & _).
    cbn [snd]. split; [| split].
    + intros logger handler s0 Hsetup.
      destruct (logged_setup_fails mode name s Hmode Hshut) as (e' & Hfail & _).
      congruence.
    + intros i o Hi _. exact Hi.
    + unfold_state. by rewrite lookup_insert_eq.
Qed.

End decorator_claims.

(** ** The constructor *)

(** C3. Constructing a handler for a path that does not exist raises
    [FileNotFoundError] made from that path, and the path can be read off
    the exception; for a path that exists the constructor returns a handler
    that stores the path.  The state is left as it was. *)
Theorem init_checks_the_path (path : string) (s : state) :
  (files s !! path = None →
     XMLFileHandler_init path s = (Raise (FileNotFoundError path), s)
     ∧ exc_str (FileNotFoundError path) = "Файл не знайдено: " +:+ path
     ∧ ∀ other, FileNotFoundError other = FileNotFoundError path → other = path)
  ∧ (is_Some (files s !! path) →
     ∃ self, XMLFileHandler_init path s = (Return self, s) ∧ filepath self = path).
Proof.
  unfold XMLFileHandler_init, os_path_exists. unfold_monad. split.
  - intros Hnone. rewrite Hnone.
    rewrite bool_decide_eq_false_2 by (by intros [? ?]).
    split; [done |]. split; [done |].
    intros other [= Heq]. by apply (String.app_inj _) in Heq.
  - intros Hsome. rewrite bool_decide_eq_true_2 by done. by eexists.
Qed.

Section claims.
Context `{ElementTree} `{Clock}.

(** ** Reading *)

(** C10, as the code has it.  [read] changes no file that no handler of the
    root logger writes to: when none is on the file at the path of the
    handler, the file is after the call, whether the call returned or
    raised, what it was before; and so for every other path.  (The records
    of [read] go to the console and, as those of every logger, to the
    handlers of the root logger.) *)
Theorem read_keeps_the_files (self : XMLFileHandler) (s : state) (path : string) :
  root_spares s (LogFile path) = true →
  files (read self s).2 !! path = files s !! path.
Proof.
  intros Hspares. unfold read. apply logged_files_spared; try done.
  - apply read_func_only_files.
  - intros s'. by rewrite read_func_state.
Qed.

(** [ET.parse] raises [ParseError] only for a readable file whose text the
    parser rejects. *)
Lemma ET_parse_ParseError (path msg : string) (s s' : state) :
  ET_parse path s = (Raise (mkExn cParseError msg), s') →
  ∃ data w, files s !! path = Some (Regular data true w) ∧ XMLParser data = inl msg.
Proof.
  unfold ET_parse, read_bytes. unfold_monad.
  destruct (files s !! path) as [[data [|] w|]|]; try done.
  destruct (XMLParser data) as [m|root] eqn:E; [| done].
  intros [= -> _]. eauto.
Qed.

(** C5, as the code has it.  When the file at the path of the handler is
    unparseable markup, that is [ET.parse] raises [ParseError] on it, and no
    handler of the root logger writes to that file, [read] raises
    [FileCorruptedError] for the path of the handler with a reason that
    names an XML error and gives the message of the parser.  No tree is
    returned and no other exception leaves. *)
Theorem read_unparseable_is_corrupted (self : XMLFileHandler) (s s' : state) (msg : string) :
  root_spares s (LogFile (filepath self)) = true →
  ET_parse (filepath self) s = (Raise (mkExn cParseError msg), s') →
  (read self s).1 = Raise (FileCorruptedError (filepath self) ("XML помилка: " +:+ msg)).
Proof.
  intros Hspares Hparse. apply ET_parse_ParseError in Hparse as (data & w & Hfile & Hbad).
  rewrite read_at_path by done. rewrite read_func_eq. cbn [fst].
  by rewrite Hfile, Hbad.
Qed.

(** ** Writing and appending *)

Lemma file_mode : destination_of "file" = LogFile LOG_FILE.
Proof. done. Qed.

Lemma write_run (self : XMLFileHandler) (root : Element) (s : state) :
  log_can_open s = true →
  write self root s =
  let rs := write_func self root (entered "file" "write" (prepared "file" "write" s)) in
  (rs.1, released "write" (length (handlers s))
           (left cFileCorruptedError "file" "write" rs.1 rs.2)).
Proof.
  intros Hopen. unfold write.
  rewrite logged_run_keeps;
    [done | apply only_files_keeps_logging, write_func_only_files | by right].
Qed.

Lemma append_run (self : XMLFileHandler) (new_element : Element) (s : state) :
  log_can_open s = true →
  append self new_element s =
  let rs := append_func self new_element (entered "file" "append" (prepared "file" "append" s)) in
  (rs.1, released "append" (length (handlers s))
           (left cFileCorruptedError "file" "append" rs.1 rs.2)).
Proof.
  intros Hopen. unfold append.
  rewrite logged_run_keeps;
    [done | apply only_files_keeps_logging, append_func_only_files | by right].
Qed.

Lemma write_root (self : XMLFileHandler) (root : Element) (s : state) :
  root_handlers (write self root s).2 = root_handlers s.
Proof. apply logged_root, write_func_only_files. Qed.

Lemma append_root (self : XMLFileHandler) (new_element : Element) (s : state) :
  root_handlers (append self new_element s).2 = root_handlers s.
Proof. apply logged_root, append_func_only_files. Qed.

(** ** The errors that leave the operations *)

(** C4, as the code has it.  [read] returns or raises [FileCorruptedError]
    for the path of the handler, whatever the failure underneath; so do
    [write] and [append] when the audit log file can be opened for
    appending.  (The decorator opens the log file before the function is
    called and outside any [try].) *)
Theorem operations_raise_corrupted_only (self : XMLFileHandler) (root new_element : Element)
    (s : state) :
  returns_or_corrupted (filepath self) (read self s).1
  ∧ (log_can_open s = true →
     returns_or_corrupted (filepath self) (write self root s).1
     ∧ returns_or_corrupted (filepath self) (append self new_element s).1).
Proof.
  split; [| intros Hopen; split].
  - rewrite read_run. apply read_func_corrupted.
  - rewrite write_run by done. apply write_func_corrupted.
  - rewrite append_run by done. apply append_func_corrupted.
Qed.

(** ** The files around a call in file mode *)

Lemma files_opened_log (s : state) :
  log_can_open s = true →
  files_opened "file" (files s) !! LOG_FILE
  = Some (Regular (log_text s) (may_read s LOG_FILE) true).
Proof.
  unfold log_can_open, log_text, may_read, files_opened. cbn.
  destruct (files s !! LOG_FILE) as [[data r w|]|] eqn:E; try done.
  - intros ->. by rewrite E.
  - intros _. by rewrite lookup_insert_eq.
Qed.

(** The log file when the function starts: the record of the call is at
    its end, when no handler of the root logger writes to it. *)
Lemma entered_log_entry (name : string) (s : state) :
  log_can_open s = true →
  root_spares s (LogFile LOG_FILE) = true →
  files (entered "file" name (prepared "file" name s)) !! LOG_FILE
  = Some (Regular (log_text s +:+ invoked_record name (ticks s)) (may_read s LOG_FILE) true).
Proof.
  intros Hopen Hspares. unfold entered. unfold_state.
  rewrite propagate_files;
    [| rewrite (root_spares_same s); [done | by rewrite write_to_root]].
  change (destination_of "file") with (LogFile LOG_FILE). cbn [write_to]. unfold_state.
  apply lookup_append_data_eq. cbn [prepared files]. by apply files_opened_log.
Qed.

(** The log file after the record of the outcome. *)
Lemma left_log_entry {A} (exception_type : exc_class) (name : string) (res : result A)
    (s : state) (text : string) (r w : bool) :
  logs_outcome exception_type res = true →
  root_spares s (LogFile LOG_FILE) = true →
  files s !! LOG_FILE = Some (Regular text r w) →
  files (left exception_type "file" name res s) !! LOG_FILE
  = Some (Regular (text +:+ outcome_record exception_type name (ticks s) res) r w).
Proof.
  intros Hlogs Hspares Hfile. unfold left. rewrite Hlogs. unfold_state.
  rewrite propagate_files;
    [| rewrite (root_spares_same s); [done | by rewrite write_to_root]].
  change (destination_of "file") with (LogFile LOG_FILE). cbn [write_to]. unfold_state.
  by apply lookup_append_data_eq.
Qed.

Lemma outcome_is_closing {A} (path name : string) (k : nat) (r : result A) :
  returns_or_corrupted path r →
  outcome_record cFileCorruptedError name k r = closing_record name k r.
Proof. destruct r as [v|e]; [done |]. by intros [reason ->]. Qed.

Lemma only_files_ticks {A} (func : M A) (s : state) :
  only_files func → ticks (func s).2 = ticks s.
Proof. intros Hf. by destruct (Hf s) as [fs ->]. Qed.

Lemma only_files_stderr {A} (func : M A) (s : state) :
  only_files func → stderr (func s).2 = stderr s.
Proof. intros Hf. by destruct (Hf s) as [fs ->]. Qed.

Lemma only_files_root {A} (func : M A) (s : state) :
  only_files func → root_handlers (func s).2 = root_handlers s.
Proof. intros Hf. by destruct (Hf s) as [fs ->]. Qed.

(** The log file after a call in file mode, for a function that changes
    nothing but files, and not the log file, and fails only with the
    watched error. *)
Lemma file_mode_log_entry {A} (name path : string) (func : M A) (s : state) :
  log_can_open s = true →
  root_spares s (LogFile LOG_FILE) = true →
  only_files func →
  (∀ s', files (func s').2 !! LOG_FILE = files s' !! LOG_FILE) →
  (∀ s', returns_or_corrupted path (func s').1) →
  files (logged cFileCorruptedError "file" name func s).2 !! LOG_FILE
  = Some (Regular (log_text s +:+ invoked_record name (ticks s)
                     +:+ closing_record name (S (ticks s))
                           (logged cFileCorruptedError "file" name func s).1)
                  (may_read s LOG_FILE) true).
Proof.
  intros Hopen Hspares Honly Hlog Hres.
  rewrite logged_run_keeps; [| by apply only_files_keeps_logging | by right].
  cbn zeta. cbn [fst snd].
  set (s_in := entered "file" name (prepared "file" name s)).
  rewrite released_files.
  erewrite left_log_entry.
  - rewrite (outcome_is_closing path) by apply Hres.
    rewrite only_files_ticks by done. unfold s_in. rewrite ticks_entered.
    by rewrite string_app_assoc.
  - eapply corrupted_is_watched, Hres.
  - rewrite (root_spares_same s); [done |].
    rewrite only_files_root by done. exact (entered_root _ _ _).
  - rewrite Hlog. by apply entered_log_entry.
Qed.

Lemma file_mode_trail {A} (name path : string) (func : M A) (s : state) :
  log_can_open s = true →
  root_spares s (LogFile LOG_FILE) = true →
  only_files func →
  (∀ s', files (func s').2 !! LOG_FILE = files s' !! LOG_FILE) →
  (∀ s', returns_or_corrupted path (func s').1) →
  log_text (logged cFileCorruptedError "file" name func s).2
  = log_text s +:+ invoked_record name (ticks s)
      +:+ closing_record name (S (ticks s)) (logged cFileCorruptedError "file" name func s).1.
Proof.
  intros Hopen Hspares Honly Hlog Hres. unfold log_text at 1.
  by erewrite (file_mode_log_entry name path).
Qed.

Lemma write_func_other (self : XMLFileHandler) (root : Element) (other : string) (s : state) :
  filepath self ≠ other →
  files (write_func self root s).2 !! other = files s !! other.
Proof.
  intros Hne. rewrite write_func_eq.
  destruct (files s !! filepath self) as [[data r [|]|]|]; cbn; try done;
    by rewrite lookup_insert_ne.
Qed.

Lemma append_func_other (self : XMLFileHandler) (new_element : Element) (other : string)
    (s : state) :
  filepath self ≠ other →
  files (append_func self new_element s).2 !! other = files s !! other.
Proof.
  intros Hne. rewrite append_func_eq.
  destruct (files s !! filepath self) as [[data [|] w|]|]; cbn; try done.
  destruct (XMLParser data); [done |].
  destruct w; [| done]. cbn. by rewrite lookup_insert_ne.
Qed.

(** The console after a call in console mode, for a function that changes
    nothing but files and fails only with the watched error. *)
Lemma console_mode_trail {A} (name path : string) (func : M A) (s : state) :
  only_files func →
  (∀ s', returns_or_corrupted path (func s').1) →
  ∃ more more',
    stderr (logged cFileCorruptedError "console" name func s).2
    = stderr s +:+ invoked_record name (ticks s) +:+ more
        +:+ closing_record name (S (ticks s)) (logged cFileCorruptedError "console" name func s).1
        +:+ more'
    ∧ (root_spares s Console = true → more = "" ∧ more' = "").
Proof.
  intros Honly Hres.
  rewrite logged_run_keeps; [| by apply only_files_keeps_logging | by left].
  cbn zeta. cbn [fst snd].
  set (s0 := prepared "console" name s).
  set (s_in := entered "console" name s0).
  destruct (text_at_emitted Console (invoked_record name (ticks s0)) (ticks s0) name INFO
              ("Виклик " +:+ name) s0 (stderr s) eq_refl) as (more & Hin & Hmore).
  assert (Herr : stderr s_in = stderr s +:+ invoked_record name (ticks s) +:+ more).
  { cbn [text_at] in Hin. by injection Hin. }
  set (rs := func s_in) in *.
  assert (Herr1 : stderr rs.2 = stderr s +:+ invoked_record name (ticks s) +:+ more)
    by (unfold rs; by rewrite only_files_stderr).
  assert (Hlogs : logs_outcome cFileCorruptedError rs.1 = true)
    by (eapply corrupted_is_watched, Hres).
  destruct (text_at_emitted Console
              (outcome_record cFileCorruptedError name (ticks rs.2) rs.1) (ticks rs.2) name
              (outcome_level rs.1) (outcome_message cFileCorruptedError name rs.1)
              rs.2 _ eq_refl) as (more' & Hout & Hmore').
  exists more, more'. split.
  - rewrite released_stderr. unfold left. rewrite Hlogs. unfold_state.
    cbn [text_at] in Hout. injection Hout as Hout.
    change (destination_of "console") with Console. cbn [write_to].
    rewrite Hout, Herr1. rewrite (outcome_is_closing path) by apply Hres.
    unfold rs at 1. rewrite only_files_ticks by done.
    unfold s_in, s0. rewrite ticks_entered.
    by rewrite !string_app_assoc.
  - intros Hspares. split.
    + by apply Hmore.
    + apply Hmore'. rewrite (root_spares_same s); [done |].
      unfold rs. rewrite only_files_root by done. exact (entered_root _ _ _).
Qed.


(** ** Appending to a document that cannot be parsed *)

(** [ET.parse] looks at nothing but the file at its path. *)
Lemma ET_parse_local (path : string) (s s' : state) :
  files s' !! path = files s !! path →
  (ET_parse path s').1 = (ET_parse path s).1.
Proof.
  intros E. unfold ET_parse, read_bytes. unfold_monad. rewrite E.
  destruct (files s !! path) as [[data [|] w|]|]; try done.
  by destruct (XMLParser data).
Qed.

Lemma ET_parse_state (path : string) (s : state) : (ET_parse path s).2 = s.
Proof.
  unfold ET_parse, read_bytes. unfold_monad.
  destruct (files s !! path) as [[data [|] w|]|]; try done.
  by destruct (XMLParser data).
Qed.

(** When the parsing step fails, [append_func] stops there. *)
Lemma append_func_unparsed (self : XMLFileHandler) (new_element : Element) (s : state) (e : exn) :
  (ET_parse (filepath self) s).1 = Raise e →
  (append_func self new_element s).2 = s.
Proof.
  unfold ET_parse, read_bytes. unfold_monad. rewrite append_func_eq.
  destruct (files s !! filepath self) as [[data [|] w|]|]; try done.
  by destruct (XMLParser data).
Qed.

(** The file of the handler when the function of [write] or [append]
    starts, and after the record of the outcome. *)
Lemma files_entered_ne (name : string) (self : XMLFileHandler) (s : state) :
  filepath self ≠ LOG_FILE →
  root_spares s (LogFile (filepath self)) = true →
  files (entered "file" name (prepared "file" name s)) !! filepath self
  = files s !! filepath self.
Proof.
  intros Hne Hspares. apply files_entered_spared; [| done].
  change (destination_of "file") with (LogFile LOG_FILE). congruence.
Qed.

Lemma files_left_ne {A} (name : string) (self : XMLFileHandler) (func : M A) (s : state) :
  only_files func →
  filepath self ≠ LOG_FILE →
  root_spares s (LogFile (filepath self)) = true →
  let s_in := entered "file" name (prepared "file" name s) in
  files (left cFileCorruptedError "file" name (func s_in).1 (func s_in).2) !! filepath self
  = files (func s_in).2 !! filepath self.
Proof.
  intros Honly Hne Hspares s_in. apply files_left_spared.
  - change (destination_of "file") with (LogFile LOG_FILE). congruence.
  - rewrite (root_spares_same s); [done |].
    rewrite only_files_root by done. exact (entered_root _ _ _).
Qed.

(** C9, as the code has it.  For a handler whose path is not the audit log
    file, when the log file can be opened for appending and no handler of
    the root logger writes to the document file: if the document at the
    path cannot be parsed ([ET.parse] raises), [append] raises
    [FileCorruptedError] for the path and the document file is exactly what
    it was before the call. *)
Theorem append_unparsed_keeps_the_document (self : XMLFileHandler) (new_element : Element)
    (s s0 : state) (e : exn) :
  filepath self ≠ LOG_FILE →
  log_can_open s = true →
  root_spares s (LogFile (filepath self)) = true →
  ET_parse (filepath self) s = (Raise e, s0) →
  (∃ reason, (append self new_element s).1 = Raise (FileCorruptedError (filepath self) reason))
  ∧ files (append self new_element s).2 !! filepath self = files s !! filepath self.
Proof.
  intros Hne Hopen Hspares Hparse.
  rewrite append_run by done. cbn zeta. cbn [fst snd].
  set (s_in := entered "file" "append" (prepared "file" "append" s)).
  assert (Hin : files s_in !! filepath self = files s !! filepath self)
    by (by apply files_entered_ne).
  assert (Hfail : (ET_parse (filepath self) s_in).1 = Raise e)
    by (by rewrite (ET_parse_local _ s), Hparse).
  split.
  - pose proof (append_func_corrupted self new_element s_in) as Hc.
    destruct (append_func self new_element s_in).1 as [[]|e'] eqn:Hres;
      [| destruct Hc as [reason ->]; by exists reason].
    exfalso. revert Hres Hfail. rewrite append_func_eq.
    unfold ET_parse, read_bytes. unfold_monad.
    destruct (files s_in !! filepath self) as [[data [|] w|]|]; try done.
    destruct (XMLParser data); done.
  - rewrite released_files.
    rewrite (files_left_ne "append" self (append_func self new_element) s)
      by (done || apply append_func_only_files).
    fold s_in. by rewrite (append_func_unparsed _ _ _ e).
Qed.

(** ** Writing, then reading *)

Lemma ET_parse_Return (path : string) (root : Element) (s s' : state) :
  ET_parse path s = (Return root, s') →
  ∃ data w, files s !! path = Some (Regular data true w) ∧ XMLParser data = inr root.
Proof.
  unfold ET_parse, read_bytes. unfold_monad.
  destruct (files s !! path) as [[data [|] w|]|]; try done.
  destruct (XMLParser data) as [m|root0] eqn:E; [done |].
  intros [= -> _]. eauto.
Qed.

Lemma read_of_file (self : XMLFileHandler) (s : state) (data : string) (w : bool) (root : Element) :
  root_spares s (LogFile (filepath self)) = true →
  files s !! filepath self = Some (Regular data true w) →
  XMLParser data = inr root →
  (read self s).1 = Return root.
Proof.
  intros Hspares Hfile Hdoc. rewrite read_at_path by done.
  rewrite read_func_eq. cbn [fst]. by rewrite Hfile, Hdoc.
Qed.

(** A call that returned had its destination. *)
Lemma returned_log_open {A} (name : string) (func : M A) (s s1 : state) (v : A)
    (Q : Prop) :
  logged cFileCorruptedError "file" name func s = (Return v, s1) →
  (log_can_open s = true → Q) → Q.
Proof.
  intros Hrun HQ. destruct (log_can_open s) eqn:Hopen; [by apply HQ |].
  destruct (logged_run_closed cFileCorruptedError "file" name func s) as (e & He & _);
    [done | done |].
  congruence.
Qed.

(** After a [write] that returned, the file holds the serialized document
    and nothing else. *)
Lemma write_returned (self : XMLFileHandler) (root : Element) (s s1 : state) :
  filepath self ≠ LOG_FILE →
  root_spares s (LogFile (filepath self)) = true →
  write self root s = (Return tt, s1) →
  files s1 !! filepath self
  = Some (Regular (serialize (indent root)).1 (may_read s (filepath self)) true).
Proof.
  intros Hne Hspares Hrun.
  apply (returned_log_open "write" (write_func self root) s s1 tt); [done |].
  intros Hopen. rewrite write_run in Hrun by done. cbn zeta in Hrun.
  pose proof (files_left_ne "write" self (write_func self root) s
                (write_func_only_files self root) Hne Hspares) as Hleft.
  cbn zeta in Hleft.
  set (s_in := entered "file" "write" (prepared "file" "write" s)) in *.
  assert (Hin : files s_in !! filepath self = files s !! filepath self)
    by (by apply files_entered_ne).
  injection Hrun as Hres <-.
  rewrite released_files, Hleft.
  revert Hres. rewrite write_func_eq. unfold may_read. rewrite <- Hin.
  destruct (files s_in !! filepath self) as [[data r [|]|]|]; cbn; try done;
    intros _; unfold_state; by rewrite lookup_insert_eq.
Qed.


(** ** Appending *)

(** After an [append] that returned, the file holds the serialization of
    the parsed root with the new element as its last child. *)
Lemma append_returned (self : XMLFileHandler) (new_element root : Element) (s s0 s1 : state) :
  rejects_trailing_record →
  root_spares s (LogFile (filepath self)) = true →
  ET_parse (filepath self) s = (Return root, s0) →
  append self new_element s = (Return tt, s1) →
  files s1 !! filepath self
  = Some (Regular (serialize (indent (append_child root new_element))).1 true true).
Proof.
  intros Hlaw Hspares Hparse Hrun.
  apply ET_parse_Return in Hparse as (data & w & Hfile & Hdoc).
  apply (returned_log_open "append" (append_func self new_element) s s1 tt); [done |].
  intros Hopen. rewrite append_run in Hrun by done. cbn zeta in Hrun.
  destruct (decide (filepath self = LOG_FILE)) as [Heq|Hne].
  - exfalso. injection Hrun as Hres _. revert Hres. rewrite append_func_eq.
    rewrite Heq in Hspares.
    rewrite Heq, (entered_log_entry "append" s Hopen Hspares).
    assert (Hr : may_read s LOG_FILE = true)
      by (unfold may_read; by rewrite <- Heq, Hfile).
    assert (Ht : log_text s = data) by (unfold log_text; by rewrite <- Heq, Hfile).
    rewrite Hr, Ht.
    destruct (Hlaw data root (asctime (ticks s)) Hdoc) as [msg Hmsg].
    change (format_record _ _ _ _) with (invoked_record "append" (ticks s)) in Hmsg.
    by rewrite Hmsg.
  - pose proof (files_left_ne "append" self (append_func self new_element) s
                  (append_func_only_files self new_element) Hne Hspares) as Hleft.
    cbn zeta in Hleft.
    set (s_in := entered "file" "append" (prepared "file" "append" s)) in *.
    injection Hrun as Hres <-.
    rewrite released_files, Hleft.
    assert (Hin : files s_in !! filepath self = Some (Regular data true w))
      by (by unfold s_in; rewrite files_entered_ne).
    revert Hres. rewrite append_func_eq, Hin, Hdoc.
    destruct w; [| done]. cbn. intros _. unfold_state. by rewrite lookup_insert_eq.
Qed.

Lemma ET_parse_of_file (path data : string) (w : bool) (root : Element) (s : state) :
  files s !! path = Some (Regular data true w) →
  XMLParser data = inr root →
  ET_parse path s = (Return root, s).
Proof.
  intros Hfile Hdoc. unfold ET_parse, read_bytes. unfold_monad.
  by rewrite Hfile, Hdoc.
Qed.

Lemma valid_append_child (root n : Element) :
  valid_document root = true → plain n = true →
  valid_document (append_child root n) = true.
Proof.
  unfold valid_document. destruct root as [tg at_ tx tl cs].
  cbn [plain append_child tag attrib text tail children].
  rewrite forallb_app. cbn [forallb]. rewrite !andb_true_iff. intros Hroot Hn.
  rewrite Hn. tauto.
Qed.

Lemma append_each_reads_back (self : XMLFileHandler) (nodes : list Element) :
  reads_back →
  rejects_trailing_record →
  ∀ (root : Element) (s s0 s' : state),
    root_spares s (LogFile (filepath self)) = true →
    ET_parse (filepath self) s = (Return root, s0) →
    valid_document root = true →
    forallb plain nodes = true →
    append_each self nodes s = (Return tt, s') →
    ∃ r, (read self s').1 = Return r
         ∧ Forall2 matches (children r) (children root ++ nodes).
Proof.
  intros Hback Hlaw.
  induction nodes as [|n rest IH]; intros root s s0 s' Hspares Hparse Hvalid Hnodes Hrun.
  - injection Hrun as <-.
    apply ET_parse_Return in Hparse as (data & w & Hfile & Hdoc).
    exists root. split; [by eapply read_of_file |].
    rewrite app_nil_r. apply Forall2_matches_refl.
  - cbn [append_each] in Hrun. unfold mbind, M_bind in Hrun.
    destruct (append self n s) as [[[]|e] s1] eqn:Happ; [| done].
    cbn [forallb] in Hnodes. apply andb_prop in Hnodes as [Hn Hrest].
    pose proof (append_returned self n root s s0 s1 Hlaw Hspares Hparse Happ) as Hfile.
    destruct (Hback (append_child root n)) as (root' & Hdoc' & Hmatch & Hvalid');
      [by apply valid_append_child |].
    destruct (IH root' s1 s1 s') as (r & Hr & Hm); try done.
    { rewrite (root_spares_same s); [done |].
      change s1 with (Return tt, s1).2. rewrite <- Happ. apply append_root. }
    { by eapply ET_parse_of_file. }
    exists r. split; [done |].
    eapply Forall2_matches_trans; [exact Hm |].
    change (n :: rest) with ([n] ++ rest). rewrite app_assoc.
    apply Forall2_app; [| apply Forall2_matches_refl].
    (* the element was put last *)
    change (children root ++ [n]) with (children (append_child root n)).
    by apply matches_children.
Qed.


End claims.

(** ** Line ends *)

Lemma normalize_newlines_return (rest : string) :
  MiniET.normalize_newlines (String (ascii_of_nat 13) rest)
  = String (ascii_of_nat 10)
      (match rest with
       | String d rest' =>
           if Ascii.eqb d (ascii_of_nat 10) then MiniET.normalize_newlines rest'
           else MiniET.normalize_newlines rest
       | EmptyString => EmptyString
       end).
Proof. reflexivity. Qed.

Lemma normalize_newlines_other (c : ascii) (rest : string) :
  Ascii.eqb c (ascii_of_nat 13) = false →
  MiniET.normalize_newlines (String c rest) = String c (MiniET.normalize_newlines rest).
Proof. intros Hc. cbn [MiniET.normalize_newlines]. by rewrite Hc. Qed.

(** What follows a text is normalized on its own, but for a line feed that
    comes right after a carriage return. *)
Lemma normalize_newlines_app (a b : string) :
  ∃ b', MiniET.normalize_newlines (a +:+ b)
        = MiniET.normalize_newlines a +:+ MiniET.normalize_newlines b'
        ∧ (b' = b ∨ b = String (ascii_of_nat 10) b').
Proof.
  remember (String.length a) as n eqn:Hn. revert a Hn.
  induction n as [n IH] using lt_wf_ind. intros a Hn.
  destruct a as [|c a']; [exists b; by split; [| left] |].
  rewrite string_app_cons.
  destruct (Ascii.eqb c (ascii_of_nat 13)) eqn:Hc.
  - apply Ascii.eqb_eq in Hc. subst c. rewrite !normalize_newlines_return.
    destruct a' as [|d a''].
    + destruct b as [|d b'']; [exists ""; by split; [| left] |].
      change ("" +:+ String d b'') with (String d b''). cbv beta iota.
      destruct (Ascii.eqb d (ascii_of_nat 10)) eqn:Hd.
      * apply Ascii.eqb_eq in Hd. subst d. exists b''. by split; [| right].
      * exists (String d b''). by split; [| left].
    + rewrite !string_app_cons. cbv beta iota.
      destruct (Ascii.eqb d (ascii_of_nat 10)) eqn:Hd.
      * destruct (IH (String.length a'') ltac:(subst n; cbn; lia) a'' eq_refl)
          as (b' & Heq & Hb').
        exists b'. split; [| done]. by rewrite Heq.
      * destruct (IH (String.length (String d a'')) ltac:(subst n; cbn; lia)
                    (String d a'') eq_refl) as (b' & Heq & Hb').
        exists b'. split; [| done]. rewrite string_app_cons in Heq. by rewrite Heq.
  - rewrite !normalize_newlines_other by done.
    destruct (IH (String.length a') ltac:(subst n; cbn; lia) a' eq_refl)
      as (b' & Heq & Hb').
    exists b'. split; [| done]. by rewrite Heq.
Qed.

Lemma all_space_normalize_newlines (s : string) :
  all_space (MiniET.normalize_newlines s) = all_space s.
Proof.
  remember (String.length s) as n eqn:Hn. revert s Hn.
  induction n as [n IH] using lt_wf_ind. intros s Hn.
  destruct s as [|c rest]; [done |].
  destruct (Ascii.eqb c (ascii_of_nat 13)) eqn:Hc.
  - apply Ascii.eqb_eq in Hc. subst c. rewrite normalize_newlines_return.
    cbn [all_space]. change (isspace (ascii_of_nat 10)) with true.
    change (isspace (ascii_of_nat 13)) with true. cbn [andb].
    destruct rest as [|d rest']; [done |].
    destruct (Ascii.eqb d (ascii_of_nat 10)) eqn:Hd.
    + apply Ascii.eqb_eq in Hd. subst d. cbn [all_space].
      change (isspace (ascii_of_nat 10)) with true. cbn [andb].
      apply (IH (String.length rest')); [subst n; cbn; lia | done].
    + apply (IH (String.length (String d rest'))); [subst n; cbn; lia | done].
  - rewrite normalize_newlines_other by done. cbn [all_space]. f_equal.
    apply (IH (String.length rest)); [subst n; cbn; lia | done].
Qed.

(** A text without a carriage return is read as it is. *)
Lemma normalize_newlines_id (s : string) :
  string_forall no_return s = true → MiniET.normalize_newlines s = s.
Proof.
  induction s as [|c s IH]; [done |]. cbn [string_forall].
  intros [Hc Hs]%andb_prop. apply negb_true_iff in Hc.
  rewrite normalize_newlines_other by done. by rewrite IH.
Qed.

(** ** The small ElementTree rejects text after the root element *)

Lemma feed_app (st : MiniET.pstate) (a b : string) :
  MiniET.feed st (a +:+ b) = MiniET.feed (MiniET.feed st a) b.
Proof.
  revert st. induction a as [|c a IH]; intros st; [done |].
  rewrite string_app_cons. cbn [MiniET.feed]. apply IH.
Qed.

Lemma feed_failed (st : MiniET.pstate) (msg data : string) :
  MiniET.p_mode st = MiniET.Failed msg → MiniET.feed st data = st.
Proof.
  intros Hst. induction data as [|c data IH]; [done |].
  cbn [MiniET.feed]. unfold MiniET.step. rewrite Hst. exact IH.
Qed.

Lemma feed_after_root (st : MiniET.pstate) (buf : list ascii) (root : Element) (data : string) :
  MiniET.p_mode st = MiniET.Text buf →
  MiniET.p_stack st = [] →
  MiniET.p_root st = Some root →
  all_space data = false →
  ∃ msg, MiniET.p_mode (MiniET.feed st data) = MiniET.Failed msg.
Proof.
  intros Hmode Hstack Hroot. induction data as [|c data IH]; [done |].
  cbn [all_space MiniET.feed]. intros Hspace.
  unfold MiniET.step. rewrite Hmode, Hstack, Hroot.
  destruct (isspace c); [by apply IH |].
  eexists. by erewrite feed_failed.
Qed.

Lemma close_inr (st : MiniET.pstate) (root : Element) :
  MiniET.close st = inr root →
  ∃ buf, MiniET.p_mode st = MiniET.Text buf
         ∧ MiniET.p_stack st = [] ∧ MiniET.p_root st = Some root.
Proof.
  unfold MiniET.close.
  destruct (MiniET.p_mode st); try done.
  destruct (MiniET.p_stack st); [| done].
  destruct (MiniET.p_root st); [| done].
  intros [= ->]. eauto.
Qed.

Lemma record_not_blank (stamp name levelname message : string) :
  all_space (format_record stamp name levelname message) = false.
Proof.
  unfold format_record. rewrite all_space_app.
  apply andb_false_intro2. done.
Qed.

Lemma MiniET_rejects_trailing_record : @rejects_trailing_record MiniET.lib.
Proof.
  intros data root stamp Hdoc. cbn [XMLParser MiniET.lib] in *.
  unfold MiniET.XMLParser in *.
  apply close_inr in Hdoc as (buf & Hmode & Hstack & Hroot).
  destruct (normalize_newlines_app data
              (format_record stamp "append" "INFO" "Виклик append"))
    as (rest & -> & Hrest).
  rewrite feed_app.
  destruct (feed_after_root _ buf root (MiniET.normalize_newlines rest) Hmode Hstack Hroot)
    as [msg Hmsg].
  - rewrite all_space_normalize_newlines.
    pose proof (record_not_blank stamp "append" "INFO" "Виклик append") as Hrec.
    destruct Hrest as [-> | Heq]; [done |].
    rewrite Heq in Hrec. cbn [all_space] in Hrec.
    by change (isspace (ascii_of_nat 10)) with true in Hrec.
  - exists msg. unfold MiniET.close. by rewrite Hmsg.
Qed.

(** ** The small ElementTree reads back what it writes *)

(** *** Texts and buffers *)

Lemma collected_cons (c : ascii) (buf : list ascii) :
  MiniET.collected (c :: buf) = MiniET.collected buf +:+ String c "".
Proof.
  unfold MiniET.collected. cbn [rev].
  induction (rev buf) as [|d l IH]; [done |]. cbn. by rewrite IH.
Qed.

Lemma collected_push (t : string) (buf : list ascii) :
  MiniET.collected (push t buf) = MiniET.collected buf +:+ t.
Proof.
  revert buf. induction t as [|c t IH]; intros buf; cbn [push].
  - by rewrite string_app_nil_r.
  - rewrite IH, collected_cons. by rewrite string_app_assoc.
Qed.

Lemma collected_text (t : string) : MiniET.collected (push t []) = t.
Proof. by rewrite collected_push. Qed.

Lemma push_nil (t : string) : push t [] = [] → t = "".
Proof.
  intros Hnil. pose proof (collected_text t) as Ht. by rewrite Hnil in Ht.
Qed.

(** *** Escaping, a character at a time *)

Lemma replace_char_app (c : ascii) (by_ a b : string) :
  MiniET.replace_char c by_ (a +:+ b)
  = MiniET.replace_char c by_ a +:+ MiniET.replace_char c by_ b.
Proof.
  induction a as [|d a IH]; [done |].
  rewrite string_app_cons. cbn [MiniET.replace_char]. rewrite IH.
  destruct (Ascii.eqb c d); [by rewrite string_app_assoc | done].
Qed.

Lemma escape_cdata_app (a b : string) :
  MiniET.escape_cdata (a +:+ b) = MiniET.escape_cdata a +:+ MiniET.escape_cdata b.
Proof. unfold MiniET.escape_cdata. by rewrite !replace_char_app. Qed.

Lemma escape_attrib_app (a b : string) :
  MiniET.escape_attrib (a +:+ b) = MiniET.escape_attrib a +:+ MiniET.escape_attrib b.
Proof. unfold MiniET.escape_attrib. by rewrite escape_cdata_app, !replace_char_app. Qed.

Lemma escape_cdata_cons (c : ascii) (t : string) :
  MiniET.escape_cdata (String c t) = escaped_cdata c +:+ MiniET.escape_cdata t.
Proof. unfold escaped_cdata. by rewrite <- escape_cdata_app. Qed.

Lemma escape_attrib_cons (c : ascii) (t : string) :
  MiniET.escape_attrib (String c t) = escaped_attrib c +:+ MiniET.escape_attrib t.
Proof. unfold escaped_attrib. by rewrite <- escape_attrib_app. Qed.

(** The characters that are escaped, and the others. *)
Lemma escaped_cdata_cases (c : ascii) :
  (c = "&"%char ∧ escaped_cdata c = "&amp;")
  ∨ (c = "<"%char ∧ escaped_cdata c = "&lt;")
  ∨ (c = ">"%char ∧ escaped_cdata c = "&gt;")
  ∨ (Ascii.eqb c "&" = false ∧ Ascii.eqb c "<" = false
     ∧ escaped_cdata c = String c "").
Proof.
  unfold escaped_cdata, MiniET.escape_cdata. cbn [MiniET.replace_char].
  destruct (Ascii.eqb_spec "&" c) as [<-|Hamp]; [by left |].
  cbn [MiniET.replace_char append].
  destruct (Ascii.eqb_spec "<" c) as [<-|Hlt]; [by right; left |].
  cbn [MiniET.replace_char append].
  destruct (Ascii.eqb_spec ">" c) as [<-|Hgt]; [by right; right; left |].
  right; right; right.
  split; [by apply Ascii.eqb_neq |]. split; [by apply Ascii.eqb_neq | done].
Qed.

Lemma escaped_attrib_cases (c : ascii) :
  (c = "&"%char ∧ escaped_attrib c = "&amp;")
  ∨ (c = "<"%char ∧ escaped_attrib c = "&lt;")
  ∨ (c = ">"%char ∧ escaped_attrib c = "&gt;")
  ∨ (c = ascii_of_nat 34 ∧ escaped_attrib c = "&quot;")
  ∨ (c = ascii_of_nat 13 ∧ escaped_attrib c = "&#13;")
  ∨ (c = ascii_of_nat 10 ∧ escaped_attrib c = "&#10;")
  ∨ (c = ascii_of_nat 9 ∧ escaped_attrib c = "&#09;")
  ∨ (Ascii.eqb c "&" = false ∧ Ascii.eqb c "<" = false
     ∧ Ascii.eqb c (ascii_of_nat 34) = false
     ∧ escaped_attrib c = String c "").
Proof.
  unfold escaped_attrib, MiniET.escape_attrib.
  destruct (escaped_cdata_cases c) as [[-> _]|[[-> _]|[[-> _]|(Hamp & Hlt & Hesc)]]];
    [by left | by right; left | by right; right; left |].
  do 3 right. fold (escaped_cdata c). rewrite Hesc. cbn [MiniET.replace_char].
  destruct (Ascii.eqb_spec (ascii_of_nat 34) c) as [<-|Hq]; [by left |].
  cbn [MiniET.replace_char append].
  destruct (Ascii.eqb_spec (ascii_of_nat 13) c) as [<-|Hcr]; [by right; left |].
  cbn [MiniET.replace_char append].
  destruct (Ascii.eqb_spec (ascii_of_nat 10) c) as [<-|Hnl]; [by right; right; left |].
  cbn [MiniET.replace_char append].
  destruct (Ascii.eqb_spec (ascii_of_nat 9) c) as [<-|Htab]; [by right; right; right; left |].
  do 4 right.
  split; [done |]. split; [done |]. split; [by apply Ascii.eqb_neq | done].
Qed.

(** *** The parser on a text and on the value of an attribute *)

Section parser.
Variables (stack : list MiniET.frame) (root : option Element).

Lemma feed_escaped_cdata (c : ascii) (buf : list ascii) (f : MiniET.frame) :
  MiniET.feed (MiniET.mkP (MiniET.Text buf) (f :: stack) root) (escaped_cdata c)
  = MiniET.mkP (MiniET.Text (c :: buf)) (f :: stack) root.
Proof.
  destruct (escaped_cdata_cases c) as [[-> ->]|[[-> ->]|[[-> ->]|(Hamp & Hlt & ->)]]];
    try reflexivity.
  cbn [MiniET.feed]. unfold MiniET.step. cbn [MiniET.p_mode MiniET.p_stack].
  by rewrite Hlt, Hamp.
Qed.

Lemma feed_text (t : string) (buf : list ascii) (f : MiniET.frame) :
  MiniET.feed (MiniET.mkP (MiniET.Text buf) (f :: stack) root) (MiniET.escape_cdata t)
  = MiniET.mkP (MiniET.Text (push t buf)) (f :: stack) root.
Proof.
  revert buf. induction t as [|c t IH]; intros buf; [done |].
  rewrite escape_cdata_cons, feed_app, feed_escaped_cdata. apply IH.
Qed.

Lemma feed_escaped_attrib (c : ascii) (name : string) (attrs : list (string * string))
    (aname : string) (val : list ascii) :
  MiniET.feed (MiniET.mkP (MiniET.AVal name attrs aname val) stack root) (escaped_attrib c)
  = MiniET.mkP (MiniET.AVal name attrs aname (c :: val)) stack root.
Proof.
  destruct (escaped_attrib_cases c)
    as [[-> ->]|[[-> ->]|[[-> ->]|[[-> ->]|[[-> ->]|[[-> ->]|[[-> ->]|(Hamp & Hlt & Hq & ->)]]]]]]];
    try reflexivity.
  cbn [MiniET.feed]. unfold MiniET.step. cbn [MiniET.p_mode].
  by rewrite Hq, Hamp, Hlt.
Qed.

Lemma feed_value (t : string) (name : string) (attrs : list (string * string))
    (aname : string) (val : list ascii) :
  MiniET.feed (MiniET.mkP (MiniET.AVal name attrs aname val) stack root)
    (MiniET.escape_attrib t)
  = MiniET.mkP (MiniET.AVal name attrs aname (push t val)) stack root.
Proof.
  revert val. induction t as [|c t IH]; intros val; [done |].
  rewrite escape_attrib_cons, feed_app, feed_escaped_attrib. apply IH.
Qed.

End parser.

(** *** Names *)

(** A case for each of the 256 characters. *)
Ltac by_character c :=
  destruct c as [[|] [|] [|] [|] [|] [|] [|] [|]]; vm_compute;
  intros; repeat split; congruence.

Lemma name_start_parsed (c : ascii) :
  (is_letter c || Ascii.eqb c "_") = true →
  MiniET.is_name_start c = true ∧ MiniET.is_name_char c = true
  ∧ isspace c = false ∧ Ascii.eqb c ">" = false ∧ Ascii.eqb c "/" = false
  ∧ Ascii.eqb c "?" = false.
Proof. by_character c. Qed.

Lemma name_char_parsed (c : ascii) :
  (is_letter c || is_digit c || Ascii.eqb c "_" || Ascii.eqb c "-" || Ascii.eqb c ".") = true →
  MiniET.is_name_char c = true.
Proof. by_character c. Qed.

Section names.
Variables (stack : list MiniET.frame) (root : option Element).

Lemma feed_STag (s : string) (acc : list ascii) :
  string_forall name_rest s = true →
  MiniET.feed (MiniET.mkP (MiniET.STag acc) stack root) s
  = MiniET.mkP (MiniET.STag (push s acc)) stack root.
Proof.
  revert acc. induction s as [|c s IH]; intros acc; [done |].
  cbn [string_forall]. intros [Hc Hs]%andb_prop.
  cbn [MiniET.feed push]. unfold MiniET.step at 1. cbn [MiniET.p_mode].
  rewrite (name_char_parsed c Hc). by apply IH.
Qed.

Lemma feed_ETag (s : string) (acc : list ascii) :
  string_forall name_rest s = true →
  MiniET.feed (MiniET.mkP (MiniET.ETag acc) stack root) s
  = MiniET.mkP (MiniET.ETag (push s acc)) stack root.
Proof.
  revert acc. induction s as [|c s IH]; intros acc; [done |].
  cbn [string_forall]. intros [Hc Hs]%andb_prop.
  cbn [MiniET.feed push]. unfold MiniET.step at 1. cbn [MiniET.p_mode].
  rewrite (name_char_parsed c Hc). by apply IH.
Qed.

Lemma feed_AName (s : string) (name : string) (attrs : list (string * string))
    (acc : list ascii) :
  string_forall name_rest s = true →
  MiniET.feed (MiniET.mkP (MiniET.AName name attrs acc) stack root) s
  = MiniET.mkP (MiniET.AName name attrs (push s acc)) stack root.
Proof.
  revert acc. induction s as [|c s IH]; intros acc; [done |].
  cbn [string_forall]. intros [Hc Hs]%andb_prop.
  cbn [MiniET.feed push]. unfold MiniET.step at 1. cbn [MiniET.p_mode].
  rewrite (name_char_parsed c Hc). by apply IH.
Qed.

(** A name is its first character and the rest. *)
Lemma xml_name_inv (s : string) :
  xml_name s = true →
  ∃ c s', s = String c s' ∧ (is_letter c || Ascii.eqb c "_") = true
          ∧ string_forall name_rest s' = true.
Proof.
  destruct s as [|c s']; [done |]. cbn [xml_name].
  intros [Hc Hs]%andb_prop. by exists c, s'.
Qed.

Lemma name_start_rest (c : ascii) :
  (is_letter c || Ascii.eqb c "_") = true → name_rest c = true.
Proof. unfold name_rest. by_character c. Qed.

(** *** Attributes *)

Lemma feed_attribute (k v name : string) (acc : list (string * string)) :
  xml_name k = true →
  MiniET.has_key k acc = false →
  MiniET.feed (MiniET.mkP (MiniET.InTag name acc) stack root) (MiniET.serialize_attrib (k, v))
  = MiniET.mkP (MiniET.InTag name ((k, v) :: acc)) stack root.
Proof.
  intros (c & k' & -> & Hc & Hk')%xml_name_inv Hkey.
  destruct (name_start_parsed c Hc) as (Hstart & Hchar & Hspace & Hgt & Hslash & _).
  unfold MiniET.serialize_attrib. cbn [fst snd].
  change (" " +:+ String c k' +:+ "=" +:+ dquote +:+ MiniET.escape_attrib v +:+ dquote)
    with (String " " (String c (k' +:+ "=" +:+ dquote +:+ MiniET.escape_attrib v +:+ dquote))).
  cbn [MiniET.feed].
  change (MiniET.step (MiniET.mkP (MiniET.InTag name acc) stack root) " ")
    with (MiniET.mkP (MiniET.InTag name acc) stack root).
  unfold MiniET.step at 1. cbn [MiniET.p_mode].
  rewrite Hspace, Hgt, Hslash, Hstart. unfold MiniET.goto. cbn [MiniET.p_stack MiniET.p_root].
  rewrite feed_app, feed_AName by done.
  change ("=" +:+ dquote +:+ MiniET.escape_attrib v +:+ dquote)
    with (String "=" (String (ascii_of_nat 34) (MiniET.escape_attrib v +:+ dquote))).
  cbn [MiniET.feed]. unfold MiniET.step at 2. cbn [MiniET.p_mode].
  change (MiniET.is_name_char "=") with false. cbn iota.
  change (Ascii.eqb "=" "=") with true. cbn iota.
  rewrite collected_push. change (MiniET.collected [c] +:+ k') with (String c k').
  rewrite Hkey. unfold MiniET.goto. cbn [MiniET.p_stack MiniET.p_root].
  unfold MiniET.step at 1. cbn [MiniET.p_mode].
  change (Ascii.eqb (ascii_of_nat 34) (ascii_of_nat 34)) with true. cbn iota.
  unfold MiniET.goto. cbn [MiniET.p_stack MiniET.p_root].
  rewrite feed_app, feed_value.
  cbn [MiniET.feed dquote]. unfold MiniET.step. cbn [MiniET.p_mode].
  change (Ascii.eqb (ascii_of_nat 34) (ascii_of_nat 34)) with true. cbn iota.
  unfold MiniET.goto. cbn [MiniET.p_stack MiniET.p_root].
  by rewrite collected_text.
Qed.

Lemma feed_attributes (attrib : list (string * string)) (name : string)
    (acc : list (string * string)) :
  forallb (λ kv, xml_name kv.1) attrib = true →
  distinct (List.map fst attrib) = true →
  forallb (λ kv, negb (MiniET.has_key kv.1 acc)) attrib = true →
  MiniET.feed (MiniET.mkP (MiniET.InTag name acc) stack root) (attrib_string attrib)
  = MiniET.mkP (MiniET.InTag name (rev attrib ++ acc)) stack root.
Proof.
  revert acc. induction attrib as [|[k v] attrib IH]; intros acc; [done |].
  cbn [forallb List.map distinct fst]. unfold attrib_string. cbn [List.map MiniET.concat_strings].
  intros [Hk Hnames]%andb_prop [Hfresh Hdistinct]%andb_prop [Hacc Hrest]%andb_prop.
  apply negb_true_iff in Hfresh, Hacc.
  rewrite feed_app, feed_attribute by done.
  fold (attrib_string attrib). rewrite IH; try done.
  - cbn [rev]. by rewrite <- app_assoc.
  - apply forallb_forall. intros [k' v'] Hin. cbn [fst].
    unfold MiniET.has_key. cbn [existsb fst]. apply negb_true_iff, orb_false_intro.
    + destruct (String.eqb k k') eqn:E; [| done].
      exfalso. assert (existsb (String.eqb k) (List.map fst attrib) = true); [| congruence].
      apply existsb_exists. exists k'. split; [| done].
      apply in_map_iff. by exists (k', v').
    + rewrite forallb_forall in Hrest. apply negb_true_iff. by apply (Hrest (k', v')).
Qed.

Lemma attributes_plain (attrib : list (string * string)) :
  plain_attrib attrib = true →
  forallb (λ kv, xml_name kv.1) attrib = true ∧ distinct (List.map fst attrib) = true.
Proof.
  unfold plain_attrib. intros [Hall Hdistinct]%andb_prop. split; [| done].
  apply forallb_forall. intros kv Hin. rewrite forallb_forall in Hall.
  apply Hall in Hin. by apply andb_prop in Hin as [[? ?]%andb_prop ?].
Qed.

(** *** Tags *)

(** After the name of a start tag: the attributes, then the end of the
    tag. *)
Lemma feed_after_name (attrib : list (string * string)) (tg : string) (acc : list ascii)
    (rest : string) :
  plain_attrib attrib = true →
  MiniET.collected acc = tg →
  MiniET.feed (MiniET.mkP (MiniET.STag acc) stack root) (attrib_string attrib +:+ " " +:+ rest)
  = MiniET.feed (MiniET.mkP (MiniET.InTag tg (rev attrib)) stack root) rest
  ∧ MiniET.feed (MiniET.mkP (MiniET.STag acc) stack root) (attrib_string attrib +:+ ">")
    = MiniET.mkP (MiniET.Text []) (MiniET.mkFrame tg attrib None [] :: stack) root.
Proof.
  intros [Hnames Hdistinct]%attributes_plain Htag.
  destruct attrib as [|[k v] attrib].
  - split.
    + change (attrib_string [] +:+ " " +:+ rest) with (String " " rest).
      cbn [MiniET.feed rev]. unfold MiniET.step at 1. cbn [MiniET.p_mode].
      by rewrite Htag.
    + change (attrib_string [] +:+ ">") with (String ">" "").
      cbn [MiniET.feed]. unfold MiniET.step. cbn [MiniET.p_mode]. by rewrite Htag.
  - assert (Hfirst : ∀ rest',
      MiniET.feed (MiniET.mkP (MiniET.STag acc) stack root)
        (attrib_string ((k, v) :: attrib) +:+ rest')
      = MiniET.feed (MiniET.mkP (MiniET.InTag tg (rev ((k, v) :: attrib))) stack root) rest').
    { intros rest'. rewrite feed_app.
      assert (Hin : MiniET.feed (MiniET.mkP (MiniET.STag acc) stack root)
                      (attrib_string ((k, v) :: attrib))
                    = MiniET.feed (MiniET.mkP (MiniET.InTag tg []) stack root)
                        (attrib_string ((k, v) :: attrib))).
      { unfold attrib_string. cbn [List.map MiniET.concat_strings].
        unfold MiniET.serialize_attrib at 1 3. cbn [fst snd].
        rewrite !string_app_cons. cbn [MiniET.feed].
        f_equal. unfold MiniET.step. cbn [MiniET.p_mode]. by rewrite Htag. }
      rewrite Hin, feed_attributes; try done.
      - by rewrite app_nil_r.
      - by apply forallb_forall. }
    split.
    + rewrite Hfirst. rewrite string_app_cons. cbn [MiniET.feed]. done.
    + rewrite Hfirst. cbn [MiniET.feed]. unfold MiniET.step. cbn [MiniET.p_mode].
      unfold MiniET.open_element. cbn [MiniET.p_stack MiniET.p_root].
      by rewrite rev_involutive.
Qed.

End names.

(** *** Elements *)

Lemma serialize_xml_eq (tg : string) (at_ : list (string * string)) (tx tl : option string)
    (cs : list Element) :
  MiniET.serialize_xml (mkElement tg at_ tx tl cs)
  = "<" +:+ tg +:+ attrib_string at_ +:+
    (if truthy (default "" tx) || negb (bool_decide (cs = []))
     then ">" +:+ MiniET.escape_cdata (default "" tx)
          +:+ MiniET.concat_strings (List.map MiniET.serialize_xml cs)
          +:+ "</" +:+ tg +:+ ">"
     else " />") +:+
    MiniET.escape_cdata (default "" tl).
Proof. reflexivity. Qed.

Lemma serialize_xml_tail (e : Element) :
  MiniET.serialize_xml e
  = element_string e +:+ MiniET.escape_cdata (default "" (tail e)).
Proof.
  destruct e as [tg at_ tx tl cs]. unfold element_string, MiniET.set_tail.
  cbn [tag attrib text tail children]. rewrite !serialize_xml_eq.
  cbn [default]. change (MiniET.escape_cdata "") with "".
  rewrite string_app_nil_r. by rewrite !string_app_assoc.
Qed.

Lemma flush_cons (buf : list ascii) (f : MiniET.frame) (stack : list MiniET.frame) :
  MiniET.flush buf (f :: stack) = flush1 buf f :: stack.
Proof. unfold MiniET.flush, flush1. destruct buf; [done |]. by destruct (MiniET.f_kids f). Qed.

Lemma push_cons (t : string) (c : ascii) (buf : list ascii) :
  ∃ d l, push t (c :: buf) = d :: l.
Proof. revert c buf. induction t as [|a t IH]; intros c buf; cbn [push]; eauto. Qed.

Lemma flush1_text (t : string) (f : MiniET.frame) :
  flush1 (push t []) f
  = match t with
    | EmptyString => f
    | _ =>
        match MiniET.f_kids f with
        | [] => MiniET.mkFrame (MiniET.f_tag f) (MiniET.f_attrib f) (Some t) []
        | k :: ks =>
            MiniET.mkFrame (MiniET.f_tag f) (MiniET.f_attrib f) (MiniET.f_text f)
              (MiniET.set_tail k (Some t) :: ks)
        end
    end.
Proof.
  destruct t as [|c t]; [done |].
  pose proof (collected_text (String c t)) as Ht. cbn [push] in *.
  destruct (push_cons t c []) as (d & l & Hpush). rewrite Hpush in *.
  unfold flush1. by rewrite Ht.
Qed.

Lemma close_element_frame (tg : string) (m : MiniET.mode) (f : MiniET.frame)
    (stack : list MiniET.frame) (root : option Element) :
  MiniET.f_tag f = tg →
  MiniET.close_element tg (MiniET.mkP m (f :: stack) root)
  = attach (frame_element f) stack root.
Proof.
  intros <-. unfold MiniET.close_element. cbn [MiniET.p_stack MiniET.p_root].
  rewrite String.eqb_refl. cbn [negb]. by destruct stack.
Qed.

Lemma frame_element_add_kid (e : Element) (f : MiniET.frame) :
  frame_element (add_kid e f) = with_children (frame_element f) [e].
Proof. done. Qed.

Lemma with_children_cons (e x : Element) (l : list Element) :
  with_children (with_children e [x]) l = with_children e (x :: l).
Proof.
  unfold with_children. cbn [tag attrib text tail children].
  by rewrite <- app_assoc.
Qed.

Lemma with_children_nil (e : Element) : with_children e [] = e.
Proof. destruct e. unfold with_children. cbn. by rewrite app_nil_r. Qed.

(** The tail of a child, once flushed. *)
Lemma flush1_tail (c : Element) (g : MiniET.frame) :
  flush1 (push (default "" (tail c)) []) (add_kid (MiniET.set_tail (as_read c) None) g)
  = add_kid (as_read c) g.
Proof.
  rewrite flush1_text. destruct c as [tg at_ tx [[|a t]|] cs]; done.
Qed.

Lemma absorb_children (cs : list Element) (f : MiniET.frame) (pending : list ascii) :
  frame_element (flush1 (absorb cs f pending).2 (absorb cs f pending).1)
  = with_children (frame_element (flush1 pending f)) (List.map as_read cs).
Proof.
  revert f pending. induction cs as [|c cs IH]; intros f pending.
  - cbn [absorb List.map fst snd]. by rewrite with_children_nil.
  - cbn [absorb List.map]. rewrite IH, flush1_tail, frame_element_add_kid.
    apply with_children_cons.
Qed.

Lemma feed_children (cs : list Element) :
  Forall (λ c, plain c = true → parses c) cs →
  forallb plain cs = true →
  ∀ f pending stack root,
    MiniET.feed (MiniET.mkP (MiniET.Text pending) (f :: stack) root)
      (MiniET.concat_strings (List.map MiniET.serialize_xml cs))
    = MiniET.mkP (MiniET.Text (absorb cs f pending).2)
        ((absorb cs f pending).1 :: stack) root.
Proof.
  induction 1 as [|c cs Hc _ IH]; intros Hplain f pending stack root; [done |].
  cbn [forallb] in Hplain. apply andb_prop in Hplain as [Hpc Hpcs].
  cbn [List.map MiniET.concat_strings absorb].
  rewrite serialize_xml_tail, !feed_app.
  rewrite (Hc Hpc) by done. cbn [attach].
  rewrite feed_text. by apply IH.
Qed.

Lemma feed_lt (buf : list ascii) (stack : list MiniET.frame) (root : option Element)
    (rest : string) :
  (stack = [] → root = None) →
  MiniET.feed (MiniET.mkP (MiniET.Text buf) stack root) (String "<" rest)
  = MiniET.feed
      (MiniET.mkP MiniET.Lt (match stack with [] => [] | f :: st => flush1 buf f :: st end) root)
      rest.
Proof.
  intros Htop. cbn [MiniET.feed]. f_equal. unfold MiniET.step. cbn [MiniET.p_mode MiniET.p_stack].
  destruct stack as [|f st].
  - rewrite Htop by done. done.
  - change (Ascii.eqb "<" "<") with true. cbn iota. cbn [MiniET.p_root].
    by rewrite flush_cons.
Qed.

Lemma feed_tag_name (tg : string) (stack : list MiniET.frame) (root : option Element)
    (rest : string) :
  xml_name tg = true →
  ∃ acc, MiniET.collected acc = tg
         ∧ MiniET.feed (MiniET.mkP MiniET.Lt stack root) (tg +:+ rest)
           = MiniET.feed (MiniET.mkP (MiniET.STag acc) stack root) rest.
Proof.
  intros (c & tg' & -> & Hc & Htg')%xml_name_inv.
  destruct (name_start_parsed c Hc) as (Hstart & _ & _ & _ & Hslash & Hq).
  exists (push tg' [c]). split; [by rewrite collected_push |].
  rewrite string_app_cons. cbn [MiniET.feed].
  unfold MiniET.step at 1. cbn [MiniET.p_mode]. rewrite Hq, Hslash, Hstart.
  unfold MiniET.goto. cbn [MiniET.p_stack MiniET.p_root].
  by rewrite feed_app, feed_STag.
Qed.

Lemma feed_end_tag (tg : string) (buf : list ascii) (f : MiniET.frame)
    (stack : list MiniET.frame) (root : option Element) :
  xml_name tg = true →
  MiniET.f_tag (flush1 buf f) = tg →
  MiniET.feed (MiniET.mkP (MiniET.Text buf) (f :: stack) root) ("</" +:+ tg +:+ ">")
  = attach (frame_element (flush1 buf f)) stack root.
Proof.
  intros Hname Htag.
  change ("</" +:+ tg +:+ ">") with (String "<" (String "/" (tg +:+ ">"))).
  rewrite feed_lt by done. cbn [MiniET.feed].
  change (MiniET.step (MiniET.mkP MiniET.Lt (flush1 buf f :: stack) root) "/")
    with (MiniET.mkP (MiniET.ETag []) (flush1 buf f :: stack) root).
  apply xml_name_inv in Hname as (c & tg' & Heq & Hc & Htg').
  rewrite feed_app, feed_ETag.
  - cbn [MiniET.feed]. unfold MiniET.step. cbn [MiniET.p_mode].
    change (MiniET.is_name_char ">") with false. cbn iota.
    rewrite collected_text. by apply close_element_frame.
  - rewrite Heq. cbn [string_forall]. by rewrite name_start_rest.
Qed.

(** The parser reads every valid element as it was written. *)
Lemma plain_parses (e : Element) : plain e = true → parses e.
Proof.
  induction e as [tg at_ tx tl cs IH] using Element_forall_ind.
  cbn [plain]. rewrite !andb_true_iff.
  intros [[[[Hname Hattrib] _] _] Hcs] buf stack root Htop.
  unfold element_string, MiniET.set_tail. cbn [tag attrib text tail children].
  rewrite serialize_xml_eq. cbn [default].
  change (MiniET.escape_cdata "") with "". rewrite string_app_nil_r.
  change ("<" +:+ tg +:+ ?x) with (String "<" (tg +:+ x)).
  rewrite feed_lt by done.
  set (stack' := match stack with [] => [] | f :: rest => flush1 buf f :: rest end).
  destruct (feed_tag_name tg stack' root
              (attrib_string at_ +:+
               (if truthy (default "" tx) || negb (bool_decide (cs = []))
                then ">" +:+ MiniET.escape_cdata (default "" tx)
                     +:+ MiniET.concat_strings (List.map MiniET.serialize_xml cs)
                     +:+ "</" +:+ tg +:+ ">"
                else " />")) Hname) as (acc & Hacc & ->).
  destruct (truthy (default "" tx) || negb (bool_decide (cs = []))) eqn:Hfull.
  - (* start tag, text, children, end tag *)
    rewrite <- string_app_assoc, feed_app.
    rewrite (proj2 (feed_after_name stack' root at_ tg acc "" Hattrib Hacc)).
    rewrite feed_app, feed_text, feed_app, feed_children by done.
    set (f0 := MiniET.mkFrame tg at_ None []).
    pose proof (absorb_children cs f0 (push (default "" tx) [])) as Hkids.
    assert (Hfirst : frame_element (flush1 (push (default "" tx) []) f0)
                     = mkElement tg at_ (read_text tx) None []).
    { rewrite flush1_text. by destruct tx as [[|c t]|]. }
    rewrite Hfirst in Hkids.
    rewrite feed_end_tag; [| done | by apply (f_equal tag) in Hkids].
    by rewrite Hkids.
  - (* an empty element *)
    apply orb_false_elim in Hfull as [Htext Hnone].
    apply negb_false_iff, bool_decide_eq_true in Hnone. subst cs.
    change (attrib_string at_ +:+ " />") with (attrib_string at_ +:+ " " +:+ "/>").
    rewrite (proj1 (feed_after_name stack' root at_ tg acc "/>" Hattrib Hacc)).
    cbn [MiniET.feed].
    change (MiniET.step (MiniET.mkP (MiniET.InTag tg (rev at_)) stack' root) "/")
      with (MiniET.mkP (MiniET.Slash tg (rev at_)) stack' root).
    change (MiniET.step (MiniET.mkP (MiniET.Slash tg (rev at_)) stack' root) ">")
      with (MiniET.close_element tg
              (MiniET.open_element tg (rev at_)
                 (MiniET.mkP (MiniET.Slash tg (rev at_)) stack' root))).
    unfold MiniET.open_element. cbn [MiniET.p_stack MiniET.p_root].
    rewrite rev_involutive, close_element_frame by done.
    cbn [as_read List.map]. by destruct tx as [[|c t]|].
Qed.

(** *** Documents *)

Lemma escaped_space (c : ascii) : isspace c = true → escaped_cdata c = String c "".
Proof.
  intros Hspace.
  destruct (escaped_cdata_cases c) as [[-> _]|[[-> _]|[[-> _]|(_ & _ & ->)]]]; done.
Qed.

Lemma feed_space_after_root (t : string) (e : Element) :
  all_space t = true →
  MiniET.feed (MiniET.mkP (MiniET.Text []) [] (Some e)) (MiniET.escape_cdata t)
  = MiniET.mkP (MiniET.Text []) [] (Some e).
Proof.
  induction t as [|c t IH]; [done |]. cbn [all_space]. intros [Hc Ht]%andb_prop.
  rewrite escape_cdata_cons, feed_app, escaped_space by done.
  cbn [MiniET.feed]. unfold MiniET.step at 1. cbn [MiniET.p_mode MiniET.p_stack].
  rewrite Hc. by apply IH.
Qed.

Lemma string_forall_app (p : ascii → bool) (a b : string) :
  string_forall p (a +:+ b) = string_forall p a && string_forall p b.
Proof.
  induction a as [|c a IH]; [done |].
  rewrite string_app_cons. cbn [string_forall]. by rewrite IH, andb_assoc.
Qed.

Lemma string_forall_impl (p q : ascii → bool) (s : string) :
  (∀ c, p c = true → q c = true) →
  string_forall p s = true → string_forall q s = true.
Proof.
  intros Hpq. induction s as [|c s IH]; [done |]. cbn [string_forall].
  intros [Hc Hs]%andb_prop. by rewrite (Hpq c Hc), IH.
Qed.

(** *** A valid document is written without a carriage return *)

Lemma name_rest_no_return (c : ascii) : name_rest c = true → no_return c = true.
Proof. by_character c. Qed.

Lemma xml_char_no_return (c : ascii) :
  xml_char c = true → string_forall no_return (escaped_cdata c) = true.
Proof. by_character c. Qed.

Lemma escaped_attrib_no_return (c : ascii) :
  string_forall no_return (escaped_attrib c) = true.
Proof. by_character c. Qed.

Lemma xml_name_no_return (s : string) :
  xml_name s = true → string_forall no_return s = true.
Proof.
  intros (c & s' & -> & Hc & Hs')%xml_name_inv. cbn [string_forall].
  rewrite (name_rest_no_return c) by (by apply name_start_rest).
  cbn [andb]. apply (string_forall_impl name_rest); [apply name_rest_no_return | done].
Qed.

Lemma escape_cdata_no_return (t : option string) :
  xml_text t = true →
  string_forall no_return (MiniET.escape_cdata (default "" t)) = true.
Proof.
  unfold xml_text. induction (default "" t) as [|c s IH]; [done |].
  cbn [string_forall]. intros [Hc Hs]%andb_prop.
  rewrite escape_cdata_cons, string_forall_app.
  by rewrite xml_char_no_return, IH.
Qed.

Lemma escape_attrib_no_return (v : string) :
  string_forall no_return (MiniET.escape_attrib v) = true.
Proof.
  induction v as [|c v IH]; [done |].
  by rewrite escape_attrib_cons, string_forall_app, escaped_attrib_no_return, IH.
Qed.

Lemma attrib_string_no_return (attrib : list (string * string)) :
  forallb (λ kv, xml_name kv.1) attrib = true →
  string_forall no_return (attrib_string attrib) = true.
Proof.
  unfold attrib_string. induction attrib as [|[k v] attrib IH]; [done |].
  cbn [forallb List.map MiniET.concat_strings fst].
  intros [Hk Hrest]%andb_prop.
  unfold MiniET.serialize_attrib at 1. cbn [fst snd].
  rewrite !string_forall_app, IH by done.
  by rewrite (xml_name_no_return k), escape_attrib_no_return.
Qed.

Lemma serialize_xml_no_return (e : Element) :
  plain e = true → string_forall no_return (MiniET.serialize_xml e) = true.
Proof.
  induction e as [tg at_ tx tl cs IH] using Element_forall_ind.
  cbn [plain]. rewrite !andb_true_iff.
  intros [[[[Hname Hattrib] Htext] Htail] Hcs].
  apply attributes_plain in Hattrib as [Hkeys _].
  assert (Hkids : string_forall no_return
                    (MiniET.concat_strings (List.map MiniET.serialize_xml cs)) = true).
  { clear -IH Hcs. induction IH as [|c cs Hc _ IHcs]; [done |].
    cbn [forallb] in Hcs. apply andb_prop in Hcs as [Hpc Hpcs].
    cbn [List.map MiniET.concat_strings]. by rewrite string_forall_app, Hc, IHcs. }
  rewrite serialize_xml_eq, !string_forall_app.
  rewrite (xml_name_no_return tg), attrib_string_no_return, (escape_cdata_no_return tl)
    by done.
  destruct (truthy (default "" tx) || negb (bool_decide (cs = []))); [| done].
  rewrite !string_forall_app.
  by rewrite (escape_cdata_no_return tx), Hkids, (xml_name_no_return tg).
Qed.

(** The parser gives a valid document as it was written. *)
Lemma parse_serialized (doc : Element) :
  valid_document doc = true →
  MiniET.XMLParser (MiniET.serialize doc).1 = inr (MiniET.set_tail (as_read doc) None).
Proof.
  unfold valid_document. intros [Hplain Htail]%andb_prop.
  unfold MiniET.XMLParser, MiniET.serialize. cbn [fst].
  rewrite normalize_newlines_id
    by (by rewrite string_forall_app, serialize_xml_no_return).
  rewrite feed_app.
  change (MiniET.feed (MiniET.mkP (MiniET.Text []) [] None) MiniET.xml_declaration)
    with (MiniET.mkP (MiniET.Text []) [] None).
  rewrite serialize_xml_tail, feed_app.
  rewrite (plain_parses doc Hplain) by done. cbn [attach].
  rewrite feed_space_after_root; [done |].
  by destruct (tail doc).
Qed.

(** *** Indentation *)

Lemma all_space_indentation (level : nat) : all_space (MiniET.indentation level) = true.
Proof.
  unfold MiniET.indentation. rewrite all_space_app. cbn [andb all_space newline].
  change (isspace (ascii_of_nat 10)) with true. cbn [andb].
  induction level as [|n IH]; [done |].
  cbn [MiniET.repeat_string]. by rewrite all_space_app, IH.
Qed.

Lemma xml_text_indentation (level : nat) : xml_text (Some (MiniET.indentation level)) = true.
Proof.
  unfold xml_text, MiniET.indentation. cbn [default id]. rewrite string_forall_app.
  change (string_forall xml_char newline) with true. cbn [andb].
  induction level as [|n IH]; [done |].
  cbn [MiniET.repeat_string]. by rewrite string_forall_app, IH.
Qed.

Lemma indent_children_eq (level : nat) (tg : string) (at_ : list (string * string))
    (tx tl : option string) (cs : list Element) :
  MiniET.indent_children level (mkElement tg at_ tx tl cs)
  = mkElement tg at_ (if blank tx then Some (MiniET.indentation (S level)) else tx) tl
      (MiniET.dedent_last (MiniET.indentation level)
         (List.map (λ child,
            let child := if MiniET.has_children child
                         then MiniET.indent_children (S level) child else child in
            if blank (tail child)
            then MiniET.set_tail child (Some (MiniET.indentation (S level))) else child) cs)).
Proof. reflexivity. Qed.

Lemma unindented_set_tail (c : Element) (t : option string) :
  blank (tail c) = true → blank t = true →
  unindented (MiniET.set_tail c t) = unindented c.
Proof.
  destruct c as [tg at_ tx tl cs]. unfold MiniET.set_tail.
  cbn [tag attrib text tail children unindented]. by intros -> ->.
Qed.

Lemma unindented_dedent_last (ind : string) (cs : list Element) :
  all_space ind = true →
  List.map unindented (MiniET.dedent_last ind cs) = List.map unindented cs.
Proof.
  intros Hind. induction cs as [|c [|c' cs] IH]; [done | |].
  - cbn [MiniET.dedent_last List.map].
    destruct (blank (tail c)) eqn:E; [| done]. by rewrite unindented_set_tail.
  - change (MiniET.dedent_last ind (c :: c' :: cs))
      with (c :: MiniET.dedent_last ind (c' :: cs)).
    cbn [List.map] in *. by rewrite IH.
Qed.

Lemma tail_indent_children (level : nat) (e : Element) :
  tail (MiniET.indent_children level e) = tail e.
Proof. destruct e. by rewrite indent_children_eq. Qed.

Lemma unindented_indent_children (e : Element) :
  ∀ level, unindented (MiniET.indent_children level e) = unindented e.
Proof.
  induction e as [tg at_ tx tl cs IH] using Element_forall_ind. intros level.
  rewrite indent_children_eq. cbn [unindented].
  rewrite unindented_dedent_last by apply all_space_indentation.
  f_equal.
  - destruct (blank tx) eqn:E; [| by rewrite E].
    cbn [blank]. by rewrite all_space_indentation.
  - rewrite List.map_map. apply map_ext_Forall.
    eapply Forall_impl; [exact IH |]. intros c Hc. cbn zeta.
    set (child := if MiniET.has_children c then _ else c).
    assert (Hchild : unindented child = unindented c)
      by (unfold child; destruct (MiniET.has_children c); [apply Hc | done]).
    destruct (blank (tail child)) eqn:E; [| done].
    rewrite unindented_set_tail; try done.
    cbn [blank]. apply all_space_indentation.
Qed.

Lemma unindented_indent (doc : Element) :
  unindented (MiniET.indent doc) = unindented doc.
Proof.
  unfold MiniET.indent. destruct (MiniET.has_children doc); [| done].
  apply unindented_indent_children.
Qed.

Lemma tail_indent (doc : Element) : tail (MiniET.indent doc) = tail doc.
Proof.
  unfold MiniET.indent. destruct (MiniET.has_children doc); [| done].
  apply tail_indent_children.
Qed.

Lemma plain_set_tail (c : Element) (t : option string) :
  plain c = true → xml_text t = true → plain (MiniET.set_tail c t) = true.
Proof.
  destruct c as [tg at_ tx tl cs]. unfold MiniET.set_tail.
  cbn [tag attrib text tail children plain]. rewrite !andb_true_iff. tauto.
Qed.

Lemma plain_dedent_last (ind : string) (cs : list Element) :
  xml_text (Some ind) = true →
  forallb plain cs = true → forallb plain (MiniET.dedent_last ind cs) = true.
Proof.
  intros Hind. induction cs as [|c [|c' cs] IH]; [done | |].
  - cbn [MiniET.dedent_last forallb]. rewrite !andb_true_r. intros Hc.
    destruct (blank (tail c)); [by apply plain_set_tail | done].
  - change (MiniET.dedent_last ind (c :: c' :: cs))
      with (c :: MiniET.dedent_last ind (c' :: cs)).
    cbn [forallb] in *. rewrite !andb_true_iff. intros [Hc Hcs]. split; [done |].
    apply IH. by rewrite andb_true_iff.
Qed.

Lemma plain_indent_children (e : Element) :
  ∀ level, plain e = true → plain (MiniET.indent_children level e) = true.
Proof.
  induction e as [tg at_ tx tl cs IH] using Element_forall_ind. intros level.
  rewrite indent_children_eq. cbn [plain]. rewrite !andb_true_iff.
  intros [[[[Hname Hattrib] Htext] Htail] Hcs].
  repeat split; try done.
  - destruct (blank tx); [apply xml_text_indentation | done].
  - apply plain_dedent_last; [apply xml_text_indentation |].
    rewrite forallb_forall in Hcs. apply forallb_forall. intros c' Hin.
    apply in_map_iff in Hin as (c & <- & Hin). cbn zeta.
    rewrite List.Forall_forall in IH.
    set (child := if MiniET.has_children c then _ else c).
    assert (Hchild : plain child = true).
    { unfold child. destruct (MiniET.has_children c); [| by apply Hcs].
      apply IH; [done | by apply Hcs]. }
    destruct (blank (tail child)); [| done].
    apply plain_set_tail; [done | apply xml_text_indentation].
Qed.

Lemma plain_indent (doc : Element) : plain doc = true → plain (MiniET.indent doc) = true.
Proof.
  unfold MiniET.indent. destruct (MiniET.has_children doc); [| done].
  apply plain_indent_children.
Qed.

(** *** What was read and what was written *)

Lemma blank_read_text (t : option string) : blank (read_text t) = blank t.
Proof. by destruct t as [[|c t]|]. Qed.

Lemma unindented_as_read (e : Element) : unindented (as_read e) = unindented e.
Proof.
  induction e as [tg at_ tx tl cs IH] using Element_forall_ind.
  cbn [as_read unindented]. rewrite !blank_read_text. f_equal.
  - by destruct tx as [[|c t]|].
  - by destruct tl as [[|c t]|].
  - rewrite List.map_map. by apply map_ext_Forall.
Qed.

Lemma plain_as_read (e : Element) : plain e = true → plain (as_read e) = true.
Proof.
  induction e as [tg at_ tx tl cs IH] using Element_forall_ind.
  cbn [as_read plain]. rewrite !andb_true_iff.
  intros [[[[Hname Hattrib] Htext] Htail] Hcs].
  repeat split; try done.
  - by destruct tx as [[|c t]|].
  - by destruct tl as [[|c t]|].
  - rewrite forallb_forall in Hcs. apply forallb_forall. intros c' Hin.
    apply in_map_iff in Hin as (c & <- & Hin).
    rewrite List.Forall_forall in IH. apply IH; [done | by apply Hcs].
Qed.

(** The small ElementTree reads back the valid documents it writes. *)
Lemma MiniET_reads_back : @reads_back MiniET.lib.
Proof.
  intros doc Hvalid. cbn [XMLParser serialize indent MiniET.lib].
  pose proof Hvalid as [Hplain Htail]%andb_prop.
  assert (Hindented : valid_document (MiniET.indent doc) = true).
  { unfold valid_document. by rewrite plain_indent, tail_indent, Htail. }
  exists (MiniET.set_tail (as_read (MiniET.indent doc)) None).
  split; [by apply parse_serialized |]. split.
  - unfold matches. rewrite unindented_set_tail; try done.
    + by rewrite unindented_as_read, unindented_indent.
    + destruct (MiniET.indent doc) as [tg at_ tx tl cs] eqn:E. cbn [as_read tail].
      rewrite blank_read_text. by rewrite <- Htail, <- (tail_indent doc), E.
  - unfold valid_document. apply andb_true_intro. split; [| by destruct (as_read _)].
    apply plain_set_tail; [| done]. by apply plain_as_read, plain_indent.
Qed.

(** * More of the program *)

Section operations.
Context `{ElementTree} `{Clock}.

(** ** The operations at the path of the handler *)

Lemma write_func_local (self : XMLFileHandler) (root : Element) (s s' : state) :
  files s' !! filepath self = files s !! filepath self →
  (write_func self root s').1 = (write_func self root s).1
  ∧ files (write_func self root s').2 !! filepath self
    = files (write_func self root s).2 !! filepath self.
Proof.
  intros E. rewrite !write_func_eq, E.
  destruct (files s !! filepath self) as [[data r [|]|]|] eqn:Es; cbn;
    unfold_state; (split; [done |]); rewrite ?lookup_insert_eq; congruence.
Qed.

Lemma append_func_local (self : XMLFileHandler) (new_element : Element) (s s' : state) :
  files s' !! filepath self = files s !! filepath self →
  (append_func self new_element s').1 = (append_func self new_element s).1
  ∧ files (append_func self new_element s').2 !! filepath self
    = files (append_func self new_element s).2 !! filepath self.
Proof.
  intros E. rewrite !append_func_eq, E.
  destruct (files s !! filepath self) as [[data [|] w|]|] eqn:Es; cbn;
    try (split; [done | congruence]).
  destruct (XMLParser data); cbn; [split; [done | congruence] |].
  destruct w; cbn; [| split; [done | congruence]].
  unfold_state. by rewrite !lookup_insert_eq.
Qed.

(** In file mode, away from the log file and from the handlers of the root
    logger, the decorated operation does at the path what its function
    does. *)
Lemma write_at_path (self : XMLFileHandler) (root : Element) (s : state) :
  filepath self ≠ LOG_FILE →
  log_can_open s = true →
  root_spares s (LogFile (filepath self)) = true →
  (write self root s).1 = (write_func self root s).1
  ∧ files (write self root s).2 !! filepath self
    = files (write_func self root s).2 !! filepath self.
Proof.
  intros Hne Hopen Hspares. rewrite write_run by done. cbn zeta. cbn [fst snd].
  pose proof (files_left_ne "write" self (write_func self root) s
                (write_func_only_files self root) Hne Hspares) as Hleft.
  cbn zeta in Hleft.
  set (s_in := entered "file" "write" (prepared "file" "write" s)) in *.
  assert (Hin : files s_in !! filepath self = files s !! filepath self)
    by (by apply files_entered_ne).
  destruct (write_func_local self root s s_in Hin) as [Hres Hfile].
  split; [done |]. by rewrite released_files, Hleft.
Qed.

Lemma append_at_path (self : XMLFileHandler) (new_element : Element) (s : state) :
  filepath self ≠ LOG_FILE →
  log_can_open s = true →
  root_spares s (LogFile (filepath self)) = true →
  (append self new_element s).1 = (append_func self new_element s).1
  ∧ files (append self new_element s).2 !! filepath self
    = files (append_func self new_element s).2 !! filepath self.
Proof.
  intros Hne Hopen Hspares. rewrite append_run by done. cbn zeta. cbn [fst snd].
  pose proof (files_left_ne "append" self (append_func self new_element) s
                (append_func_only_files self new_element) Hne Hspares) as Hleft.
  cbn zeta in Hleft.
  set (s_in := entered "file" "append" (prepared "file" "append" s)) in *.
  assert (Hin : files s_in !! filepath self = files s !! filepath self)
    by (by apply files_entered_ne).
  destruct (append_func_local self new_element s s_in Hin) as [Hres Hfile].
  split; [done |]. by rewrite released_files, Hleft.
Qed.

(** ** Reading what cannot be opened *)

(** X1. [read] of a file that cannot be opened raises [FileCorruptedError]
    for the path, never the [FileNotFoundError] of the module: for a file
    that is gone since the handler was made, or a directory, the reason is
    the message of the operating system; for a file the process may not
    read it is the fixed text of lab6.py line 66, whatever the file holds. *)
Theorem read_reports_what_open_reports (self : XMLFileHandler) (s : state) :
  (files s !! filepath self = None →
     (read self s).1
     = Raise (FileCorruptedError (filepath self) (exc_str (ENOENT (filepath self)))))
  ∧ (files s !! filepath self = Some Directory →
     (read self s).1
     = Raise (FileCorruptedError (filepath self) (exc_str (EISDIR (filepath self)))))
  ∧ (∀ data w, files s !! filepath self = Some (Regular data false w) →
     (read self s).1
     = Raise (FileCorruptedError (filepath self) "Немає прав для читання")).
Proof.
  rewrite read_run. cbn zeta. cbn [fst]. rewrite read_func_eq. cbn [fst].
  assert (Hgrown : grown (files s !! filepath self)
                     (files (entered "console" "read" (prepared "console" "read" s))
                        !! filepath self))
    by (by apply files_entered_grown).
  split; [| split].
  - intros E. rewrite E in Hgrown. cbn [grown] in Hgrown. by rewrite Hgrown.
  - intros E. rewrite E in Hgrown. cbn [grown] in Hgrown. by rewrite Hgrown.
  - intros data w E. rewrite E in Hgrown. destruct Hgrown as [more ->]; done.
Qed.

(** X2. [read] can be repeated: when no handler of the root logger writes
    to the file of the handler, a second call gives the outcome of the
    first. *)
Theorem read_again (self : XMLFileHandler) (s : state) :
  root_spares s (LogFile (filepath self)) = true →
  (read self (read self s).2).1 = (read self s).1.
Proof.
  intros Hspares.
  rewrite (read_at_path self (read self s).2)
    by (rewrite (root_spares_same s); [done | apply read_root]).
  rewrite read_at_path by done. apply read_func_local.
  unfold read. apply logged_files_spared; try done.
  - apply read_func_only_files.
  - intros s'. by rewrite read_func_state.
Qed.

(** ** Writing *)

(** X3. [write] to a file the process may not write, or to a directory,
    raises [FileCorruptedError] and leaves what is at the path as it was.
    The handler is not on the log file, the log file can be opened and no
    handler of the root logger writes to the file of the handler. *)
Theorem write_refused_keeps_the_document (self : XMLFileHandler) (root : Element) (s : state) :
  filepath self ≠ LOG_FILE →
  log_can_open s = true →
  root_spares s (LogFile (filepath self)) = true →
  (∀ data r, files s !! filepath self = Some (Regular data r false) →
     (write self root s).1
     = Raise (FileCorruptedError (filepath self) "Немає прав для запису")
     ∧ files (write self root s).2 !! filepath self = Some (Regular data r false))
  ∧ (files s !! filepath self = Some Directory →
     (write self root s).1
     = Raise (FileCorruptedError (filepath self) (exc_str (EISDIR (filepath self))))
     ∧ files (write self root s).2 !! filepath self = Some Directory).
Proof.
  intros Hne Hopen Hspares.
  destruct (write_at_path self root s Hne Hopen Hspares) as [-> ->].
  rewrite write_func_eq. split.
  - intros data r E. by rewrite E.
  - intros E. by rewrite E.
Qed.

(** X4. [write] does not need the file to be there: when the file is gone
    since the handler was made, [write] makes it, readable and writable,
    with the serialized document, and returns.  No [FileNotFoundError] is
    raised after the constructor.  (No handler of the root logger writes
    to the path.) *)
Theorem write_makes_a_missing_file (self : XMLFileHandler) (root : Element) (s : state) :
  filepath self ≠ LOG_FILE →
  log_can_open s = true →
  root_spares s (LogFile (filepath self)) = true →
  files s !! filepath self = None →
  (serialize (indent root)).2 = None →
  (write self root s).1 = Return tt
  ∧ files (write self root s).2 !! filepath self
    = Some (Regular (serialize (indent root)).1 true true).
Proof.
  intros Hne Hopen Hspares E Hser.
  destruct (write_at_path self root s Hne Hopen Hspares) as [-> ->].
  rewrite write_func_eq, E, Hser. cbn. unfold_state. by rewrite lookup_insert_eq.
Qed.

(** X5. [write] is not undone when it fails half way: when the library
    stops serializing with an error, [write] raises [FileCorruptedError]
    with the message of the library, and the file holds the text written
    up to there in place of what it held.  (No handler of the root logger
    writes to the file.) *)
Theorem write_is_not_undone (self : XMLFileHandler) (root : Element) (s : state)
    (data part msg : string) (r : bool) :
  filepath self ≠ LOG_FILE →
  log_can_open s = true →
  root_spares s (LogFile (filepath self)) = true →
  files s !! filepath self = Some (Regular data r true) →
  serialize (indent root) = (part, Some msg) →
  (write self root s).1 = Raise (FileCorruptedError (filepath self) msg)
  ∧ files (write self root s).2 !! filepath self = Some (Regular part r true).
Proof.
  intros Hne Hopen Hspares E Hser.
  destruct (write_at_path self root s Hne Hopen Hspares) as [-> ->].
  rewrite write_func_eq, E, Hser. cbn. unfold_state. by rewrite lookup_insert_eq.
Qed.

(** ** Appending *)

(** X6. [append] needs both permissions and says the same for either: for a
    file the process may not read, and for a document it may read and parse
    but not write, it raises [FileCorruptedError] with the reason of
    lab6.py line 91, and the file is as it was.  (No handler of the root
    logger writes to the file.) *)
Theorem append_refused_keeps_the_document (self : XMLFileHandler) (new_element : Element)
    (s : state) :
  filepath self ≠ LOG_FILE →
  log_can_open s = true →
  root_spares s (LogFile (filepath self)) = true →
  (∀ data w, files s !! filepath self = Some (Regular data false w) →
     (append self new_element s).1 = Raise (FileCorruptedError (filepath self) "Немає прав")
     ∧ files (append self new_element s).2 !! filepath self = Some (Regular data false w))
  ∧ (∀ data root, files s !! filepath self = Some (Regular data true false) →
     XMLParser data = inr root →
     (append self new_element s).1 = Raise (FileCorruptedError (filepath self) "Немає прав")
     ∧ files (append self new_element s).2 !! filepath self = Some (Regular data true false)).
Proof.
  intros Hne Hopen Hspares.
  destruct (append_at_path self new_element s Hne Hopen Hspares) as [-> ->].
  rewrite append_func_eq. split.
  - intros data w E. by rewrite E.
  - intros data root E Hdoc. by rewrite E, Hdoc.
Qed.



End operations.

Section decorator_more.
Context `{Clock}.

(** ** The decorator: modes, a destination that does not open, the registry *)

(** X9. Only the mode ["console"], spelled so, logs to the console: with any
    other mode, ["Console"] or the empty string as well, the decorator logs
    to the log file, as with ["file"]. *)
Theorem any_other_mode_is_file {A} (exception_type : exc_class) (mode name : string)
    (func : M A) (s : state) :
  mode ≠ "console" →
  logged exception_type mode name func s = logged exception_type "file" name func s.
Proof.
  intros Hmode. unfold logged, logged_setup.
  apply String.eqb_neq in Hmode. by rewrite Hmode.
Qed.

Lemma other_mode_destination (mode : string) :
  mode ≠ "console" → destination_of mode = LogFile LOG_FILE.
Proof.
  intros Hmode. unfold destination_of. apply String.eqb_neq in Hmode. by rewrite Hmode.
Qed.

(** X10. When the log file cannot be opened the decorated function is not
    called: the call raises the error of [open], an [OSError], whatever the
    function is, and no file, console output or handler has changed.  The
    logger of the function was set up before: it is at level INFO with no
    handler. *)
Theorem no_log_no_call {A} (exception_type : exc_class) (mode name : string)
    (func other : M A) (s : state) :
  mode ≠ "console" →
  log_can_open s = false →
  logged exception_type mode name func s = logged exception_type mode name other s
  ∧ (∃ e, (logged exception_type mode name func s).1 = Raise e
          ∧ isinstance e cOSError = true)
  ∧ files (logged exception_type mode name func s).2 = files s
  ∧ stderr (logged exception_type mode name func s).2 = stderr s
  ∧ handlers (logged exception_type mode name func s).2 = handlers s
  ∧ loggers (logged exception_type mode name func s).2 !! name = Some (mkLogger INFO []).
Proof.
  intros Hmode Hshut. apply other_mode_destination in Hmode.
  destruct (logged_run_closed exception_type mode name func s Hmode Hshut) as (e & He & Hcls).
  destruct (logged_run_closed exception_type mode name other s Hmode Hshut) as (e' & He' & _).
  assert (e' = e) as ->.
  { destruct (logged_setup_fails mode name s Hmode Hshut) as (e0 & Hsetup & _).
    unfold logged in He, He'. unfold mbind, M_bind in He, He'.
    rewrite Hsetup in He, He'. congruence. }
  rewrite He, He'. cbn [fst snd]. split; [done |].
  split; [exists e; by destruct Hcls as [-> | ->] |].
  unfold_state. by rewrite lookup_insert_eq.
Qed.

(** X11. The decorator takes the handlers that were attached to the logger
    of the function off it without closing them, and leaves every other
    logger alone: after a call, each handler object that was there before
    is as it was, open or closed, and a logger of another name has its
    level and its handlers.  The function is one that leaves the logging
    registry alone. *)
Theorem logged_spares_the_rest {A} (exception_type : exc_class) (mode name : string)
    (func : M A) (s : state) :
  keeps_logging func →
  (∀ i o, handlers s !! i = Some o →
          handlers (logged exception_type mode name func s).2 !! i = Some o)
  ∧ (∀ other, other ≠ name →
              loggers (logged exception_type mode name func s).2 !! other
              = loggers s !! other).
Proof.
  intros Hkeep.
  destruct (logged_cases mode s) as [Hopen|[Hmode Hshut]].
  - rewrite logged_run_keeps by done. cbn zeta. cbn [snd].
    set (rs := func (entered mode name (prepared mode name s))).
    destruct (Hkeep (entered mode name (prepared mode name s))) as [Hh Hl].
    fold rs in Hh, Hl. rewrite entered_handlers in Hh. rewrite entered_loggers in Hl.
    split.
    + intros i o Hi. unfold released. unfold_state. rewrite left_handlers, Hh.
      unfold prepared. cbn [handlers].
      pose proof (lookup_lt_Some _ _ _ Hi) as Hlt.
      rewrite alter_app_r_alt by done. by rewrite lookup_app_l.
    + intros other Hother. unfold released. unfold_state.
      rewrite lookup_insert_ne by done.
      rewrite left_loggers, Hl. unfold prepared. cbn [loggers]. by rewrite lookup_insert_ne.
  - destruct (logged_run_closed exception_type mode name func s Hmode Hshut) as (e & -> & _).
    cbn [snd]. split; [done |].
    intros other Hother. unfold_state. by rewrite lookup_insert_ne.
Qed.

Lemma outcome_record_unlogged {A} (exception_type : exc_class) (name : string) (k : nat)
    (r : result A) :
  logs_outcome exception_type r = false → outcome_record exception_type name k r = "".
Proof. destruct r as [v|e]; [done |]. cbn. by intros ->. Qed.

(** The console when the function starts and after the record of the
    outcome, when no handler of the root logger writes to it. *)
Lemma stderr_entered (name : string) (s : state) :
  root_spares s Console = true →
  stderr (entered "console" name (prepared "console" name s))
  = stderr s +:+ invoked_record name (ticks s).
Proof.
  intros Hspares. unfold entered. unfold_state.
  rewrite propagate_stderr; [done |].
  rewrite (root_spares_same s); [done | by rewrite write_to_root].
Qed.

Lemma stderr_left {A} (exception_type : exc_class) (name : string) (r : result A)
    (s : state) :
  root_spares s Console = true →
  stderr (left exception_type "console" name r s)
  = stderr s +:+ outcome_record exception_type name (ticks s) r.
Proof.
  intros Hspares. unfold left. destruct (logs_outcome exception_type r) eqn:Hlogs.
  - unfold_state. rewrite propagate_stderr; [done |].
    rewrite (root_spares_same s); [done | by rewrite write_to_root].
  - rewrite outcome_record_unlogged by done. by rewrite string_app_nil_r.
Qed.


End decorator_more.

(** ** The exceptions *)

(** X13. The message of [FileCorruptedError] does not tell the path from the
    reason: the exception for a path and a reason that is not empty is the
    exception for the path followed by the reason in brackets and no
    reason.  With the empty reason the message ends with the path. *)
Theorem corrupted_message_hides_the_reason (filepath reason : string) :
  reason ≠ "" →
  FileCorruptedError filepath reason
  = FileCorruptedError (filepath +:+ " (" +:+ reason +:+ ")") ""
  ∧ exc_str (FileCorruptedError filepath "") = "Файл пошкоджено: " +:+ filepath.
Proof.
  intros Hreason. split; [| done].
  unfold FileCorruptedError. destruct reason as [|c reason]; [done |].
  cbn [truthy]. reflexivity.
Qed.

Section frames_more.
Context `{ElementTree} `{Clock}.

(** ** The files an operation leaves alone *)

(** X14. [write] and [append] change no file but the document, the log
    file and the files that the handlers of the root logger write to: every
    other path holds after the call what it held before, whatever the
    outcome. *)
Theorem operations_change_two_files (self : XMLFileHandler) (root new_element : Element)
    (s : state) (other : string) :
  other ≠ filepath self →
  other ≠ LOG_FILE →
  root_spares s (LogFile other) = true →
  files (write self root s).2 !! other = files s !! other
  ∧ files (append self new_element s).2 !! other = files s !! other.
Proof.
  intros Hpath Hlog Hspares.
  assert (Hdest : destination_of "file" ≠ LogFile other)
    by (change (destination_of "file") with (LogFile LOG_FILE); congruence).
  split.
  - unfold write. apply logged_files_spared; try done.
    + apply write_func_only_files.
    + intros s'. by apply write_func_other.
  - unfold append. apply logged_files_spared; try done.
    + apply append_func_only_files.
    + intros s'. by apply append_func_other.
Qed.

(** The entry of the log file after [write] and [append]. *)
Lemma write_log_entry (self : XMLFileHandler) (root : Element) (s : state) :
  filepath self ≠ LOG_FILE →
  log_can_open s = true →
  root_spares s (LogFile LOG_FILE) = true →
  files (write self root s).2 !! LOG_FILE
  = Some (Regular (log_text s +:+ invoked_record "write" (ticks s)
                     +:+ closing_record "write" (S (ticks s)) (write self root s).1)
                  (may_read s LOG_FILE) true).
Proof.
  intros Hne Hopen Hspares.
  apply (file_mode_log_entry "write" (filepath self)); try done.
  - apply write_func_only_files.
  - intros s'. by apply write_func_other.
  - apply write_func_corrupted.
Qed.

Lemma append_log_entry (self : XMLFileHandler) (new_element : Element) (s : state) :
  filepath self ≠ LOG_FILE →
  log_can_open s = true →
  root_spares s (LogFile LOG_FILE) = true →
  files (append self new_element s).2 !! LOG_FILE
  = Some (Regular (log_text s +:+ invoked_record "append" (ticks s)
                     +:+ closing_record "append" (S (ticks s))
                           (append self new_element s).1)
                  (may_read s LOG_FILE) true).
Proof.
  intros Hne Hopen Hspares.
  apply (file_mode_log_entry "append" (filepath self)); try done.
  - apply append_func_only_files.
  - intros s'. by apply append_func_other.
  - apply append_func_corrupted.
Qed.

End frames_more.

(** ** The demonstration *)

Lemma P_print_bind {B} (line : string) (k : unit → P B) (p : process) :
  (print line ≫= k) p = k tt (mkProcess (world p) (stdout p +:+ line +:+ newline)).
Proof. done. Qed.

Lemma P_lift_bind {A B} (m : M A) (k : A → P B) (p : process) (a : A) :
  (m (world p)).1 = Return a →
  (lift m ≫= k) p = k a (mkProcess (m (world p)).2 (stdout p)).
Proof. intros Hm. unfold mbind, P_bind, lift. by rewrite Hm. Qed.

Lemma P_lift_raise {A B} (m : M A) (k : A → P B) (p : process) (e : exn) :
  (m (world p)).1 = Raise e →
  (lift m ≫= k) p = (Raise e, mkProcess (m (world p)).2 (stdout p)).
Proof. intros Hm. unfold mbind, P_bind, lift. by rewrite Hm. Qed.

Lemma print_children_run (cs : list Element) (p : process) :
  print_children cs p = (Return tt, mkProcess (world p) (stdout p +:+ listing cs)).
Proof.
  revert p. induction cs as [|c cs IH]; intros p.
  - cbn. rewrite string_app_nil_r. by destruct p.
  - cbn [print_children listing]. rewrite P_print_bind, IH. cbn [world stdout].
    by rewrite !string_app_assoc.
Qed.

Lemma P_print_children_bind {B} (cs : list Element) (k : unit → P B) (p : process) :
  (print_children cs ≫= k) p = k tt (mkProcess (world p) (stdout p +:+ listing cs)).
Proof. unfold mbind, P_bind. by rewrite print_children_run. Qed.

Section demonstration.
Context `{ElementTree} `{Clock}.

Lemma init_run (path : string) (s : state) :
  XMLFileHandler_init path s
  = (if bool_decide (is_Some (files s !! path))
     then Return (mkXMLFileHandler path) else Raise (FileNotFoundError path), s).
Proof.
  unfold XMLFileHandler_init, os_path_exists. unfold_monad.
  by destruct (bool_decide (is_Some (files s !! path))).
Qed.

(** The direct [tree.write] of the demonstration. *)
Lemma ElementTree_write_run (root : Element) (path : string) (s : state) :
  may_write s path = true →
  (serialize root).2 = None →
  ElementTree_write root path s
  = (Return tt,
     set_files (insert path (Regular (serialize root).1 (may_read s path) true)) s).
Proof.
  unfold may_write, may_read, ElementTree_write, open_truncate, append_data. unfold_monad.
  intros Hw Hser.
  destruct (files s !! path) as [[data r w|]|]; try done.
  - cbn in Hw. subst w. destruct (serialize root) as [out err]. cbn in Hser. subst err.
    unfold_state. by rewrite lookup_insert_eq, insert_insert_eq.
  - destruct (serialize root) as [out err]. cbn in Hser. subst err.
    unfold_state. by rewrite lookup_insert_eq, insert_insert_eq.
Qed.

Lemma try_init_bind {B} (path : string) (k : unit → P B) (p : process) :
  (try_except_P (lift (XMLFileHandler_init path);; mret tt) cFileNotFoundError
     (λ e, print (" ! " +:+ exc_str e)) ≫= k) p
  = k tt (mkProcess (world p)
            (stdout p +:+ (if bool_decide (is_Some (files (world p) !! path)) then ""
                           else " ! " +:+ exc_str (FileNotFoundError path) +:+ newline))).
Proof.
  unfold mbind at 1. unfold P_bind at 1. unfold try_except_P.
  unfold mbind, P_bind, lift. rewrite init_run. cbn [fst snd].
  destruct (bool_decide (is_Some (files (world p) !! path))).
  - unfold mret, P_ret. rewrite string_app_nil_r. by destruct p.
  - reflexivity.
Qed.

Lemma files_opened_missing (fs : gmap string entry) :
  fs !! LOG_FILE = None →
  files_opened "file" fs !! LOG_FILE = Some (Regular "" true true).
Proof.
  intros E. unfold files_opened. change (destination_of "file") with (LogFile LOG_FILE).
  cbn iota. rewrite E. apply lookup_insert_eq.
Qed.

Lemma files_opened_present (fs : gmap string entry) (e : entry) :
  fs !! LOG_FILE = Some e → files_opened "file" fs = fs.
Proof.
  intros E. unfold files_opened. change (destination_of "file") with (LogFile LOG_FILE).
  cbn iota. by rewrite E.
Qed.

Lemma file_mode_other (other : string) :
  other ≠ LOG_FILE → destination_of "file" ≠ LogFile other.
Proof. intros Hne. change (destination_of "file") with (LogFile LOG_FILE). congruence. Qed.

Lemma write_other (self : XMLFileHandler) (root : Element) (s : state) (other : string) :
  other ≠ filepath self →
  other ≠ LOG_FILE →
  root_spares s (LogFile other) = true →
  files (write self root s).2 !! other = files s !! other.
Proof.
  intros Hpath Hlog Hspares. unfold write.
  apply logged_files_spared; [apply write_func_only_files | | by apply file_mode_other | done].
  intros s'. by apply write_func_other.
Qed.

Lemma append_other (self : XMLFileHandler) (new_element : Element) (s : state) (other : string) :
  other ≠ filepath self →
  other ≠ LOG_FILE →
  root_spares s (LogFile other) = true →
  files (append self new_element s).2 !! other = files s !! other.
Proof.
  intros Hpath Hlog Hspares. unfold append.
  apply logged_files_spared; [apply append_func_only_files | | by apply file_mode_other | done].
  intros s'. by apply append_func_other.
Qed.

Lemma write_ticks (self : XMLFileHandler) (root : Element) (s : state) :
  log_can_open s = true → ticks (write self root s).2 = S (S (ticks s)).
Proof.
  intros Hopen. rewrite write_run by done. cbn zeta. cbn [snd].
  rewrite released_ticks, left_ticks
    by (eapply corrupted_is_watched, write_func_corrupted).
  rewrite only_files_ticks by apply write_func_only_files.
  by rewrite ticks_entered.
Qed.

Lemma append_ticks (self : XMLFileHandler) (new_element : Element) (s : state) :
  log_can_open s = true → ticks (append self new_element s).2 = S (S (ticks s)).
Proof.
  intros Hopen. rewrite append_run by done. cbn zeta. cbn [snd].
  rewrite released_ticks, left_ticks
    by (eapply corrupted_is_watched, append_func_corrupted).
  rewrite only_files_ticks by apply append_func_only_files.
  by rewrite ticks_entered.
Qed.

Lemma read_ticks (self : XMLFileHandler) (s : state) :
  ticks (read self s).2 = S (S (ticks s)).
Proof.
  rewrite read_run. cbn zeta. cbn [snd].
  rewrite released_ticks, left_ticks
    by (eapply corrupted_is_watched, read_func_corrupted).
  by rewrite ticks_entered.
Qed.

(** With no handler on the root logger [read] changes no file. *)
Lemma read_files_quiet (self : XMLFileHandler) (s : state) :
  root_handlers s = [] → files (read self s).2 = files s.
Proof.
  intros Hquiet. apply map_eq. intros path. unfold read.
  apply logged_files_spared; [apply read_func_only_files | | done | by apply root_spares_quiet].
  intros s'. by rewrite read_func_state.
Qed.

(** X15. The first run of the demonstration, that is with no log file and
    with no handler on the root logger.  When [temp.xml] can be written and
    the library serializes the empty root, the run returns; it leaves the log file with the two records of one
    [write], no [temp.xml] (one that was there is gone) and every other file
    as it was.  It reports a missing [demo.xml] and goes on. *)
Theorem first_run_leaves_the_log (p : process) :
  root_handlers (world p) = [] →
  files (world p) !! LOG_FILE = None →
  may_write (world p) "temp.xml" = true →
  (serialize temp_root).2 = None →
  (serialize (indent temp_root)).2 = None →
  (main p).1 = Return tt
  ∧ files (world (main p).2) !! LOG_FILE
    = Some (Regular (invoked_record "write" (ticks (world p))
                       +:+ closing_record "write" (S (ticks (world p))) (Return tt : result unit))
                    true true)
  ∧ files (world (main p).2) !! "temp.xml" = None
  ∧ (∀ other, other ≠ LOG_FILE → other ≠ "temp.xml" →
       files (world (main p).2) !! other = files (world p) !! other)
  ∧ stdout (main p).2
    = stdout p +:+ first_run_output (bool_decide (files (world p) !! "demo.xml" = None)).
Proof.
  intros Hquiet Hlog Htemp Hser Hser'.
  set (s := world p) in *.
  set (temp := mkXMLFileHandler "temp.xml").
  (* the states the run goes through *)
  set (s1 := set_files (insert "temp.xml"
                (Regular (serialize temp_root).1 (may_read s "temp.xml") true)) s).
  assert (Hw1 : ElementTree_write temp_root "temp.xml" s = (Return tt, s1))
    by (by apply ElementTree_write_run).
  assert (Htemp1 : files s1 !! "temp.xml"
                   = Some (Regular (serialize temp_root).1 (may_read s "temp.xml") true))
    by apply lookup_insert_eq.
  assert (Hlog1 : files s1 !! LOG_FILE = None)
    by (unfold s1; unfold_state; by rewrite lookup_insert_ne).
  assert (Hopen1 : log_can_open s1 = true) by (unfold log_can_open; by rewrite Hlog1).
  assert (Hquiet1 : root_handlers s1 = []) by exact Hquiet.
  assert (Hinit : XMLFileHandler_init "temp.xml" s1 = (Return temp, s1)).
  { rewrite init_run, Htemp1. by rewrite bool_decide_eq_true_2. }
  set (s2 := (write temp temp_root s1).2).
  destruct (write_at_path temp temp_root s1) as [Hres2 Htemp2];
    [done | done | by apply root_spares_quiet |].
  rewrite write_func_eq in Hres2, Htemp2. cbn [filepath temp] in Hres2, Htemp2.
  rewrite Htemp1, Hser' in Hres2, Htemp2. cbn in Hres2, Htemp2.
  unfold_state. rewrite lookup_insert_eq in Htemp2. fold s2 in Htemp2.
  assert (Hlog2 : files s2 !! LOG_FILE
                  = Some (Regular (invoked_record "write" (ticks s)
                            +:+ closing_record "write" (S (ticks s)) (Return tt : result unit))
                          true true)).
  { unfold s2.
    rewrite (write_log_entry temp temp_root s1) by (done || by apply root_spares_quiet).
    rewrite Hres2. unfold log_text, may_read. by rewrite Hlog1. }
  set (s3 := set_files (delete "temp.xml") s2).
  assert (Hrm : os_remove "temp.xml" s2 = (Return tt, s3))
    by (unfold os_remove; by rewrite Htemp2).
  (* the run *)
  assert (Hmain : main p
    = (Return tt,
       mkProcess s3 (stdout p +:+ ("Запуск " +:+ newline) +:+ newline
                     +:+ " Спроба відкрити неіснуючий 'demo.xml':" +:+ newline
                     +:+ (if bool_decide (is_Some (files s !! "demo.xml")) then ""
                          else " ! " +:+ exc_str (FileNotFoundError "demo.xml") +:+ newline)
                     +:+ (newline +:+ " Створюємо лог файл через декоратор...") +:+ newline
                     +:+ "Файл 'file_operations.log' створено" +:+ newline))).
  { unfold main. rewrite P_print_bind. cbv beta.
    erewrite P_lift_bind; last first.
    { unfold os_path_exists. cbn [world fst]. fold s. rewrite Hlog. reflexivity. }
    cbv beta. rewrite bool_decide_eq_false_2 by (by intros [? ?]).
    cbn [negb world stdout snd]. fold s.
    change ((os_path_exists LOG_FILE s).2) with s.
    unfold first_run. rewrite P_print_bind. cbv beta.
    rewrite try_init_bind. cbv beta. cbn [world stdout]. fold s.
    rewrite P_print_bind. cbv beta. cbn [world stdout].
    erewrite P_lift_bind by (cbn [world]; fold s; by rewrite Hw1). cbv beta.
    cbn [world stdout]. fold s. rewrite Hw1. cbn [snd].
    erewrite P_lift_bind by (cbn [world]; by rewrite Hinit). cbv beta.
    cbn [world stdout]. rewrite Hinit. cbn [snd].
    erewrite P_lift_bind by (cbn [world]; exact Hres2). cbv beta.
    cbn [world stdout]. fold s2.
    erewrite P_lift_bind by (cbn [world]; by rewrite Hrm). cbv beta.
    cbn [world stdout]. rewrite Hrm. cbn [snd].
    unfold print. cbn [world stdout]. by rewrite !string_app_assoc. }
  rewrite Hmain. cbn [fst snd world stdout].
  split; [done |]. split; [| split; [| split]].
  - unfold s3. unfold_state. rewrite lookup_delete_ne by done. exact Hlog2.
  - unfold s3. unfold_state. by rewrite lookup_delete_eq.
  - intros other Hol Hot. unfold s3. unfold_state. rewrite lookup_delete_ne by done.
    unfold s2. rewrite write_other by (done || by apply root_spares_quiet).
    unfold s1. unfold_state. by rewrite lookup_insert_ne.
  - unfold first_run_output.
    assert (Hb : bool_decide (is_Some (files s !! "demo.xml"))
                 = negb (bool_decide (files s !! "demo.xml" = None))).
    { destruct (files s !! "demo.xml") eqn:E.
      - rewrite bool_decide_eq_true_2 by eauto. by rewrite bool_decide_eq_false_2.
      - rewrite bool_decide_eq_false_2 by (by intros [? ?]). by rewrite bool_decide_eq_true_2. }
    rewrite Hb. destruct (bool_decide (files s !! "demo.xml" = None)); cbn [negb];
      by rewrite !string_app_assoc.
Qed.

(** What a call that goes well leaves behind. *)
Lemma read_forward (self : XMLFileHandler) (s : state) (doc : string) (w : bool)
    (root : Element) :
  root_handlers s = [] →
  files s !! filepath self = Some (Regular doc true w) →
  XMLParser doc = inr root →
  (read self s).1 = Return root
  ∧ files (read self s).2 = files s
  ∧ ticks (read self s).2 = S (S (ticks s))
  ∧ root_handlers (read self s).2 = [].
Proof.
  intros Hquiet Hfile Hdoc.
  split; [eapply read_of_file; [by apply root_spares_quiet | done | done] |].
  split; [by apply read_files_quiet |]. split; [apply read_ticks |].
  by rewrite read_root.
Qed.

Lemma log_entry_can_open (s : state) (text : string) (r : bool) :
  files s !! LOG_FILE = Some (Regular text r true) → log_can_open s = true.
Proof. intros E. unfold log_can_open. by rewrite E. Qed.

Lemma append_forward (self : XMLFileHandler) (new_element root : Element) (s : state)
    (doc text : string) (lr : bool) :
  root_handlers s = [] →
  filepath self ≠ LOG_FILE →
  files s !! filepath self = Some (Regular doc true true) →
  XMLParser doc = inr root →
  (serialize (indent (append_child root new_element))).2 = None →
  files s !! LOG_FILE = Some (Regular text lr true) →
  (append self new_element s).1 = Return tt
  ∧ files (append self new_element s).2 !! filepath self
    = Some (Regular (serialize (indent (append_child root new_element))).1 true true)
  ∧ files (append self new_element s).2 !! LOG_FILE
    = Some (Regular (text +:+ invoked_record "append" (ticks s)
                          +:+ closing_record "append" (S (ticks s))
                                (Return tt : result unit)) lr true)
  ∧ ticks (append self new_element s).2 = S (S (ticks s))
  ∧ root_handlers (append self new_element s).2 = [].
Proof.
  intros Hquiet Hne Hfile Hdoc Hser Hlog.
  pose proof (log_entry_can_open s text lr Hlog) as Hopen.
  destruct (append_at_path self new_element s Hne Hopen) as [Hres Hpath];
    [by apply root_spares_quiet |].
  rewrite append_func_eq, Hfile, Hdoc in Hres, Hpath. cbn in Hres, Hpath.
  rewrite Hser in Hres. unfold_state. rewrite lookup_insert_eq in Hpath.
  split; [done |]. split; [done |].
  split; [| split; [by apply append_ticks | by rewrite append_root]].
  rewrite append_log_entry by (done || by apply root_spares_quiet).
  rewrite Hres. unfold log_text, may_read. by rewrite Hlog.
Qed.

Lemma write_forward (self : XMLFileHandler) (root : Element) (s : state)
    (doc text : string) (r lr : bool) :
  root_handlers s = [] →
  filepath self ≠ LOG_FILE →
  files s !! filepath self = Some (Regular doc r true) →
  (serialize (indent root)).2 = None →
  files s !! LOG_FILE = Some (Regular text lr true) →
  (write self root s).1 = Return tt
  ∧ files (write self root s).2 !! filepath self
    = Some (Regular (serialize (indent root)).1 r true)
  ∧ files (write self root s).2 !! LOG_FILE
    = Some (Regular (text +:+ invoked_record "write" (ticks s)
                          +:+ closing_record "write" (S (ticks s))
                                (Return tt : result unit)) lr true)
  ∧ ticks (write self root s).2 = S (S (ticks s))
  ∧ root_handlers (write self root s).2 = [].
Proof.
  intros Hquiet Hne Hfile Hser Hlog.
  pose proof (log_entry_can_open s text lr Hlog) as Hopen.
  destruct (write_at_path self root s Hne Hopen) as [Hres Hpath];
    [by apply root_spares_quiet |].
  rewrite write_func_eq, Hfile in Hres, Hpath. cbn in Hres, Hpath.
  rewrite Hser in Hres. unfold_state. rewrite lookup_insert_eq in Hpath.
  split; [done |]. split; [done |].
  split; [| split; [by apply write_ticks | by rewrite write_root]].
  rewrite write_log_entry by (done || by apply root_spares_quiet).
  rewrite Hres. unfold log_text, may_read. by rewrite Hlog.
Qed.

(** X16. The second run of the demonstration, that is with the log file
    there and open to appending, and with no handler on the root logger.
    When [demo.xml] can be written and read
    and the library serializes and reads back the three documents, the run
    returns; [demo.xml] holds the rewritten document alone, the log file
    has gained the two records of the [append] and the two of the [write],
    no other file has changed, and the three listings printed are those of
    the roots that [read] returned. *)
Theorem second_run_rewrites_the_document (p : process) (r1 r2 r3 : Element)
    (trail : string) (lr : bool) :
  root_handlers (world p) = [] →
  files (world p) !! LOG_FILE = Some (Regular trail lr true) →
  may_write (world p) "demo.xml" = true →
  may_read (world p) "demo.xml" = true →
  (serialize (indent first_root)).2 = None →
  XMLParser (serialize (indent first_root)).1 = inr r1 →
  (serialize (indent (append_child r1 new_item))).2 = None →
  XMLParser (serialize (indent (append_child r1 new_item))).1 = inr r2 →
  (serialize (indent new_root)).2 = None →
  XMLParser (serialize (indent new_root)).1 = inr r3 →
  (main p).1 = Return tt
  ∧ files (world (main p).2) !! "demo.xml"
    = Some (Regular (serialize (indent new_root)).1 true true)
  ∧ files (world (main p).2) !! LOG_FILE
    = Some (Regular
              ((trail +:+ invoked_record "append" (2 + ticks (world p))
                  +:+ closing_record "append" (3 + ticks (world p)) (Return tt : result unit))
               +:+ invoked_record "write" (6 + ticks (world p))
               +:+ closing_record "write" (7 + ticks (world p)) (Return tt : result unit))
              lr true)
  ∧ (∀ other, other ≠ LOG_FILE → other ≠ "demo.xml" →
       files (world (main p).2) !! other = files (world p) !! other)
  ∧ stdout (main p).2 = stdout p +:+ second_run_output r1 r2 r3.
Proof.
  intros Hquiet Hlog Hmw Hmr Hser1 Hdoc1 Hser2 Hdoc2 Hser3 Hdoc3.
  set (s := world p) in *.
  set (h := mkXMLFileHandler "demo.xml").
  assert (Hne : filepath h ≠ LOG_FILE) by discriminate.
  (* the document is written directly *)
  set (s1 := set_files (insert "demo.xml"
                (Regular (serialize (indent first_root)).1 (may_read s "demo.xml") true)) s).
  assert (Hw1 : ElementTree_write (indent first_root) "demo.xml" s = (Return tt, s1))
    by (by apply ElementTree_write_run).
  assert (Hd1 : files s1 !! "demo.xml"
                = Some (Regular (serialize (indent first_root)).1 true true))
    by (unfold s1; unfold_state; by rewrite lookup_insert_eq, Hmr).
  assert (Hl1 : files s1 !! LOG_FILE = Some (Regular trail lr true))
    by (unfold s1; unfold_state; by rewrite lookup_insert_ne).
  assert (Hinit : XMLFileHandler_init "demo.xml" s1 = (Return h, s1)).
  { rewrite init_run, Hd1. by rewrite bool_decide_eq_true_2. }
  assert (Hq1 : root_handlers s1 = []) by exact Hquiet.
  (* read, append, read, write, read *)
  destruct (read_forward h s1 _ _ r1 Hq1 Hd1 Hdoc1) as (Hra & Hfa & Hta & Hqa).
  set (sa := (read h s1).2) in *.
  assert (Hda : files sa !! filepath h
                = Some (Regular (serialize (indent first_root)).1 true true))
    by (by rewrite Hfa).
  assert (Hla : files sa !! LOG_FILE = Some (Regular trail lr true)) by (by rewrite Hfa).
  destruct (append_forward h new_item r1 sa _ _ _ Hqa Hne Hda Hdoc1 Hser2 Hla)
    as (Hrb & Hdb & Hlb & Htb & Hqb).
  set (sb := (append h new_item sa).2) in *.
  destruct (read_forward h sb _ _ r2 Hqb Hdb Hdoc2) as (Hrc & Hfc & Htc & Hqc).
  set (sc := (read h sb).2) in *.
  assert (Hdc : files sc !! filepath h
                = Some (Regular (serialize (indent (append_child r1 new_item))).1 true true))
    by (by rewrite Hfc).
  rewrite <- Hfc in Hlb.
  destruct (write_forward h new_root sc _ _ _ _ Hqc Hne Hdc Hser3 Hlb)
    as (Hrd & Hdd & Hld & Htd & Hqd).
  set (sd := (write h new_root sc).2) in *.
  destruct (read_forward h sd _ _ r3 Hqd Hdd Hdoc3) as (Hre & Hfe & Hte & _).
  set (se := (read h sd).2) in *.
  assert (Hmain : main p = (Return tt, mkProcess se (stdout p +:+ second_run_output r1 r2 r3))).
  { unfold main. rewrite P_print_bind. cbv beta.
    erewrite P_lift_bind; last first.
    { unfold os_path_exists. cbn [world fst]. fold s. rewrite Hlog. reflexivity. }
    cbv beta. rewrite bool_decide_eq_true_2 by eauto.
    cbn [negb world stdout snd]. fold s.
    change ((os_path_exists LOG_FILE s).2) with s.
    unfold second_run. rewrite P_print_bind. cbv beta. cbn [world stdout].
    erewrite P_lift_bind by (cbn [world]; by rewrite Hw1). cbv beta.
    cbn [world stdout]. rewrite Hw1. cbn [snd].
    rewrite !P_print_bind. cbv beta. cbn [world stdout].
    erewrite P_lift_bind by (cbn [world]; by rewrite Hinit). cbv beta.
    cbn [world stdout]. rewrite Hinit. cbn [snd].
    rewrite !P_print_bind. cbv beta. cbn [world stdout].
    erewrite P_lift_bind by (cbn [world]; exact Hra). cbv beta.
    cbn [world stdout]. fold sa.
    rewrite P_print_children_bind. cbv beta. cbn [world stdout].
    rewrite P_print_bind. cbv beta. cbn [world stdout].
    erewrite P_lift_bind by (cbn [world]; exact Hrb). cbv beta.
    cbn [world stdout]. fold sb.
    rewrite !P_print_bind. cbv beta. cbn [world stdout].
    erewrite P_lift_bind by (cbn [world]; exact Hrc). cbv beta.
    cbn [world stdout]. fold sc.
    rewrite P_print_children_bind. cbv beta. cbn [world stdout].
    rewrite P_print_bind. cbv beta. cbn [world stdout].
    erewrite P_lift_bind by (cbn [world]; exact Hrd). cbv beta.
    cbn [world stdout]. fold sd.
    rewrite !P_print_bind. cbv beta. cbn [world stdout].
    erewrite P_lift_bind by (cbn [world]; exact Hre). cbv beta.
    cbn [world stdout]. fold se.
    rewrite print_children_run. cbn [world stdout].
    unfold second_run_output. by rewrite !string_app_assoc. }
  rewrite Hmain. cbn [fst snd world stdout].
  split; [done |]. split; [by rewrite Hfe |].
  split; [| split; [| done]].
  - rewrite Hfe, Hld. rewrite Htc, Htb, Hta. unfold s1. unfold_state. done.
  - intros other Hol Hod. rewrite Hfe. unfold sd.
    rewrite write_other by (done || by apply root_spares_quiet). rewrite Hfc. unfold sb.
    rewrite append_other by (done || by apply root_spares_quiet). rewrite Hfa.
    unfold s1. unfold_state. by rewrite lookup_insert_ne.
Qed.

(** X17. The first run does not get past a [temp.xml] it cannot write: the
    error of [open] leaves the demonstration as it is, an [OSError] that
    nothing has translated, and no file has changed; there is still no log
    file, so the next run is a first run again. *)
Theorem first_run_stops_at_temp (p : process) :
  files (world p) !! LOG_FILE = None →
  may_write (world p) "temp.xml" = false →
  (∃ e, (main p).1 = Raise e ∧ isinstance e cOSError = true)
  ∧ files (world (main p).2) = files (world p).
Proof.
  intros Hlog Htemp.
  set (s := world p) in *.
  assert (Hw : ∃ e, ElementTree_write temp_root "temp.xml" s = (Raise e, s)
                    ∧ isinstance e cOSError = true).
  { unfold may_write in Htemp.
    unfold ElementTree_write, open_truncate. unfold_monad.
    destruct (files s !! "temp.xml") as [[data r w|]|]; try done.
    - cbn in Htemp. subst w. by eexists.
    - by eexists. }
  destruct Hw as (e & Hw & He).
  assert (Hmain : ∃ out, main p = (Raise e, mkProcess s out)).
  { unfold main. rewrite P_print_bind. cbv beta.
    erewrite P_lift_bind; last first.
    { unfold os_path_exists. cbn [world fst]. fold s. rewrite Hlog. reflexivity. }
    cbv beta. rewrite bool_decide_eq_false_2 by (by intros [? ?]).
    cbn [negb world stdout snd]. fold s.
    change ((os_path_exists LOG_FILE s).2) with s.
    unfold first_run. rewrite P_print_bind. cbv beta.
    rewrite try_init_bind. cbv beta. cbn [world stdout]. fold s.
    rewrite P_print_bind. cbv beta. cbn [world stdout].
    erewrite P_lift_raise by (cbn [world]; by rewrite Hw).
    cbn [world stdout]. rewrite Hw. cbn [snd]. by eexists. }
  destruct Hmain as [out ->]. cbn [fst snd world]. split; [by exists e | done].
Qed.

End demonstration.

Section demonstration_more.
Context `{ElementTree} `{Clock}.

(** X18. With no handler on the root logger, the second run does not get
    past a log file it cannot append to:
    it writes [demo.xml] and reads it, and the [append] leaves it with the
    error of [open], an [OSError] that nothing has translated.  [demo.xml]
    holds the first document and the log file is as it was. *)
Theorem second_run_stops_at_append (p : process) (r1 : Element) (e0 : entry) :
  root_handlers (world p) = [] →
  files (world p) !! LOG_FILE = Some e0 →
  log_can_open (world p) = false →
  may_write (world p) "demo.xml" = true →
  may_read (world p) "demo.xml" = true →
  (serialize (indent first_root)).2 = None →
  XMLParser (serialize (indent first_root)).1 = inr r1 →
  (∃ e, (main p).1 = Raise e ∧ isinstance e cOSError = true)
  ∧ files (world (main p).2) !! "demo.xml"
    = Some (Regular (serialize (indent first_root)).1 true true)
  ∧ files (world (main p).2) !! LOG_FILE = Some e0.
Proof.
  intros Hquiet Hlog Hshut Hmw Hmr Hser1 Hdoc1.
  set (s := world p) in *.
  set (h := mkXMLFileHandler "demo.xml").
  set (s1 := set_files (insert "demo.xml"
                (Regular (serialize (indent first_root)).1 (may_read s "demo.xml") true)) s).
  assert (Hw1 : ElementTree_write (indent first_root) "demo.xml" s = (Return tt, s1))
    by (by apply ElementTree_write_run).
  assert (Hd1 : files s1 !! "demo.xml"
                = Some (Regular (serialize (indent first_root)).1 true true))
    by (unfold s1; unfold_state; by rewrite lookup_insert_eq, Hmr).
  assert (Hl1 : files s1 !! LOG_FILE = Some e0)
    by (unfold s1; unfold_state; by rewrite lookup_insert_ne).
  assert (Hinit : XMLFileHandler_init "demo.xml" s1 = (Return h, s1)).
  { rewrite init_run, Hd1. by rewrite bool_decide_eq_true_2. }
  assert (Hq1 : root_handlers s1 = []) by exact Hquiet.
  destruct (read_forward h s1 _ _ r1 Hq1 Hd1 Hdoc1) as (Hra & Hfa & _).
  set (sa := (read h s1).2) in *.
  assert (Hshut_a : log_can_open sa = false).
  { unfold log_can_open in *. rewrite Hfa, Hl1. by rewrite Hlog in Hshut. }
  destruct (logged_run_closed cFileCorruptedError "file" "append"
              (append_func h new_item) sa eq_refl Hshut_a) as (e & Happ & He).
  fold (append h new_item) in Happ.
  assert (Hmain : ∃ out, main p
            = (Raise e, mkProcess (set_loggers (insert "append" (mkLogger INFO [])) sa) out)).
  { unfold main. rewrite P_print_bind. cbv beta.
    erewrite P_lift_bind; last first.
    { unfold os_path_exists. cbn [world fst]. fold s. rewrite Hlog. reflexivity. }
    cbv beta. rewrite bool_decide_eq_true_2 by eauto.
    cbn [negb world stdout snd]. fold s.
    change ((os_path_exists LOG_FILE s).2) with s.
    unfold second_run. rewrite P_print_bind. cbv beta. cbn [world stdout].
    erewrite P_lift_bind by (cbn [world]; by rewrite Hw1). cbv beta.
    cbn [world stdout]. rewrite Hw1. cbn [snd].
    rewrite !P_print_bind. cbv beta. cbn [world stdout].
    erewrite P_lift_bind by (cbn [world]; by rewrite Hinit). cbv beta.
    cbn [world stdout]. rewrite Hinit. cbn [snd].
    rewrite !P_print_bind. cbv beta. cbn [world stdout].
    erewrite P_lift_bind by (cbn [world]; exact Hra). cbv beta.
    cbn [world stdout]. fold sa.
    rewrite P_print_children_bind. cbv beta. cbn [world stdout].
    rewrite P_print_bind. cbv beta. cbn [world stdout].
    erewrite P_lift_raise by (cbn [world]; by rewrite Happ).
    cbn [world stdout]. rewrite Happ. cbn [snd]. by eexists. }
  destruct Hmain as [out ->]. cbn [fst snd world]. unfold_state.
  split; [exists e; split; [done | by destruct He as [-> | ->]] |].
  by rewrite Hfa.
Qed.

End demonstration_more.

(** ** A handler on the log file *)

Section on_the_log.
Context `{ElementTree} `{Clock}.



End on_the_log.

(** ** The small ElementTree rejects a text that ends with a word *)

Lemma close_not_accepting (st : MiniET.pstate) :
  ¬ accepting st → ∃ msg, MiniET.close st = inl msg.
Proof.
  intros Hno. destruct (MiniET.close st) as [msg|root] eqn:E; [by exists msg |].
  exfalso. apply Hno. apply close_inr in E as (buf & Hm & Hs & Hr).
  by exists buf, root.
Qed.

(** After a letter the parser is inside a name, a value or a text, and a
    line end does not bring it to the end of a document. *)
Lemma step_letter (st : MiniET.pstate) (c : ascii) :
  c = "d"%char ∨ c = ascii_of_nat 190 →
  ¬ accepting (MiniET.step (MiniET.step st c) (ascii_of_nat 10)).
Proof.
  intros Hc (buf & root & Hm & Hs & Hr). revert Hm Hs Hr.
  destruct st as [m stack rt].
  destruct Hc as [-> | ->];
    destruct m; destruct stack as [|f stack]; destruct rt as [e|];
    cbn; try discriminate.
Qed.

Lemma MiniET_rejects_a_word (data : string) (c : ascii) :
  c = "d"%char ∨ c = ascii_of_nat 190 →
  ∃ msg, MiniET.XMLParser (data +:+ String c newline) = inl msg.
Proof.
  intros Hc. unfold MiniET.XMLParser.
  destruct (normalize_newlines_app data (String c newline)) as (rest & -> & Hrest).
  assert (Hsame : MiniET.normalize_newlines rest = String c newline).
  { destruct Hrest as [-> | Heq]; [by destruct Hc as [-> | ->] |].
    injection Heq as Heq _. by destruct Hc as [-> | ->]. }
  rewrite Hsame, feed_app. cbn [MiniET.feed newline].
  apply close_not_accepting. by apply step_letter.
Qed.

Lemma MiniET_rejects_the_call_of_append :
  @rejects_record MiniET.lib "append" "INFO" "Виклик append".
Proof.
  intros data stamp. cbn [XMLParser MiniET.lib].
  set (front := substring 0 (String.length "Виклик append" - 1) "Виклик append").
  assert (Hrec : data +:+ format_record stamp "append" "INFO" "Виклик append"
                 = (data +:+ stamp +:+ " - append - INFO - " +:+ front)
                   +:+ String "d" newline).
  { unfold format_record. rewrite !string_app_assoc.
    do 2 f_equal; vm_compute; reflexivity. }
  rewrite Hrec. apply MiniET_rejects_a_word. by left.
Qed.

Lemma MiniET_rejects_the_success_of_write :
  @rejects_record MiniET.lib "write" "INFO" "write виконано успішно".
Proof.
  intros data stamp. cbn [XMLParser MiniET.lib].
  set (front := substring 0 (String.length "write виконано успішно" - 1)
                  "write виконано успішно").
  assert (Hrec : data +:+ format_record stamp "write" "INFO" "write виконано успішно"
                 = (data +:+ stamp +:+ " - write - INFO - " +:+ front)
                   +:+ String (ascii_of_nat 190) newline).
  { unfold format_record. rewrite !string_app_assoc.
    do 2 f_equal; vm_compute; reflexivity. }
  rewrite Hrec. apply MiniET_rejects_a_word. by right.
Qed.

(** * The demonstration, run *)

(** The statements above at the documents of the demonstration, with the
    small ElementTree and the example clock. *)

#[local] Existing Instance MiniET.lib.
#[local] Existing Instance example_clock.

Lemma init_checks_the_path_demo :
  files empty_state !! "demo.xml" = None
  ∧ XMLFileHandler_init "demo.xml" empty_state
    = (Raise (FileNotFoundError "demo.xml"), empty_state)
  ∧ is_Some (files demo_state !! "demo.xml")
  ∧ ∃ self, XMLFileHandler_init "demo.xml" demo_state = (Return self, demo_state)
            ∧ filepath self = "demo.xml".
Proof.
  assert (Hnone : files empty_state !! "demo.xml" = None) by reflexivity.
  assert (Hsome : is_Some (files demo_state !! "demo.xml")) by (eexists; reflexivity).
  split; [exact Hnone |].
  split; [exact (proj1 (proj1 (init_checks_the_path "demo.xml" empty_state) Hnone)) |].
  split; [exact Hsome |].
  exact (proj2 (init_checks_the_path "demo.xml" demo_state) Hsome).
Defined.

(** The damaged document of lab6.py line 166, in a process whose root
    logger writes to [app.log]. *)
Lemma read_unparseable_demo :
  root_spares broken_app_state (LogFile (filepath demo_handler)) = true
  ∧ ET_parse "demo.xml" broken_app_state
    = (Raise (mkExn cParseError "no element found"), broken_app_state)
  ∧ (read demo_handler broken_app_state).1
    = Raise (FileCorruptedError "demo.xml" "XML помилка: no element found").
Proof.
  assert (Hspares : root_spares broken_app_state (LogFile (filepath demo_handler)) = true)
    by reflexivity.
  assert (Hparse : ET_parse "demo.xml" broken_app_state
                   = (Raise (mkExn cParseError "no element found"), broken_app_state))
    by (vm_compute; reflexivity).
  split; [exact Hspares |]. split; [exact Hparse |].
  exact (read_unparseable_is_corrupted demo_handler broken_app_state broken_app_state
           "no element found" Hspares Hparse).
Defined.

(** C5 as stated fails when a handler of the root logger writes to the
    document.  The file holds the damaged text, which the parser rejects;
    the record of the call goes up to the root logger, whose handler writes
    the end of the markup to the file before [read] parses it, and [read]
    returns a root. *)
Lemma read_of_unparseable_returns :
  let s := with_root_handler (closing_handler (LogFile "demo.xml")) broken_state in
  (ET_parse "demo.xml" s).1 = Raise (mkExn cParseError "no element found")
  ∧ (read demo_handler s).1
    = Return (mkElement "data" [] None None
                [mkElement "item" [] (Some "Незакритий тег") None []]).
Proof. cbv zeta. split; vm_compute; reflexivity. Qed.

(** [demo.xml] may not be written: [write] and [append] raise the error of
    the program, and so does [read] of the damaged file. *)
Lemma operations_raise_corrupted_only_demo :
  let s := with_file "demo.xml" (Regular demo_document true false) empty_state in
  log_can_open s = true
  ∧ returns_or_corrupted "demo.xml" (read demo_handler broken_state).1
  ∧ returns_or_corrupted "demo.xml" (write demo_handler demo_root s).1
  ∧ returns_or_corrupted "demo.xml" (append demo_handler second_item s).1
  ∧ (write demo_handler demo_root s).1
    = Raise (FileCorruptedError "demo.xml" "Немає прав для запису").
Proof.
  intros s.
  assert (Hopen : log_can_open s = true) by reflexivity.
  split; [exact Hopen |].
  split; [exact (proj1 (operations_raise_corrupted_only demo_handler demo_root second_item
                          broken_state)) |].
  split; [exact (proj1 (proj2 (operations_raise_corrupted_only demo_handler demo_root
                                 second_item s) Hopen)) |].
  split; [exact (proj2 (proj2 (operations_raise_corrupted_only demo_handler demo_root
                                 second_item s) Hopen)) |].
  vm_compute. reflexivity.
Defined.

(** C4 as stated fails: with a log file that may not be written, or a
    directory in its place, [write] and [append] raise the error of [open],
    a [PermissionError] or an [IsADirectoryError]. *)
Lemma raw_error_leaves_write_and_append :
  let locked := with_file LOG_FILE (Regular "" true false) demo_state in
  let blocked := with_file LOG_FILE Directory demo_state in
  (write demo_handler demo_root locked).1 = Raise (EACCES LOG_FILE)
  ∧ (append demo_handler second_item locked).1 = Raise (EACCES LOG_FILE)
  ∧ (write demo_handler demo_root blocked).1 = Raise (EISDIR LOG_FILE)
  ∧ exc_type (EACCES LOG_FILE) = cPermissionError
  ∧ exc_type (EISDIR LOG_FILE) = cIsADirectoryError
  ∧ ¬ returns_or_corrupted "demo.xml" (write demo_handler demo_root locked).1.
Proof.
  cbv zeta. repeat split; try (vm_compute; reflexivity).
  intros [reason Hreason]. vm_compute in Hreason. discriminate Hreason.
Qed.


(** A [write] that returns, in file mode, and a function that is
    interrupted, in console mode. *)
Lemma logged_releases_the_destination_demo :
  keeps_logging (write_func demo_handler demo_root)
  ∧ logged_setup "file" "write" demo_state
    = (Return ("write", 0), prepared "file" "write" demo_state)
  ∧ handlers (write demo_handler demo_root demo_state).2 !! 0
    = Some (mkHandler (LogFile LOG_FILE) true)
  ∧ (∀ i o, handlers (write demo_handler demo_root demo_state).2 !! i = Some o →
            h_closed o = false → handlers demo_state !! i = Some o)
  ∧ loggers (write demo_handler demo_root demo_state).2 !! "write" = Some (mkLogger INFO [])
  ∧ keeps_logging interrupted
  ∧ (logged cFileCorruptedError "console" "job" interrupted demo_state).1
    = Raise (mkExn cKeyboardInterrupt "")
  ∧ handlers (logged cFileCorruptedError "console" "job" interrupted demo_state).2 !! 0
    = Some (mkHandler Console true)
  ∧ loggers (logged cFileCorruptedError "console" "job" interrupted demo_state).2 !! "job"
    = Some (mkLogger INFO []).
Proof.
  assert (Hkeep : keeps_logging (write_func demo_handler demo_root))
    by apply only_files_keeps_logging, write_func_only_files.
  assert (Hsetup : logged_setup "file" "write" demo_state
                   = (Return ("write", 0), prepared "file" "write" demo_state))
    by (vm_compute; reflexivity).
  assert (Hkeep' : keeps_logging interrupted) by (intros s; split; reflexivity).
  assert (Hsetup' : logged_setup "console" "job" demo_state
                    = (Return ("job", 0), prepared "console" "job" demo_state))
    by (vm_compute; reflexivity).
  pose proof (logged_releases_the_destination cFileCorruptedError "file" "write"
                (write_func demo_handler demo_root) demo_state Hkeep) as (Hclosed & Hopen & Hlg).
  pose proof (logged_releases_the_destination cFileCorruptedError "console" "job"
                interrupted demo_state Hkeep') as (Hclosed' & _ & Hlg').
  split; [exact Hkeep |]. split; [exact Hsetup |].
  split; [exact (Hclosed _ _ _ Hsetup) |].
  split; [exact Hopen |]. split; [exact Hlg |].
  split; [exact Hkeep' |]. split; [vm_compute; reflexivity |].
  split; [exact (Hclosed' _ _ _ Hsetup') | exact Hlg'].
Defined.



Lemma append_unparsed_keeps_the_document_demo :
  let e := mkExn cParseError "no element found" in
  filepath demo_handler ≠ LOG_FILE
  ∧ log_can_open broken_app_state = true
  ∧ root_spares broken_app_state (LogFile (filepath demo_handler)) = true
  ∧ ET_parse (filepath demo_handler) broken_app_state = (Raise e, broken_app_state)
  ∧ (∃ reason, (append demo_handler second_item broken_app_state).1
               = Raise (FileCorruptedError (filepath demo_handler) reason))
  ∧ files (append demo_handler second_item broken_app_state).2 !! filepath demo_handler
    = files broken_app_state !! filepath demo_handler.
Proof.
  intros e.
  assert (Hne : filepath demo_handler ≠ LOG_FILE) by discriminate.
  assert (Hopen : log_can_open broken_app_state = true) by reflexivity.
  assert (Hspares : root_spares broken_app_state (LogFile (filepath demo_handler)) = true)
    by reflexivity.
  assert (Hparse : ET_parse (filepath demo_handler) broken_app_state
                   = (Raise e, broken_app_state))
    by (vm_compute; reflexivity).
  split; [exact Hne |]. split; [exact Hopen |]. split; [exact Hspares |].
  split; [exact Hparse |].
  exact (append_unparsed_keeps_the_document demo_handler second_item broken_app_state
           broken_app_state e Hne Hopen Hspares Hparse).
Defined.

(** C9 as stated fails.  For a handler on the log file itself, whose text is
    no document, [append] raises [FileCorruptedError] and the file has two
    records more.  With a log file that may not be written, [append] on a
    damaged document raises [PermissionError].  When a handler of the root
    logger writes to the damaged document, [append] raises
    [FileCorruptedError] and the document has two records more. *)
Lemma append_unparsed_changes_the_log :
  let s := with_file LOG_FILE (Regular "earlier records" true true) empty_state in
  let locked := with_file LOG_FILE (Regular "" true false) broken_state in
  let tapped := with_root_handler (basic_handler (LogFile "demo.xml")) broken_state in
  (ET_parse LOG_FILE s).1 = Raise (mkExn cParseError "not well-formed (invalid token)")
  ∧ (append log_handler second_item s).1
    = Raise (FileCorruptedError LOG_FILE "XML помилка: not well-formed (invalid token)")
  ∧ files (append log_handler second_item s).2 !! LOG_FILE ≠ files s !! LOG_FILE
  ∧ (ET_parse "demo.xml" locked).1 = Raise (mkExn cParseError "no element found")
  ∧ (append demo_handler second_item locked).1 = Raise (EACCES LOG_FILE)
  ∧ (ET_parse "demo.xml" tapped).1 = Raise (mkExn cParseError "no element found")
  ∧ (append demo_handler second_item tapped).1
    = Raise (FileCorruptedError "demo.xml" "XML помилка: no element found")
  ∧ files (append demo_handler second_item tapped).2 !! "demo.xml"
    ≠ files tapped !! "demo.xml".
Proof.
  cbv zeta.
  split; [vm_compute; reflexivity |]. split; [vm_compute; reflexivity |].
  split; [vm_compute; discriminate |].
  split; [vm_compute; reflexivity |]. split; [vm_compute; reflexivity |].
  split; [vm_compute; reflexivity |].
  split; [vm_compute; reflexivity |].
  vm_compute. discriminate.
Qed.

(** [read] in a process whose root logger writes to [app.log]. *)
Lemma read_keeps_the_files_demo :
  root_spares app_state (LogFile "demo.xml") = true
  ∧ root_spares app_state (LogFile LOG_FILE) = true
  ∧ files (read demo_handler app_state).2 !! "demo.xml" = files app_state !! "demo.xml"
  ∧ files (read demo_handler app_state).2 !! LOG_FILE = files app_state !! LOG_FILE.
Proof.
  assert (Hdoc : root_spares app_state (LogFile "demo.xml") = true) by reflexivity.
  assert (Hlog : root_spares app_state (LogFile LOG_FILE) = true) by reflexivity.
  split; [exact Hdoc |]. split; [exact Hlog |].
  split; [exact (read_keeps_the_files demo_handler app_state "demo.xml" Hdoc) |].
  exact (read_keeps_the_files demo_handler app_state LOG_FILE Hlog).
Defined.

(** C10 as stated fails when a handler of the root logger writes to the
    document: the two records of [read] go up to the root logger and end
    up in the document, after which it is no document.  The file of the
    root logger changes in any case. *)
Lemma read_changes_the_document :
  let tapped := with_root_handler (basic_handler (LogFile "demo.xml")) demo_state in
  files tapped !! "demo.xml" = Some (Regular demo_document true true)
  ∧ files (read demo_handler tapped).2 !! "demo.xml"
    = Some (Regular
              (demo_document +:+ basic_line 0 "read" "INFO" "Виклик read"
                 +:+ basic_line 1 "read" "ERROR"
                       ("FileCorruptedError: Файл пошкоджено: demo.xml "
                        +:+ "(XML помилка: junk after document element)"))
              true true)
  ∧ files (read demo_handler tapped).2 !! "demo.xml" ≠ files tapped !! "demo.xml"
  ∧ files (read demo_handler app_state).2 !! "app.log" ≠ files app_state !! "app.log".
Proof.
  cbv zeta. split; [vm_compute; reflexivity |]. split; [vm_compute; reflexivity |].
  split; vm_compute; discriminate.
Qed.





(** * More of the program, run *)

Lemma read_reports_what_open_reports_demo :
  files empty_state !! filepath demo_handler = None
  ∧ (read demo_handler empty_state).1
    = Raise (FileCorruptedError "demo.xml" (exc_str (ENOENT "demo.xml")))
  ∧ files directory_state !! filepath demo_handler = Some Directory
  ∧ (read demo_handler directory_state).1
    = Raise (FileCorruptedError "demo.xml" (exc_str (EISDIR "demo.xml")))
  ∧ files unreadable_state !! filepath demo_handler = Some (Regular demo_document false true)
  ∧ (read demo_handler unreadable_state).1
    = Raise (FileCorruptedError "demo.xml" "Немає прав для читання").
Proof.
  assert (H1 : files empty_state !! filepath demo_handler = None) by reflexivity.
  assert (H2 : files directory_state !! filepath demo_handler = Some Directory)
    by reflexivity.
  assert (H3 : files unreadable_state !! filepath demo_handler
               = Some (Regular demo_document false true)) by reflexivity.
  split; [exact H1 |].
  split; [exact (proj1 (read_reports_what_open_reports demo_handler empty_state) H1) |].
  split; [exact H2 |].
  split; [exact (proj1 (proj2 (read_reports_what_open_reports demo_handler directory_state))
                   H2) |].
  split; [exact H3 |].
  exact (proj2 (proj2 (read_reports_what_open_reports demo_handler unreadable_state))
           _ _ H3).
Defined.

(** The damaged document read twice, in a process whose root logger
    writes to [app.log]. *)
Lemma read_again_demo :
  root_spares broken_app_state (LogFile (filepath demo_handler)) = true
  ∧ (read demo_handler (read demo_handler broken_app_state).2).1
    = (read demo_handler broken_app_state).1.
Proof.
  assert (Hspares : root_spares broken_app_state (LogFile (filepath demo_handler)) = true)
    by reflexivity.
  split; [exact Hspares |].
  exact (read_again demo_handler broken_app_state Hspares).
Defined.

Lemma write_refused_keeps_the_document_demo :
  filepath demo_handler ≠ LOG_FILE
  ∧ log_can_open readonly_state = true
  ∧ root_spares readonly_state (LogFile (filepath demo_handler)) = true
  ∧ files readonly_state !! filepath demo_handler = Some (Regular demo_document true false)
  ∧ (write demo_handler new_root readonly_state).1
    = Raise (FileCorruptedError "demo.xml" "Немає прав для запису")
  ∧ files (write demo_handler new_root readonly_state).2 !! filepath demo_handler
    = Some (Regular demo_document true false)
  ∧ files directory_state !! filepath demo_handler = Some Directory
  ∧ (write demo_handler new_root directory_state).1
    = Raise (FileCorruptedError "demo.xml" (exc_str (EISDIR "demo.xml")))
  ∧ files (write demo_handler new_root directory_state).2 !! filepath demo_handler
    = Some Directory.
Proof.
  assert (Hne : filepath demo_handler ≠ LOG_FILE) by discriminate.
  assert (Hopen : log_can_open readonly_state = true) by reflexivity.
  assert (Hopen' : log_can_open directory_state = true) by reflexivity.
  assert (H1 : files readonly_state !! filepath demo_handler
               = Some (Regular demo_document true false)) by reflexivity.
  assert (H2 : files directory_state !! filepath demo_handler = Some Directory)
    by reflexivity.
  assert (Hspares : root_spares readonly_state (LogFile (filepath demo_handler)) = true)
    by reflexivity.
  assert (Hspares' : root_spares directory_state (LogFile (filepath demo_handler)) = true)
    by reflexivity.
  pose proof (proj1 (write_refused_keeps_the_document demo_handler new_root readonly_state
                       Hne Hopen Hspares) _ _ H1) as [Ha Hb].
  pose proof (proj2 (write_refused_keeps_the_document demo_handler new_root directory_state
                       Hne Hopen' Hspares') H2) as [Hc Hd].
  split; [exact Hne |]. split; [exact Hopen |]. split; [exact Hspares |].
  split; [exact H1 |].
  split; [exact Ha |]. split; [exact Hb |]. split; [exact H2 |].
  split; [exact Hc | exact Hd].
Defined.

Lemma write_makes_a_missing_file_demo :
  filepath demo_handler ≠ LOG_FILE
  ∧ log_can_open empty_state = true
  ∧ root_spares empty_state (LogFile (filepath demo_handler)) = true
  ∧ files empty_state !! filepath demo_handler = None
  ∧ (serialize (indent new_root)).2 = None
  ∧ (write demo_handler new_root empty_state).1 = Return tt
  ∧ files (write demo_handler new_root empty_state).2 !! filepath demo_handler
    = Some (Regular (serialize (indent new_root)).1 true true).
Proof.
  assert (Hne : filepath demo_handler ≠ LOG_FILE) by discriminate.
  assert (Hopen : log_can_open empty_state = true) by reflexivity.
  assert (Hnone : files empty_state !! filepath demo_handler = None) by reflexivity.
  assert (Hser : (serialize (indent new_root)).2 = None) by reflexivity.
  assert (Hspares : root_spares empty_state (LogFile (filepath demo_handler)) = true)
    by reflexivity.
  split; [exact Hne |]. split; [exact Hopen |]. split; [exact Hspares |].
  split; [exact Hnone |]. split; [exact Hser |].
  exact (write_makes_a_missing_file demo_handler new_root empty_state
           Hne Hopen Hspares Hnone Hser).
Defined.

(** With the serializer that stops after the declaration, [write] leaves
    the declaration where the document was. *)
Lemma write_is_not_undone_demo :
  filepath demo_handler ≠ LOG_FILE
  ∧ log_can_open demo_state = true
  ∧ root_spares demo_state (LogFile (filepath demo_handler)) = true
  ∧ files demo_state !! filepath demo_handler = Some (Regular demo_document true true)
  ∧ @serialize stopping_lib (@indent stopping_lib new_root)
    = (MiniET.xml_declaration, Some "cannot serialize 1 (type int)")
  ∧ (@write stopping_lib example_clock demo_handler new_root demo_state).1
    = Raise (FileCorruptedError "demo.xml" "cannot serialize 1 (type int)")
  ∧ files (@write stopping_lib example_clock demo_handler new_root demo_state).2
      !! filepath demo_handler
    = Some (Regular MiniET.xml_declaration true true).
Proof.
  assert (Hne : filepath demo_handler ≠ LOG_FILE) by discriminate.
  assert (Hopen : log_can_open demo_state = true) by reflexivity.
  assert (Hfile : files demo_state !! filepath demo_handler
                  = Some (Regular demo_document true true)) by reflexivity.
  assert (Hser : @serialize stopping_lib (@indent stopping_lib new_root)
                 = (MiniET.xml_declaration, Some "cannot serialize 1 (type int)"))
    by reflexivity.
  assert (Hspares : root_spares demo_state (LogFile (filepath demo_handler)) = true)
    by reflexivity.
  split; [exact Hne |]. split; [exact Hopen |]. split; [exact Hspares |].
  split; [exact Hfile |]. split; [exact Hser |].
  exact (@write_is_not_undone stopping_lib example_clock demo_handler new_root demo_state
           _ _ _ _ Hne Hopen Hspares Hfile Hser).
Defined.

Lemma append_refused_keeps_the_document_demo :
  filepath demo_handler ≠ LOG_FILE
  ∧ root_spares unreadable_state (LogFile (filepath demo_handler)) = true
  ∧ files unreadable_state !! filepath demo_handler = Some (Regular demo_document false true)
  ∧ (append demo_handler new_item unreadable_state).1
    = Raise (FileCorruptedError "demo.xml" "Немає прав")
  ∧ files (append demo_handler new_item unreadable_state).2 !! filepath demo_handler
    = Some (Regular demo_document false true)
  ∧ files readonly_state !! filepath demo_handler = Some (Regular demo_document true false)
  ∧ XMLParser demo_document = inr demo_parsed
  ∧ (append demo_handler new_item readonly_state).1
    = Raise (FileCorruptedError "demo.xml" "Немає прав")
  ∧ files (append demo_handler new_item readonly_state).2 !! filepath demo_handler
    = Some (Regular demo_document true false).
Proof.
  assert (Hne : filepath demo_handler ≠ LOG_FILE) by discriminate.
  assert (Hopen : log_can_open unreadable_state = true) by reflexivity.
  assert (Hopen' : log_can_open readonly_state = true) by reflexivity.
  assert (H1 : files unreadable_state !! filepath demo_handler
               = Some (Regular demo_document false true)) by reflexivity.
  assert (H2 : files readonly_state !! filepath demo_handler
               = Some (Regular demo_document true false)) by reflexivity.
  assert (Hdoc : XMLParser demo_document = inr demo_parsed) by (vm_compute; reflexivity).
  assert (Hspares : root_spares unreadable_state (LogFile (filepath demo_handler)) = true)
    by reflexivity.
  assert (Hspares' : root_spares readonly_state (LogFile (filepath demo_handler)) = true)
    by reflexivity.
  pose proof (proj1 (append_refused_keeps_the_document demo_handler new_item unreadable_state
                       Hne Hopen Hspares) _ _ H1) as [Ha Hb].
  pose proof (proj2 (append_refused_keeps_the_document demo_handler new_item readonly_state
                       Hne Hopen' Hspares') _ _ H2 Hdoc) as [Hc Hd].
  split; [exact Hne |]. split; [exact Hspares |]. split; [exact H1 |]. split; [exact Ha |]. split; [exact Hb |].
  split; [exact H2 |]. split; [exact Hdoc |]. split; [exact Hc | exact Hd].
Defined.



Lemma any_other_mode_is_file_demo :
  "Console" ≠ "console"
  ∧ logged cFileCorruptedError "Console" "read" (read_func demo_handler) demo_state
    = logged cFileCorruptedError "file" "read" (read_func demo_handler) demo_state
  ∧ stderr (logged cFileCorruptedError "Console" "read" (read_func demo_handler) demo_state).2
    = "".
Proof.
  assert (Hmode : "Console" ≠ "console") by discriminate.
  split; [exact Hmode |].
  split; [exact (any_other_mode_is_file cFileCorruptedError "Console" "read"
                   (read_func demo_handler) demo_state Hmode) |].
  vm_compute. reflexivity.
Defined.

Lemma no_log_no_call_demo :
  let s := with_file LOG_FILE Directory demo_state in
  "file" ≠ "console"
  ∧ log_can_open s = false
  ∧ write demo_handler new_root s = logged cFileCorruptedError "file" "write" interrupted s
  ∧ (∃ e, (write demo_handler new_root s).1 = Raise e ∧ isinstance e cOSError = true)
  ∧ files (write demo_handler new_root s).2 = files s
  ∧ stderr (write demo_handler new_root s).2 = stderr s
  ∧ handlers (write demo_handler new_root s).2 = handlers s
  ∧ loggers (write demo_handler new_root s).2 !! "write" = Some (mkLogger INFO []).
Proof.
  intros s.
  assert (Hmode : "file" ≠ "console") by discriminate.
  assert (Hshut : log_can_open s = false) by reflexivity.
  split; [exact Hmode |]. split; [exact Hshut |].
  exact (no_log_no_call cFileCorruptedError "file" "write"
           (write_func demo_handler new_root) interrupted s Hmode Hshut).
Defined.

Lemma logged_spares_the_rest_demo :
  keeps_logging (write_func demo_handler new_root)
  ∧ handlers busy_state !! 0 = Some (mkHandler Console false)
  ∧ handlers (write demo_handler new_root busy_state).2 !! 0 = Some (mkHandler Console false)
  ∧ "app" ≠ "write"
  ∧ loggers (write demo_handler new_root busy_state).2 !! "app"
    = Some (mkLogger WARNING [0])
  ∧ loggers (write demo_handler new_root busy_state).2 !! "write" = Some (mkLogger INFO []).
Proof.
  assert (Hkeep : keeps_logging (write_func demo_handler new_root))
    by apply only_files_keeps_logging, write_func_only_files.
  assert (Hh : handlers busy_state !! 0 = Some (mkHandler Console false)) by reflexivity.
  assert (Hne : "app" ≠ "write") by discriminate.
  pose proof (logged_spares_the_rest cFileCorruptedError "file" "write"
                (write_func demo_handler new_root) busy_state Hkeep) as [Hold Hother].
  split; [exact Hkeep |]. split; [exact Hh |]. split; [exact (Hold _ _ Hh) |].
  split; [exact Hne |]. split; [exact (Hother "app" Hne) |].
  vm_compute. reflexivity.
Defined.


Lemma corrupted_message_hides_the_reason_demo :
  "Немає прав" ≠ ""
  ∧ FileCorruptedError "demo.xml" "Немає прав"
    = FileCorruptedError "demo.xml (Немає прав)" ""
  ∧ exc_str (FileCorruptedError "demo.xml" "") = "Файл пошкоджено: demo.xml".
Proof.
  assert (Hreason : "Немає прав" ≠ "") by discriminate.
  split; [exact Hreason |].
  exact (corrupted_message_hides_the_reason "demo.xml" "Немає прав" Hreason).
Defined.

Lemma operations_change_two_files_demo :
  "notes.txt" ≠ filepath demo_handler
  ∧ "notes.txt" ≠ LOG_FILE
  ∧ root_spares notes_state (LogFile "notes.txt") = true
  ∧ files (write demo_handler new_root notes_state).2 !! "notes.txt"
    = Some (Regular "keep" true true)
  ∧ files (append demo_handler new_item notes_state).2 !! "notes.txt"
    = Some (Regular "keep" true true).
Proof.
  assert (Hpath : "notes.txt" ≠ filepath demo_handler) by discriminate.
  assert (Hlog : "notes.txt" ≠ LOG_FILE) by discriminate.
  assert (Hspares : root_spares notes_state (LogFile "notes.txt") = true) by reflexivity.
  split; [exact Hpath |]. split; [exact Hlog |]. split; [exact Hspares |].
  exact (operations_change_two_files demo_handler new_root new_item notes_state
           "notes.txt" Hpath Hlog Hspares).
Defined.

(** The first run in a directory that holds nothing, and the second run
    after it. *)
Lemma first_run_leaves_the_log_demo :
  let p := mkProcess empty_state "" in
  root_handlers (world p) = []
  ∧ files (world p) !! LOG_FILE = None
  ∧ may_write (world p) "temp.xml" = true
  ∧ (main p).1 = Return tt
  ∧ files (world (main p).2) !! LOG_FILE
    = Some (Regular (invoked_record "write" 0
                       +:+ closing_record "write" 1 (Return tt : result unit)) true true)
  ∧ files (world (main p).2) !! "temp.xml" = None
  ∧ stdout (main p).2 = first_run_output true.
Proof.
  intros p.
  assert (Hlog : files (world p) !! LOG_FILE = None) by reflexivity.
  assert (Htemp : may_write (world p) "temp.xml" = true) by reflexivity.
  assert (Hquiet : root_handlers (world p) = []) by reflexivity.
  pose proof (first_run_leaves_the_log p Hquiet Hlog Htemp eq_refl eq_refl)
    as (Hres & Hentry & Hgone & _ & Hout).
  split; [exact Hquiet |]. split; [exact Hlog |]. split; [exact Htemp |]. split; [exact Hres |].
  split; [exact Hentry |]. split; [exact Hgone | exact Hout].
Defined.

Lemma second_run_rewrites_the_document_demo :
  let p := (main (mkProcess empty_state "")).2 in
  let r1 := MiniET.indent first_root in
  let r2 := MiniET.indent (append_child r1 new_item) in
  let r3 := MiniET.indent new_root in
  root_handlers (world p) = []
  ∧ may_write (world p) "demo.xml" = true
  ∧ may_read (world p) "demo.xml" = true
  ∧ XMLParser (serialize (indent first_root)).1 = inr r1
  ∧ XMLParser (serialize (indent (append_child r1 new_item))).1 = inr r2
  ∧ XMLParser (serialize (indent new_root)).1 = inr r3
  ∧ (main p).1 = Return tt
  ∧ files (world (main p).2) !! "demo.xml"
    = Some (Regular (serialize (indent new_root)).1 true true)
  ∧ stdout (main p).2 = stdout p +:+ second_run_output r1 r2 r3.
Proof.
  intros p r1 r2 r3.
  assert (Hlog : files (world p) !! LOG_FILE
                 = Some (Regular (invoked_record "write" 0
                            +:+ closing_record "write" 1 (Return tt : result unit))
                           true true))
    by (vm_compute; reflexivity).
  assert (Hmw : may_write (world p) "demo.xml" = true) by (vm_compute; reflexivity).
  assert (Hmr : may_read (world p) "demo.xml" = true) by (vm_compute; reflexivity).
  assert (Hdoc1 : XMLParser (serialize (indent first_root)).1 = inr r1)
    by (vm_compute; reflexivity).
  assert (Hdoc2 : XMLParser (serialize (indent (append_child r1 new_item))).1 = inr r2)
    by (vm_compute; reflexivity).
  assert (Hdoc3 : XMLParser (serialize (indent new_root)).1 = inr r3)
    by (vm_compute; reflexivity).
  assert (Hquiet : root_handlers (world p) = []) by (vm_compute; reflexivity).
  pose proof (second_run_rewrites_the_document p r1 r2 r3 _ _ Hquiet Hlog Hmw Hmr
                eq_refl Hdoc1 eq_refl Hdoc2 eq_refl Hdoc3)
    as (Hres & Hfile & _ & _ & Hout).
  split; [exact Hquiet |]. split; [exact Hmw |]. split; [exact Hmr |]. split; [exact Hdoc1 |].
  split; [exact Hdoc2 |]. split; [exact Hdoc3 |]. split; [exact Hres |].
  split; [exact Hfile | exact Hout].
Defined.

Lemma first_run_stops_at_temp_demo :
  let p := mkProcess (with_file "temp.xml" Directory empty_state) "" in
  files (world p) !! LOG_FILE = None
  ∧ may_write (world p) "temp.xml" = false
  ∧ (∃ e, (main p).1 = Raise e ∧ isinstance e cOSError = true)
  ∧ files (world (main p).2) = files (world p).
Proof.
  intros p.
  assert (Hlog : files (world p) !! LOG_FILE = None) by reflexivity.
  assert (Htemp : may_write (world p) "temp.xml" = false) by reflexivity.
  split; [exact Hlog |]. split; [exact Htemp |].
  exact (first_run_stops_at_temp p Hlog Htemp).
Defined.



(** The second run with a log file that may not be written. *)
Lemma second_run_stops_at_append_demo :
  let p := mkProcess (with_file LOG_FILE (Regular "earlier records" true false) empty_state) "" in
  let r1 := MiniET.indent first_root in
  root_handlers (world p) = []
  ∧ log_can_open (world p) = false
  ∧ may_write (world p) "demo.xml" = true
  ∧ may_read (world p) "demo.xml" = true
  ∧ XMLParser (serialize (indent first_root)).1 = inr r1
  ∧ (∃ e, (main p).1 = Raise e ∧ isinstance e cOSError = true)
  ∧ files (world (main p).2) !! "demo.xml"
    = Some (Regular (serialize (indent first_root)).1 true true)
  ∧ files (world (main p).2) !! LOG_FILE = Some (Regular "earlier records" true false).
Proof.
  intros p r1.
  assert (Hlog : files (world p) !! LOG_FILE = Some (Regular "earlier records" true false))
    by reflexivity.
  assert (Hshut : log_can_open (world p) = false) by reflexivity.
  assert (Hmw : may_write (world p) "demo.xml" = true) by reflexivity.
  assert (Hmr : may_read (world p) "demo.xml" = true) by reflexivity.
  assert (Hdoc1 : XMLParser (serialize (indent first_root)).1 = inr r1)
    by (vm_compute; reflexivity).
  assert (Hquiet : root_handlers (world p) = []) by reflexivity.
  split; [exact Hquiet |]. split; [exact Hshut |]. split; [exact Hmw |].
  split; [exact Hmr |]. split; [exact Hdoc1 |].
  exact (second_run_stops_at_append p r1 _ Hquiet Hlog Hshut Hmw Hmr eq_refl Hdoc1).
Defined.
